(** * sdk-dome-go: a shallow embedding of the client lifecycle and
      authorization core, with the properties checked against it.

    Every definition below embeds one function of the Go sources and keeps
    its name.  Effects are explicit: a function that mutates a receiver
    returns the new receiver, a function that calls out (RPC, HTTP round
    trip, goroutine start, mutex) records the call in a trace of events, and
    collaborators that live outside the repository (encoding/json,
    encoding/base64, the Cedar parser and authorizer, the control plane) are
    Section variables, so that every theorem holds for all of them. *)

From Stdlib Require Import ZArith List Lia Bool Ascii String.
From Stdlib Require Import SpecFloat.
From stdpp Require Import base option list gmap strings pretty.

#[local] Set Warnings "-register-all".
#[local] Set Default Proof Using "Type".

Local Open Scope string_scope.
Local Open Scope Z_scope.
Local Open Scope list_scope.

(* ===================================================================== *)
(** * Go values: errors, 64-bit integers, durations and instants        *)
(* ===================================================================== *)

Module Go.

(** connect.Code, restricted to the codes the SDK distinguishes. *)
Inductive Code :=
| CodeUnknown
| CodeAlreadyExists
| CodeUnavailable
| CodeUnimplemented
| CodeCanceled.

(** A Go [error] value.  [errors_New msg] is [errors.New(msg)];
    [fmt_Errorf format args w] is [fmt.Errorf(format, args...)] where [w] is
    the error bound to the [%w] verb when the format has one (every use of
    [%w] in the repository wraps exactly one error); [connect_Error] is a
    [*connect.Error]. *)
Inductive error :=
| errors_New (msg : string)
| fmt_Errorf (format : string) (args : list string) (w : option error)
| connect_Error (code : Code) (msg : string).

(** [connect.CodeOf]: the code of the first [*connect.Error] in the
    unwrap chain, [CodeUnknown] when there is none. *)
Fixpoint CodeOf (err : error) : Code :=
  match err with
  | errors_New _ => CodeUnknown
  | fmt_Errorf _ _ (Some inner) => CodeOf inner
  | fmt_Errorf _ _ None => CodeUnknown
  | connect_Error c _ => c
  end.

Definition Code_eqb (a b : Code) : bool :=
  match a, b with
  | CodeUnknown, CodeUnknown
  | CodeAlreadyExists, CodeAlreadyExists
  | CodeUnavailable, CodeUnavailable
  | CodeUnimplemented, CodeUnimplemented
  | CodeCanceled, CodeCanceled => true
  | _, _ => false
  end.

(** The package helper [errorf]: [fmt.Errorf("dome: "+format, args...)]. *)
Definition errorf (format : string) (args : list string) (w : option error) : error :=
  fmt_Errorf ("dome: " +:+ format) args w.

(** Go's [s == ""]. *)
Definition is_empty (s : string) : bool :=
  match s with
  | EmptyString => true
  | String _ _ => false
  end.

Lemma is_empty_true (s : string) : is_empty s = true <-> s = "".
Proof. destruct s; simpl; split; congruence. Qed.

Lemma is_empty_false (s : string) : is_empty s = false <-> s <> "".
Proof. destruct s; simpl; split; congruence. Qed.

(** ** int64 with two's-complement wrap-around *)

Definition MinInt64 : Z := - 2 ^ 63.
Definition MaxInt64 : Z := 2 ^ 63 - 1.

(** The value an int64 operation keeps of its mathematical result. *)
Definition wrap64 (z : Z) : Z := (z + 2 ^ 63) mod 2 ^ 64 - 2 ^ 63.

Definition in_int64 (z : Z) : Prop := MinInt64 <= z <= MaxInt64.

Lemma wrap64_id (z : Z) : in_int64 z -> wrap64 z = z.
Proof.
  unfold in_int64, wrap64, MinInt64, MaxInt64.
  change (2 ^ 63) with 9223372036854775808.
  change (2 ^ 64) with 18446744073709551616.
  intros H. rewrite Z.mod_small; lia.
Qed.

(** ** time.Duration: an int64 count of nanoseconds *)

Definition Duration := Z.

Definition Nanosecond : Duration := 1.
Definition Millisecond : Duration := 1000000.
Definition Second : Duration := 1000000000.
Definition Minute : Duration := 60 * Second.

(** [time.Duration(n) * unit], an int64 multiplication. *)
Definition Duration_mul (n : Z) (unit : Duration) : Duration := wrap64 (n * unit).

(** ** time.Time: an instant, as nanoseconds on one time line.
    [Time.Add] and [Time.Before] work on seconds held in an int64, so an
    instant plus an int64 duration never leaves the representable range. *)

Definition Time := Z.

Definition Time_Add (t : Time) (d : Duration) : Time := t + d.
Definition Time_Before (t u : Time) : bool := t <? u.

End Go.

(* ===================================================================== *)
(** * float64 (IEEE 754 binary64) and its conversions                   *)
(* ===================================================================== *)

Module Float64.

Import Go.

Definition prec : Z := 53.
Definition emax : Z := 1024.

Definition float64 := spec_float.

Definition fmul : float64 -> float64 -> float64 := SFmul prec emax.
Definition fsub : float64 -> float64 -> float64 := SFsub prec emax.

(** The float64 nearest to [m * 2^e] (ties to even). *)
Definition of_scaled (m e : Z) : float64 := binary_normalize prec emax m e false.

(** [float64(n)] for an integer [n]. *)
Definition of_int (n : Z) : float64 := of_scaled n 0.

Definition const_0_25 : float64 := of_scaled 1 (-2).
Definition const_0_5 : float64 := of_scaled 1 (-1).
Definition const_0_75 : float64 := of_scaled 3 (-2).
Definition const_1 : float64 := of_scaled 1 0.
Definition const_2 : float64 := of_scaled 1 1.

(** [math.Pow(2, float64(n))] for an integer [n > 0]: the pure-Go
    implementation multiplies powers of two only, so the result is exactly
    [2^n], and [+Inf] once the exponent leaves the format. *)
Definition Pow2 (n : Z) : float64 :=
  if 1024 <=? n then S754_infinity false else of_scaled 1 n.

(** The integer part of a finite float, rounded toward zero. *)
Definition trunc (f : float64) : option Z :=
  match f with
  | S754_zero _ => Some 0
  | S754_finite s m e =>
      let a := if 0 <=? e then Z.pos m * 2 ^ e else Z.pos m / 2 ^ (- e) in
      Some (if s then - a else a)
  | S754_infinity _ | S754_nan => None
  end.

(** The Go specification leaves the conversion of a float that the integer
    type cannot represent implementation-dependent.  The gc compiler emits
    CVTTSD2SQ on amd64, which answers the "integer indefinite" value
    [-2^63] for every such input, and FCVTZS on arm64, which saturates
    (and answers 0 for a NaN). *)
Inductive GOARCH := amd64 | arm64.

Definition out_of_range (arch : GOARCH) (f : float64) : Z :=
  match arch with
  | amd64 => MinInt64
  | arm64 =>
      match f with
      | S754_nan => 0
      | S754_infinity true | S754_finite true _ _ => MinInt64
      | _ => MaxInt64
      end
  end.

(** [int64(f)], which is also [time.Duration(f)]. *)
Definition to_int64 (arch : GOARCH) (f : float64) : Z :=
  match trunc f with
  | Some z => if (MinInt64 <=? z) && (z <=? MaxInt64) then z else out_of_range arch f
  | None => out_of_range arch f
  end.

End Float64.

(* ===================================================================== *)
(** * backoff.go                                                         *)
(* ===================================================================== *)

Module Backoff.

Import Go Float64.

Section Backoff.

(** The architecture the program was compiled for. *)
Variable arch : GOARCH.

(** [backoff(baseInterval, maxInterval, consecutiveFailures)]; the last
    argument is the value [rand.Float64()] returned, a float in [0, 1). *)
Definition backoff (baseInterval maxInterval : Duration) (consecutiveFailures : Z)
    (rand_Float64 : float64) : Duration :=
  if consecutiveFailures <=? 0 then baseInterval
  else
    let multiplier := Pow2 consecutiveFailures in
    let interval := to_int64 arch (fmul (of_int baseInterval) multiplier) in
    let interval := if maxInterval <? interval then maxInterval else interval in
    let jitter :=
      to_int64 arch
        (fmul (fmul (of_int interval) const_0_25)
              (fsub (fmul rand_Float64 const_2) const_1)) in
    let interval := wrap64 (interval + jitter) in
    if interval <? baseInterval then baseInterval else interval.

(** With no failure recorded the base interval is returned as it is. *)
Lemma backoff_no_failures (base max : Duration) (failures : Z) (r : float64) :
  failures <= 0 -> backoff base max failures r = base.
Proof.
  intros Hle. unfold backoff.
  destruct (Z.leb_spec failures 0) as [_ | Hgt]; [reflexivity | lia].
Qed.

(** The closing clamp holds on every path, wrapped additions included. *)
Lemma backoff_lower_bound (base max : Duration) (failures : Z) (r : float64) :
  base <= backoff base max failures r.
Proof.
  unfold backoff.
  destruct (failures <=? 0); [lia |].
  match goal with |- context [wrap64 ?z] => generalize (wrap64 z) end.
  intros i. destruct (Z.ltb_spec i base); lia.
Qed.

End Backoff.

(** The heartbeat's own parameters: the default 30 s interval and
    [maxHeartbeatInterval], 5 min. *)
Definition heartbeat_base : Duration := 30 * Second.
Definition maxHeartbeatInterval : Duration := 5 * Minute.

(** The bookkeeping of [runHeartbeat] when its timer fires: [ok] is what
    [sendHeartbeat] returned, and the interval computed is the one the
    timer is reset to. *)
Record heartbeatState := { consecutiveFailures : Z; currentInterval : Duration }.

Definition onTimer (arch : GOARCH) (baseInterval : Duration) (st : heartbeatState)
    (ok : bool) (rand_Float64 : float64) : heartbeatState :=
  if ok then {| consecutiveFailures := 0; currentInterval := baseInterval |}
  else
    let failures := wrap64 (consecutiveFailures st + 1) in
    {| consecutiveFailures := failures;
       currentInterval := backoff arch baseInterval maxHeartbeatInterval failures rand_Float64 |}.

(** The loop's state after the timer fired for each of [outcomes] in turn. *)
Definition runTimers (arch : GOARCH) (baseInterval : Duration)
    (outcomes : list (bool * float64)) : heartbeatState :=
  foldl (fun st o => onTimer arch baseInterval st o.1 o.2)
        {| consecutiveFailures := 0; currentInterval := baseInterval |} outcomes.

(** Through 28 consecutive failures the product [base * 2^failures] still
    fits an int64 and the cap applies: here the jitter draw is 0.75, that
    is +12.5% of the capped interval. *)
Example backoff_heartbeat_28 :
  backoff amd64 heartbeat_base maxHeartbeatInterval 28 const_0_75 = 337500000000.
Proof. vm_compute. reflexivity. Qed.

(** On arm64 the conversion saturates, so the cap still applies at 29. *)
Example backoff_heartbeat_29_arm64 :
  backoff arm64 heartbeat_base maxHeartbeatInterval 29 const_0_75 = 337500000000.
Proof. vm_compute. reflexivity. Qed.

(** C3.  At the 29th consecutive heartbeat failure [30e9 * 2^29] exceeds
    the int64 range; on amd64 the conversion to a Duration answers [-2^63],
    the comparison with the maximum does not fire, the jitter of a draw
    above one half is negative, and the addition wraps to a positive
    duration of about 255 years.  The result lies far above [1.25 * max],
    so the stated bounds do not hold for this call. *)
Theorem backoff_overflow_amd64 :
  backoff amd64 heartbeat_base maxHeartbeatInterval 29 const_0_75 = 8070450532247928832
  /\ 5 * maxHeartbeatInterval < 4 * backoff amd64 heartbeat_base maxHeartbeatInterval 29 const_0_75.
Proof. split; vm_compute; reflexivity. Qed.

(** The heartbeat loop reaches that call by itself: 29 failed heartbeats
    in a row, and the timer is reset to the wrapped interval. *)
Example heartbeat_after_29_failures :
  runTimers amd64 heartbeat_base (replicate 29 (false, const_0_75))
  = {| consecutiveFailures := 29; currentInterval := 8070450532247928832 |}.
Proof. vm_compute. reflexivity. Qed.

(** ** The heartbeat loop's bookkeeping over any run *)

(** The number of timer firings since the last successful heartbeat. *)
Definition streak (outcomes : list (bool * float64)) : nat :=
  foldl (fun (n : nat) (o : bool * float64) => if o.1 then O else S n) O outcomes.

Lemma wrap64_succ (a : Z) : wrap64 (wrap64 a + 1) = wrap64 (a + 1).
Proof.
  unfold wrap64.
  replace ((a + 2 ^ 63) mod 2 ^ 64 - 2 ^ 63 + 1 + 2 ^ 63)
    with ((a + 2 ^ 63) mod 2 ^ 64 + 1) by lia.
  rewrite Z.add_mod_idemp_l by (vm_compute; discriminate).
  replace (a + 2 ^ 63 + 1) with (a + 1 + 2 ^ 63) by lia. reflexivity.
Qed.

Lemma runTimers_snoc (arch : GOARCH) (base : Duration) (outcomes : list (bool * float64))
    (o : bool * float64) :
  runTimers arch base (outcomes ++ [o]) = onTimer arch base (runTimers arch base outcomes) o.1 o.2.
Proof. unfold runTimers. rewrite foldl_app. reflexivity. Qed.

Lemma streak_snoc (outcomes : list (bool * float64)) (o : bool * float64) :
  streak (outcomes ++ [o]) = if o.1 then O else S (streak outcomes).
Proof. unfold streak. rewrite foldl_app. reflexivity. Qed.

(** Whatever the heartbeats did, on either architecture: the loop's
    failure counter is the number of heartbeats that failed since the last
    one that succeeded (as an int), the interval the timer is reset to is
    never below the configured one, and right after a success it is the
    configured one again. *)
Theorem runTimers_bookkeeping (arch : GOARCH) (base : Duration)
    (outcomes : list (bool * float64)) :
  consecutiveFailures (runTimers arch base outcomes) = wrap64 (Z.of_nat (streak outcomes))
  /\ base <= currentInterval (runTimers arch base outcomes)
  /\ (streak outcomes = O -> currentInterval (runTimers arch base outcomes) = base).
Proof.
  induction outcomes as [| o outcomes IH] using rev_ind.
  - cbn. split; [reflexivity |]. split; [lia | reflexivity].
  - destruct IH as (Hn & Hlo & _).
    rewrite runTimers_snoc, streak_snoc. unfold onTimer.
    destruct o as [[|] r]; cbn [fst snd].
    + cbn. split; [reflexivity |]. split; [lia | reflexivity].
    + cbn [consecutiveFailures currentInterval]. split; [| split].
      * rewrite Hn, wrap64_succ. f_equal. lia.
      * apply backoff_lower_bound.
      * discriminate.
Qed.

(** ** retryWithBackoff *)

Section Retry.

Variable arch : GOARCH.

(** What [fn] works on, and [fn]: the error it returns and the state it
    leaves behind. *)
Variable State : Type.
Variable fn : State -> option error * State.

(** [ctx.Err()] once the context is done. *)
Variable ctx_Err : error.

(** After the attempt numbered [k] (from 0) has failed: the case the
    [select] statement takes, [true] for [<-ctx.Done()] and [false] for the
    timer, and the draw of [rand.Float64()] inside [backoff]. *)
Variable ctx_Done : nat -> bool.
Variable rand_Float64 : nat -> float64.

Variable baseInterval maxInterval : Duration.

(** The loop, from attempt [k] on with [failures] counted so far.  The
    durations handed to [time.After] are collected in [waits].  [fuel]
    bounds the attempts made; [None] means the loop is still running. *)
Fixpoint retryLoop (fuel : nat) (k : nat) (failures : Z) (s : State) (waits : list Duration)
    : option (option error * State * list Duration) :=
  match fuel with
  | O => None
  | S fuel =>
      match fn s with
      | (None, s') => Some (None, s', waits)
      | (Some _, s') =>
          let failures := wrap64 (failures + 1) in
          let wait := backoff arch baseInterval maxInterval failures (rand_Float64 k) in
          if ctx_Done k then Some (Some ctx_Err, s', waits ++ [wait])
          else retryLoop fuel (S k) failures s' (waits ++ [wait])
      end
  end.

Definition retryWithBackoff (fuel : nat) (s : State)
    : option (option error * State * list Duration) :=
  retryLoop fuel O 0 s [].

(** The state after [k] attempts. *)
Fixpoint attempts (k : nat) (s : State) : State :=
  match k with
  | O => s
  | S k => attempts k (fn s).2
  end.

(** The wait after the attempt numbered [k] failed. *)
Definition wait_after (k : nat) : Duration :=
  backoff arch baseInterval maxInterval (Z.of_nat k + 1) (rand_Float64 k).

Lemma attempts_S (k : nat) (s : State) : attempts (S k) s = (fn (attempts k s)).2.
Proof.
  revert s. induction k as [| k IH]; intros s; [reflexivity |].
  change (attempts (S (S k)) s) with (attempts (S k) (fn s).2). rewrite IH. reflexivity.
Qed.

(** [n] failed attempts, each followed by the timer, bring the loop to
    attempt [k0 + n]. *)
Lemma retryLoop_failures (n : nat) :
  forall (k0 : nat) (s : State) (waits : list Duration) (fuel : nat),
    Z.of_nat (k0 + n) < 2 ^ 63 ->
    (forall i, (i < n)%nat -> (fn (attempts i s)).1 <> None /\ ctx_Done (k0 + i) = false) ->
    retryLoop (n + fuel) k0 (Z.of_nat k0) s waits =
    retryLoop fuel (k0 + n) (Z.of_nat (k0 + n)) (attempts n s)
      (waits ++ map wait_after (seq k0 n)).
Proof.
  induction n as [| n IH]; intros k0 s waits fuel Hbound Hfail.
  - cbn. rewrite Nat.add_0_r, app_nil_r. reflexivity.
  - destruct (Hfail O ltac:(lia)) as [Hf Hd]. cbn in Hf. rewrite Nat.add_0_r in Hd.
    cbn [Nat.add retryLoop].
    destruct (fn s) as [[e |] s'] eqn:Hfn; [| contradiction Hf; reflexivity].
    rewrite Hd, wrap64_id by (unfold in_int64, MinInt64, MaxInt64; lia).
    fold (wait_after k0).
    replace (Z.of_nat k0 + 1) with (Z.of_nat (S k0)) by lia.
    rewrite (IH (S k0) s' (waits ++ [wait_after k0]) fuel).
    + replace (S k0 + n)%nat with (k0 + S n)%nat by lia.
      cbn [attempts seq map]. rewrite Hfn. cbn [snd].
      rewrite <- app_assoc. reflexivity.
    + lia.
    + intros i Hi. destruct (Hfail (S i) ltac:(lia)) as [Hf' Hd'].
      cbn [attempts] in Hf'. rewrite Hfn in Hf'. cbn [snd] in Hf'.
      replace (S k0 + i)%nat with (k0 + S i)%nat by lia. auto.
Qed.

(** If the first [n] attempts fail, the timer wins the [select] after each
    of them and the attempt after them succeeds, then [retryWithBackoff]
    returns nil once [fn] has run exactly [n + 1] times, and it has waited
    [n] times, for [backoff] of 1, 2, ..., [n] failures. *)
Theorem retryWithBackoff_succeeds (n : nat) (s : State) (fuel : nat) :
  Z.of_nat n < 2 ^ 63 ->
  (forall i, (i < n)%nat -> (fn (attempts i s)).1 <> None /\ ctx_Done i = false) ->
  (fn (attempts n s)).1 = None ->
  (n < fuel)%nat ->
  retryWithBackoff fuel s = Some (None, attempts (S n) s, map wait_after (seq O n)).
Proof.
  intros Hbound Hfail Hok Hfuel. unfold retryWithBackoff.
  replace fuel with (n + S (fuel - S n))%nat by lia.
  change 0 with (Z.of_nat O).
  rewrite (retryLoop_failures n O s [] _ Hbound Hfail).
  cbn [Nat.add app retryLoop]. rewrite attempts_S.
  destruct (fn (attempts n s)) as [[e |] s'] eqn:Hfn; [discriminate Hok | reflexivity].
Qed.

(** If the attempts up to the one numbered [n] all fail and the [select]
    after that one takes [<-ctx.Done()], then [retryWithBackoff] returns
    [ctx.Err()], never the error of [fn]; [fn] has run [n + 1] times, the
    first time before the context was looked at. *)
Theorem retryWithBackoff_cancelled (n : nat) (s : State) (fuel : nat) :
  Z.of_nat (S n) < 2 ^ 63 ->
  (forall i, (i < n)%nat -> (fn (attempts i s)).1 <> None /\ ctx_Done i = false) ->
  (fn (attempts n s)).1 <> None ->
  ctx_Done n = true ->
  (n < fuel)%nat ->
  retryWithBackoff fuel s =
    Some (Some ctx_Err, attempts (S n) s, map wait_after (seq O (S n))).
Proof.
  intros Hbound Hfail Hbad Hdone Hfuel. unfold retryWithBackoff.
  replace fuel with (n + S (fuel - S n))%nat by lia.
  change 0 with (Z.of_nat O).
  rewrite (retryLoop_failures n O s [] _ ltac:(cbn [Nat.add]; lia) Hfail).
  cbn [Nat.add app retryLoop]. rewrite attempts_S.
  destruct (fn (attempts n s)) as [[e |] s'] eqn:Hfn; [| contradiction Hbad; reflexivity].
  rewrite Hdone. cbn [snd].
  rewrite wrap64_id by (unfold in_int64, MinInt64, MaxInt64; lia).
  rewrite seq_S, map_app. reflexivity.
Qed.

End Retry.

(** The repository's retry test: [fn] counts its calls and fails until the
    third. *)
Definition fn_third (calls : Z) : option error * Z :=
  (if calls + 1 <? 3 then Some (errors_New "not yet") else None, calls + 1).

Lemma retryWithBackoff_succeeds_witness :
  retryWithBackoff amd64 Z fn_third (errors_New "context canceled")
    (fun _ => false) (fun _ => const_0_5) Millisecond (10 * Millisecond) 5 0
  = Some (None, 3, [2000000; 4000000]).
Proof.
  rewrite (retryWithBackoff_succeeds amd64 Z fn_third (errors_New "context canceled")
             (fun _ => false) (fun _ => const_0_5) Millisecond (10 * Millisecond) 2 0 5).
  - vm_compute. reflexivity.
  - vm_compute. reflexivity.
  - intros i Hi. split; [| reflexivity].
    destruct i as [| [| i]]; [vm_compute; discriminate .. | lia].
  - reflexivity.
  - lia.
Defined.

(** The same [fn] under a context that is done after the first failure. *)
Lemma retryWithBackoff_cancelled_witness :
  retryWithBackoff arm64 Z fn_third (errors_New "context canceled")
    (fun _ => true) (fun _ => const_0_5) Millisecond (10 * Millisecond) 1 0
  = Some (Some (errors_New "context canceled"), 1, [2000000]).
Proof.
  rewrite (retryWithBackoff_cancelled arm64 Z fn_third (errors_New "context canceled")
             (fun _ => true) (fun _ => const_0_5) Millisecond (10 * Millisecond) O 0 1).
  - vm_compute. reflexivity.
  - vm_compute. reflexivity.
  - intros i Hi. lia.
  - vm_compute. discriminate.
  - reflexivity.
  - lia.
Defined.

End Backoff.

(* ===================================================================== *)
(** * net/http and io, as far as the SDK uses them                      *)
(* ===================================================================== *)

Module HTTP.

Import Go.

(** A response body as a reader: it delivers [data], then end of file, or
    [readErr] when the connection breaks after [data]. *)
Record Body := { data : string; readErr : option error }.

(** Headers.  net/http canonicalises the key on [Set] and on [Get] alike,
    so a key is looked up the way it was stored. *)
Record Request := {
  Method : string;
  URL : string;
  Header : gmap string string;
  ReqBody : string
}.

Record Response := {
  StatusCode : Z;
  RespHeader : gmap string string;
  RespBody : Body
}.

Definition StatusOK : Z := 200.
Definition StatusNotModified : Z := 304.
Definition StatusNotFound : Z := 404.

(** [h.Get(key)]: the empty string when the key is absent. *)
Definition Header_Get (h : gmap string string) (key : string) : string :=
  default "" (h !! key).

(** [req.Header.Set(key, value)]. *)
Definition Header_Set (req : Request) (key value : string) : Request :=
  {| Method := Method req; URL := URL req;
     Header := <[key := value]> (Header req); ReqBody := ReqBody req |}.

(** The first [n] bytes of [s]. *)
Fixpoint take_bytes (n : N) (s : string) : string :=
  match s with
  | EmptyString => EmptyString
  | String c rest =>
      if (n =? 0)%N then EmptyString else String c (take_bytes (N.pred n) rest)
  end.

Definition strlen (s : string) : N := N.of_nat (String.length s).

(** [io.ReadAll(b)]: everything read, and the error that stopped the read. *)
Definition ReadAll (b : Body) : string * option error := (data b, readErr b).

(** [io.LimitReader(b, n)]: end of file after [n] bytes. *)
Definition LimitReader (b : Body) (n : N) : Body :=
  if (n <=? strlen (data b))%N
  then {| data := take_bytes n (data b); readErr := None |}
  else b.

Section Client.

(** [url.Parse] inside [http.NewRequest]: the error for a URL it rejects. *)
Variable url_Parse : string -> option error.

(** [http.NewRequest(method, url, body)] with an empty header. *)
Definition NewRequest (method url body : string) : Request + error :=
  match url_Parse url with
  | Some err => inr err
  | None => inl {| Method := method; URL := url; Header := ∅; ReqBody := body |}
  end.

End Client.

End HTTP.

(* ===================================================================== *)
(** * cedar-go, as far as the SDK handles its values                    *)
(* ===================================================================== *)

Module Cedar.

Import Go.

Definition PolicyID := string.

(** A parsed policy.  The SDK only stores it and hands it back to the
    authorizer, so it is carried as a token for the syntax tree. *)
Inductive Policy := PolicyAST (text : string).

Record EntityUID := { Type_ : string; ID : string }.

Inductive Value :=
| VString (s : string)
| VSet (items : list string).

Record Entity := { UID : EntityUID; Attributes : gmap string Value }.

Record Request := {
  Principal : EntityUID;
  Action : EntityUID;
  Resource : EntityUID;
  Context : gmap string Value
}.

Inductive Decision := Allow | Deny.

(** [cedar.Diagnostic]: the policies that decided, and evaluation errors. *)
Record Diagnostic := { Reasons : list PolicyID; Errors : list string }.

Definition Decision_is_Allow (d : Decision) : bool :=
  match d with Allow => true | Deny => false end.

End Cedar.

(* ===================================================================== *)
(** * internal/policy: engine.go and the bundle fetcher                 *)
(* ===================================================================== *)

Module Policy.

Import Go.

(** ** engine.go *)

Record Decision := { Allow : bool; Reason : string; PolicyVersion : string }.

Record AgentContext := {
  ID : string;
  TenantID : string;
  Namespace : string;
  Capabilities : list string;
  AllowedTools : list string;
  DeniedTools : list string
}.

Record CheckInput := {
  Action : string;
  Resource : string;
  ResourceType : string;
  RequiredCapability : string;
  Context : gmap string string
}.

Record Engine := {
  policySet : gmap string Cedar.Policy;
  policyVersion : string
}.

Definition EntityTypeAgent : string := "Dome::Agent".
Definition EntityTypeAction : string := "Dome::Action".
Definition EntityTypeMCPTool : string := "Dome::MCPTool".
Definition EntityTypeLLMModel : string := "Dome::LLMModel".
Definition EntityTypeCredential : string := "Dome::Credential".
Definition EntityTypeResource : string := "Dome::Resource".

(** What the engine does with its lock and its two fields, in order. *)
Inductive EngineEvent :=
| mu_Lock
| store_policySet
| store_policyVersion
| mu_Unlock.

Definition NewEngine : Engine := {| policySet := ∅; policyVersion := "" |}.

(** The key a policy of file [filename] gets:
    [fmt.Sprintf("%s:%s", filename, name)]. *)
Definition uniqueName (filename : string) (name : Cedar.PolicyID) : Cedar.PolicyID :=
  filename +:+ ":" +:+ name.

(** The inner loop of [LoadBundle]: [newPolicySet.Add(uniqueName, p)] for
    the policies of one parsed file, in the order [parsed.All()] yields. *)
Definition addAll (filename : string) (parsed : list (Cedar.PolicyID * Cedar.Policy))
    (newPolicySet : gmap string Cedar.Policy) : gmap string Cedar.Policy :=
  foldl (fun acc np => <[uniqueName filename np.1 := np.2]> acc) newPolicySet parsed.

Definition mapResource (input : CheckInput) : Cedar.EntityUID :=
  let resType := ResourceType input in
  let resType :=
    if is_empty resType then
      if String.prefix "mcp:" (Action input) then "mcp"
      else if String.prefix "llm:" (Action input) then "llm"
      else if String.prefix "credential:" (Action input) then "credential"
      else resType
    else resType in
  let entityType :=
    if String.eqb resType "mcp" then EntityTypeMCPTool
    else if String.eqb resType "llm" then EntityTypeLLMModel
    else if String.eqb resType "credential" then EntityTypeCredential
    else EntityTypeResource in
  {| Cedar.Type_ := entityType; Cedar.ID := Resource input |}.

Definition toStringSet (values : list string) : Cedar.Value := Cedar.VSet values.

Definition buildAgentAttributes (agent : AgentContext) : gmap string Cedar.Value :=
  let attrs : gmap string Cedar.Value := {[ "id" := Cedar.VString (ID agent) ]} in
  let attrs :=
    if is_empty (TenantID agent) then attrs
    else <["tenant_id" := Cedar.VString (TenantID agent)]> attrs in
  let attrs :=
    if is_empty (Namespace agent) then attrs
    else <["namespace" := Cedar.VString (Namespace agent)]> attrs in
  let attrs := <["capabilities" := toStringSet (Capabilities agent)]> attrs in
  let attrs := <["allowed_tools" := toStringSet (AllowedTools agent)]> attrs in
  <["denied_tools" := toStringSet (DeniedTools agent)]> attrs.

Definition buildResourceAttributes (input : CheckInput) : gmap string Cedar.Value :=
  let attrs : gmap string Cedar.Value := {[ "path" := Cedar.VString (Resource input) ]} in
  if is_empty (ResourceType input) then attrs
  else <["type" := Cedar.VString (ResourceType input)]> attrs.

Definition extractReason (decision : Cedar.Decision) (diagnostic : Cedar.Diagnostic) : string :=
  match decision, Cedar.Reasons diagnostic, Cedar.Errors diagnostic with
  | Cedar.Allow, id :: _, _ => "allowed by policy: " +:+ id
  | Cedar.Allow, [], _ => "allowed"
  | Cedar.Deny, id :: _, _ => "denied by policy: " +:+ id
  | Cedar.Deny, [], err :: _ => "policy error: " +:+ err
  | Cedar.Deny, [], [] => "denied: no matching permit policy"
  end.

Definition uid_key (u : Cedar.EntityUID) : string * string := (Cedar.Type_ u, Cedar.ID u).

(** [PolicyCount]: the number of entries [policySet.All()] yields. *)
Definition PolicyCount (e : Engine) : Z := Z.of_nat (size (policySet e)).

Definition HasPolicies (e : Engine) : bool := 0 <? PolicyCount e.

Section Engine.

(** [cedar.NewPolicySetFromBytes(filename, content)] followed by
    [parsed.All()]: the identified policies of the file, in the order the
    iteration over the parsed set yields them, or the parse error. *)
Variable NewPolicySetFromBytes :
  string -> string -> list (Cedar.PolicyID * Cedar.Policy) + error.

(** [cedar.Authorize]. *)
Variable Authorize :
  gmap string Cedar.Policy -> gmap (string * string) Cedar.Entity -> Cedar.Request ->
  Cedar.Decision * Cedar.Diagnostic.

(** The outer loop of [LoadBundle].  [policies] lists the entries of the Go
    map in the order the [range] statement visits them. *)
Fixpoint parseFiles (policies : list (string * string))
    (newPolicySet : gmap string Cedar.Policy) : gmap string Cedar.Policy + error :=
  match policies with
  | [] => inl newPolicySet
  | (filename, content) :: rest =>
      match NewPolicySetFromBytes filename content with
      | inr err => inr (fmt_Errorf "parse %s: %w" [filename] (Some err))
      | inl parsed => parseFiles rest (addAll filename parsed newPolicySet)
      end
  end.

Definition LoadBundle (e : Engine) (policies : list (string * string)) (version : string)
    : Engine * option error * list EngineEvent :=
  match parseFiles policies ∅ with
  | inr err => (e, Some err, [])
  | inl newPolicySet =>
      ({| policySet := newPolicySet; policyVersion := version |}, None,
       [mu_Lock; store_policySet; store_policyVersion; mu_Unlock])
  end.

Definition Evaluate (e : Engine) (agent : AgentContext) (input : CheckInput) : Decision :=
  let principal := {| Cedar.Type_ := EntityTypeAgent; Cedar.ID := ID agent |} in
  let action := {| Cedar.Type_ := EntityTypeAction; Cedar.ID := Action input |} in
  let resource := mapResource input in
  let contextMap : gmap string Cedar.Value :=
    if is_empty (RequiredCapability input) then ∅
    else {[ "required_capability" := Cedar.VString (RequiredCapability input) ]} in
  let contextMap := (Cedar.VString <$> Context input) ∪ contextMap in
  let req := {| Cedar.Principal := principal; Cedar.Action := action;
                Cedar.Resource := resource; Cedar.Context := contextMap |} in
  let agentEntity :=
    {| Cedar.UID := principal; Cedar.Attributes := buildAgentAttributes agent |} in
  let resourceEntity :=
    {| Cedar.UID := resource; Cedar.Attributes := buildResourceAttributes input |} in
  let entities : gmap (string * string) Cedar.Entity :=
    <[uid_key resource := resourceEntity]> (<[uid_key principal := agentEntity]> ∅) in
  let '(decision, diagnostic) := Authorize (policySet e) entities req in
  {| Allow := Cedar.Decision_is_Allow decision;
     Reason := extractReason decision diagnostic;
     PolicyVersion := policyVersion e |}.

End Engine.

(** ** Facts about the re-keying *)

(** A policy identifier with a colon in it.  cedar-go names the policies of
    a parsed file policy0, policy1, ... *)
Fixpoint has_colon (s : string) : bool :=
  match s with
  | EmptyString => false
  | String c rest => Ascii.eqb c ":"%char || has_colon rest
  end.

Lemma append_nil_l (s : string) : "" +:+ s = s.
Proof. reflexivity. Qed.

Lemma append_cons (c : ascii) (a b : string) : String c a +:+ b = String c (a +:+ b).
Proof. reflexivity. Qed.

Lemma has_colon_app (a b : string) : has_colon (a +:+ String ":"%char b) = true.
Proof.
  induction a as [| c a IH].
  - reflexivity.
  - rewrite append_cons. simpl. rewrite IH. apply orb_true_r.
Qed.

Lemma append_inj_r (a b c : string) : a +:+ b = a +:+ c -> b = c.
Proof.
  induction a as [| x a IH]; intros H.
  - exact H.
  - rewrite !append_cons in H. injection H as H. auto.
Qed.

Lemma uniqueName_same_file (f id1 id2 : string) :
  uniqueName f id1 = uniqueName f id2 -> id1 = id2.
Proof.
  unfold uniqueName. intros H. apply append_inj_r in H.
  rewrite !append_cons, !append_nil_l in H. injection H as H. exact H.
Qed.

Lemma uniqueName_inj (f1 id1 f2 id2 : string) :
  has_colon id1 = false -> has_colon id2 = false ->
  uniqueName f1 id1 = uniqueName f2 id2 -> f1 = f2 /\ id1 = id2.
Proof.
  unfold uniqueName. intros H1 H2. revert f2.
  induction f1 as [| c f1 IH]; intros [| c' f2] H;
    rewrite ?append_cons, ?append_nil_l in H.
  - injection H as H. auto.
  - injection H as Hc H. subst id1. rewrite has_colon_app in H1. discriminate.
  - injection H as Hc H. subst id2. rewrite has_colon_app in H2. discriminate.
  - injection H as Hc H. destruct (IH _ H) as [-> ->]. subst. auto.
Qed.

(** What one pass of the inner loop leaves under a key. *)
Lemma addAll_lookup (f : string) (ps : list (Cedar.PolicyID * Cedar.Policy))
    (acc : gmap string Cedar.Policy) (key : string) (p : Cedar.Policy) :
  NoDup ps.*1 ->
  addAll f ps acc !! key = Some p <->
    (exists id, (id, p) ∈ ps /\ key = uniqueName f id) \/
    (acc !! key = Some p /\ forall id p', (id, p') ∈ ps -> key <> uniqueName f id).
Proof.
  revert acc. induction ps as [| [id0 p0] ps IH]; intros acc Hnd.
  - simpl. split.
    + intros H. right. split; [exact H |]. intros id p' Hin. inversion Hin.
    + intros [(id & Hin & _) | [H _]]; [inversion Hin | exact H].
  - simpl in Hnd. apply NoDup_cons in Hnd as [Hnotin Hnd].
    change (addAll f ((id0, p0) :: ps) acc)
      with (addAll f ps (<[uniqueName f id0 := p0]> acc)).
    rewrite (IH _ Hnd). split.
    + intros [(id & Hin & Hk) | [Hacc Hfresh]].
      * left. exists id. split; [right; exact Hin | exact Hk].
      * destruct (decide (key = uniqueName f id0)) as [-> | Hne].
        -- rewrite lookup_insert_eq in Hacc. injection Hacc as <-.
           left. exists id0. split; [left | reflexivity].
        -- rewrite lookup_insert_ne in Hacc by congruence.
           right. split; [exact Hacc |].
           intros id p' Hin. apply elem_of_cons in Hin as [Heq | Hin].
           ++ injection Heq as -> ->. exact Hne.
           ++ eauto.
    + intros [(id & Hin & Hk) | [Hacc Hfresh]].
      * apply elem_of_cons in Hin as [Heq | Hin].
        -- injection Heq as -> ->. right. subst key. split.
           ++ apply lookup_insert_eq.
           ++ intros id p' Hin Heq. apply uniqueName_same_file in Heq. subst id.
              apply Hnotin. apply (list_elem_of_fmap_2 fst) in Hin. exact Hin.
        -- left. eauto.
      * right. split.
        -- rewrite lookup_insert_ne; [exact Hacc |].
           intros Heq. apply (Hfresh id0 p0); [left | congruence].
        -- intros id p' Hin. apply (Hfresh id p'). right. exact Hin.
Qed.

Section LoadBundle.

Variable parse : string -> string -> list (Cedar.PolicyID * Cedar.Policy) + error.

(** A parsed set is a map, so its identifiers are distinct; cedar-go's
    identifiers hold no colon. *)
Definition parsed_wf (ps : list (Cedar.PolicyID * Cedar.Policy)) : Prop :=
  NoDup ps.*1 /\ forall id, id ∈ ps.*1 -> has_colon id = false.

(** [key] names policy [p] of one of the files, re-keyed. *)
Definition produced (policies : list (string * string)) (key : string) (p : Cedar.Policy) : Prop :=
  exists f c ps id,
    (f, c) ∈ policies /\ parse f c = inl ps /\ (id, p) ∈ ps /\ key = uniqueName f id.

Lemma parseFiles_error (policies : list (string * string)) (acc : gmap string Cedar.Policy) :
  (exists f c err, (f, c) ∈ policies /\ parse f c = inr err) ->
  exists err, parseFiles parse policies acc = inr err.
Proof.
  revert acc. induction policies as [| [f0 c0] rest IH]; intros acc (f & c & err & Hin & Hp).
  - inversion Hin.
  - simpl. destruct (parse f0 c0) as [ps0 | err0] eqn:Hp0; [| eauto].
    apply elem_of_cons in Hin as [Heq | Hin].
    + injection Heq as -> ->. congruence.
    + apply IH. eauto.
Qed.

Lemma parseFiles_success (policies : list (string * string)) (acc : gmap string Cedar.Policy) :
  (forall f c, (f, c) ∈ policies -> exists ps, parse f c = inl ps) ->
  exists m, parseFiles parse policies acc = inl m.
Proof.
  revert acc. induction policies as [| [f0 c0] rest IH]; intros acc Hall.
  - simpl. eauto.
  - simpl. destruct (Hall f0 c0) as [ps0 ->]; [left |].
    apply IH. intros f c Hin. apply Hall. right. exact Hin.
Qed.

Lemma parseFiles_lookup (policies : list (string * string))
    (acc m : gmap string Cedar.Policy) (key : string) (p : Cedar.Policy) :
  NoDup policies.*1 ->
  (forall f c ps, (f, c) ∈ policies -> parse f c = inl ps -> parsed_wf ps) ->
  parseFiles parse policies acc = inl m ->
  m !! key = Some p <->
    produced policies key p \/
    (acc !! key = Some p /\ forall p', ~ produced policies key p').
Proof.
  revert acc. induction policies as [| [f0 c0] rest IH]; intros acc Hnd Hwf Hrun.
  - simpl in Hrun. injection Hrun as <-. split.
    + intros H. right. split; [exact H |].
      intros p' (f & c & ps & id & Hin & _). inversion Hin.
    + intros [(f & c & ps & id & Hin & _) | [H _]]; [inversion Hin | exact H].
  - simpl in Hrun, Hnd. apply NoDup_cons in Hnd as [Hf0 Hnd].
    destruct (parse f0 c0) as [ps0 | err0] eqn:Hp0; [| discriminate].
    destruct (Hwf f0 c0 ps0 ltac:(left) Hp0) as [Hnd0 Hcol0].
    assert (Hwf' : forall f c ps, (f, c) ∈ rest -> parse f c = inl ps -> parsed_wf ps).
    { intros f c ps Hin. apply Hwf. right. exact Hin. }
    rewrite (IH _ Hnd Hwf' Hrun), (addAll_lookup _ _ _ _ _ Hnd0). split.
    + intros [(f & c & ps & id & Hin & Hp & Hid & Hk) | [[(id & Hid & Hk) | [Hacc Hfresh]] Hrest]].
      * left. exists f, c, ps, id. split; [right; exact Hin | auto].
      * left. exists f0, c0, ps0, id. split; [left | auto].
      * right. split; [exact Hacc |].
        intros p' (f & c & ps & id & Hin & Hp & Hid & Hk).
        apply elem_of_cons in Hin as [Heq | Hin].
        -- injection Heq as -> ->. rewrite Hp0 in Hp. injection Hp as <-.
           exact (Hfresh id p' Hid Hk).
        -- apply (Hrest p'). exists f, c, ps, id. auto.
    + intros [(f & c & ps & id & Hin & Hp & Hid & Hk) | [Hacc Hfresh]].
      * apply elem_of_cons in Hin as [Heq | Hin].
        -- injection Heq as -> ->. rewrite Hp0 in Hp. injection Hp as <-.
           right. split; [left; eauto |].
           intros p' (f & c & ps' & id' & Hin' & Hp' & Hid' & Hk').
           destruct (Hwf' f c ps' Hin' Hp') as [_ Hcol'].
           subst key. apply uniqueName_inj in Hk' as [<- _].
           ++ apply Hf0. apply (list_elem_of_fmap_2 fst) in Hin'. exact Hin'.
           ++ apply Hcol0. apply (list_elem_of_fmap_2 fst) in Hid. exact Hid.
           ++ apply Hcol'. apply (list_elem_of_fmap_2 fst) in Hid'. exact Hid'.
        -- left. exists f, c, ps, id. auto.
      * right. split.
        -- right. split; [exact Hacc |].
           intros id p' Hid Hk. apply (Hfresh p').
           exists f0, c0, ps0, id. split; [left | auto].
        -- intros p' (f & c & ps & id & Hin & Hrest).
           apply (Hfresh p'). exists f, c, ps, id. split; [right; exact Hin | exact Hrest].
Qed.

(** C4.  [LoadBundle] is all or nothing.  [policies] lists the entries of
    the Go map (distinct file names) in the order the runtime visits them.
    If one file fails to parse, an error is returned, the engine is the one
    before the call and its lock was never taken.  If every file parses,
    the engine holds the requested version and a set with exactly the
    parsed policies, each under "filename:id", and both fields were stored
    between [Lock] and [Unlock]. *)
Theorem LoadBundle_all_or_nothing (e : Engine) (policies : list (string * string))
    (version : string) :
  NoDup policies.*1 ->
  (forall f c ps, (f, c) ∈ policies -> parse f c = inl ps -> parsed_wf ps) ->
  ((exists f c err, (f, c) ∈ policies /\ parse f c = inr err) ->
     exists err, LoadBundle parse e policies version = (e, Some err, []))
  /\
  ((forall f c, (f, c) ∈ policies -> exists ps, parse f c = inl ps) ->
     exists e',
       LoadBundle parse e policies version =
         (e', None, [mu_Lock; store_policySet; store_policyVersion; mu_Unlock])
       /\ policyVersion e' = version
       /\ forall key p, policySet e' !! key = Some p <-> produced policies key p).
Proof.
  intros Hnd Hwf. split.
  - intros Hbad. destruct (parseFiles_error policies ∅ Hbad) as [err Herr].
    exists err. unfold LoadBundle. rewrite Herr. reflexivity.
  - intros Hall. destruct (parseFiles_success policies ∅ Hall) as [m Hm].
    exists {| policySet := m; policyVersion := version |}.
    unfold LoadBundle. rewrite Hm. split; [reflexivity |]. split; [reflexivity |].
    intros key p. simpl. rewrite (parseFiles_lookup _ _ _ key p Hnd Hwf Hm).
    split; [| auto].
    intros [H | [H _]]; [exact H |]. rewrite lookup_empty in H. discriminate.
Qed.

End LoadBundle.

(** A stand-in parser for the examples: one policy per file, named as
    cedar-go names it, and a parse error for the text of the repository's
    own negative test. *)
Definition parse_example (filename content : string)
    : list (Cedar.PolicyID * Cedar.Policy) + error :=
  if String.eqb content "this is not valid cedar"
  then inr (errors_New "parse error")
  else inl [("policy0", Cedar.PolicyAST content)].

Definition bundle_example : list (string * string) :=
  [("base.cedar", "permit(principal, action, resource);");
   ("ceo-salary.cedar", "forbid(principal, action, resource);")].

Definition engine_v0 : Engine :=
  {| policySet := {[ "old.cedar:policy0" := Cedar.PolicyAST "permit" ]};
     policyVersion := "v0" |}.

Example LoadBundle_rejects_bad_file :
  LoadBundle parse_example engine_v0
    (bundle_example ++ [("bad.cedar", "this is not valid cedar")]) "v1"
  = (engine_v0,
     Some (fmt_Errorf "parse %s: %w" ["bad.cedar"] (Some (errors_New "parse error"))),
     []).
Proof. reflexivity. Qed.

Lemma LoadBundle_all_or_nothing_witness :
  exists e',
    LoadBundle parse_example engine_v0 bundle_example "v1" =
      (e', None, [mu_Lock; store_policySet; store_policyVersion; mu_Unlock])
    /\ policyVersion e' = "v1"
    /\ forall key p,
         policySet e' !! key = Some p <-> produced parse_example bundle_example key p.
Proof.
  assert (Hnd : NoDup bundle_example.*1).
  { apply (bool_decide_unpack _). vm_compute. exact I. }
  assert (Hwf : forall f c ps,
             (f, c) ∈ bundle_example -> parse_example f c = inl ps -> parsed_wf ps).
  { intros f c ps Hin Hp. unfold bundle_example in Hin.
    repeat (apply elem_of_cons in Hin as [Hin | Hin]);
      [injection Hin as -> -> .. | inversion Hin];
      vm_compute in Hp; injection Hp as <-;
      (split; [apply (bool_decide_unpack _); vm_compute; exact I |]);
      intros id Hid; apply list_elem_of_singleton in Hid as ->; reflexivity. }
  destruct (LoadBundle_all_or_nothing parse_example engine_v0 bundle_example "v1" Hnd Hwf)
    as [_ Hok].
  apply Hok. intros f c Hin. unfold bundle_example in Hin.
  repeat (apply elem_of_cons in Hin as [Hin | Hin]);
    [injection Hin as -> -> .. | inversion Hin]; vm_compute; eauto.
Defined.

(** ** The bundle fetcher *)

Record PolicyFile := { Filename : string; Content : string }.

Record BundleResponse := {
  Version : string;
  Hash : string;
  Policies : list PolicyFile
}.

(** The fetcher's own state; its HTTP client is a variable of the section
    below. *)
Record Fetcher := { baseURL : string; tenantID : string; etag : string }.

Record FetchResult := { Bundle : option BundleResponse; Changed : bool }.

Definition NewFetcher (baseURL tenantID : string) : Fetcher :=
  {| baseURL := baseURL; tenantID := tenantID; etag := "" |}.

Definition set_etag (f : Fetcher) (etag : string) : Fetcher :=
  {| baseURL := baseURL f; tenantID := tenantID f; etag := etag |}.

(** [50<<20], the cap on the bytes read of a bundle body. *)
Definition bundleLimit : N := 52428800.

Section Fetcher.

Variable url_Parse : string -> option error.

(** [f.httpClient.Do]. *)
Variable Do : HTTP.Request -> HTTP.Response + error.

(** [json.Unmarshal(body, &bundle)]. *)
Variable json_Unmarshal : string -> BundleResponse + error.

(** The request [Fetch] builds before it calls the client. *)
Definition fetchRequest (f : Fetcher) : HTTP.Request + error :=
  let url := baseURL f +:+ "/api/v1/policies/bundle" in
  match HTTP.NewRequest url_Parse "GET" url "" with
  | inr err => inr (fmt_Errorf "create request: %w" [] (Some err))
  | inl req =>
      let req := HTTP.Header_Set req "X-Tenant-ID" (tenantID f) in
      inl (if is_empty (etag f) then req
           else HTTP.Header_Set req "If-None-Match" (etag f))
  end.

Definition Fetch (f : Fetcher) : option FetchResult * option error * Fetcher :=
  match fetchRequest f with
  | inr err => (None, Some err, f)
  | inl req =>
      match Do req with
      | inr err => (None, Some (fmt_Errorf "fetch bundle: %w" [] (Some err)), f)
      | inl resp =>
          let status := HTTP.StatusCode resp in
          if status =? HTTP.StatusNotModified then
            (Some {| Bundle := None; Changed := false |}, None, f)
          else if status =? HTTP.StatusNotFound then
            (Some {| Bundle := None; Changed := false |}, None, f)
          else if status =? HTTP.StatusOK then
            match HTTP.ReadAll (HTTP.LimitReader (HTTP.RespBody resp) bundleLimit) with
            | (_, Some err) =>
                (None, Some (fmt_Errorf "read bundle body: %w" [] (Some err)), f)
            | (body, None) =>
                match json_Unmarshal body with
                | inr err => (None, Some (fmt_Errorf "decode bundle: %w" [] (Some err)), f)
                | inl bundle =>
                    let etag := HTTP.Header_Get (HTTP.RespHeader resp) "ETag" in
                    (Some {| Bundle := Some bundle; Changed := true |}, None,
                     if is_empty etag then f else set_etag f etag)
                end
            end
          else
            (None,
             Some (fmt_Errorf "unexpected status %d from policy bundle API" [pretty status] None),
             f)
      end
  end.

Lemma take_bytes_length (n : N) (s : string) :
  (HTTP.strlen (HTTP.take_bytes n s) <= n)%N.
Proof.
  unfold HTTP.strlen. revert n. induction s as [| c s IH]; intros n; simpl.
  - lia.
  - destruct (N.eqb_spec n 0) as [-> | Hn]; simpl; [lia |].
    specialize (IH (N.pred n)). lia.
Qed.

(** A limited reader never hands out more than its limit. *)
Lemma LimitReader_bound (b : HTTP.Body) (n : N) (body : string) (err : option error) :
  HTTP.ReadAll (HTTP.LimitReader b n) = (body, err) -> (HTTP.strlen body <= n)%N.
Proof.
  unfold HTTP.ReadAll, HTTP.LimitReader.
  destruct (N.leb_spec n (HTTP.strlen (HTTP.data b))) as [Hle | Hlt]; simpl;
    intros H; injection H as <- _.
  - apply take_bytes_length.
  - lia.
Qed.

(** Storing an ETag changes the request the fetcher builds in one place:
    its [If-None-Match]. *)
Lemma fetchRequest_set_etag (f : Fetcher) (tag : string) (req : HTTP.Request) :
  is_empty tag = false ->
  fetchRequest f = inl req ->
  fetchRequest (set_etag f tag) = inl (HTTP.Header_Set req "If-None-Match" tag).
Proof.
  intros Hne. unfold fetchRequest. cbn [baseURL tenantID etag set_etag]. rewrite Hne.
  destruct (HTTP.NewRequest _ _ _ _) as [req0 |]; [| discriminate].
  intros H. injection H as <-. f_equal.
  destruct (is_empty (etag f)); [reflexivity |].
  unfold HTTP.Header_Set. cbn [HTTP.Method HTTP.URL HTTP.Header HTTP.ReqBody].
  rewrite insert_insert_eq. reflexivity.
Qed.

(** C7.  The outcome of [Fetch] by the status of the response.  304 and
    404 give [Changed = false], no bundle and no error, and leave the
    fetcher as it was.  200 whose body, read through the 50 MiB limit,
    decodes to a bundle gives that bundle with [Changed = true]; the body
    handed to the decoder is within the limit, and a non-empty ETag of the
    response is stored: the request the fetcher builds next is the same
    request with that ETag as its [If-None-Match].  Every other status
    gives an error. *)
Theorem Fetch_by_status (f : Fetcher) (req : HTTP.Request) (resp : HTTP.Response) :
  fetchRequest f = inl req ->
  Do req = inl resp ->
  (HTTP.StatusCode resp = 304 \/ HTTP.StatusCode resp = 404 ->
     Fetch f = (Some {| Bundle := None; Changed := false |}, None, f))
  /\
  (HTTP.StatusCode resp = 200 ->
     forall body bundle,
       HTTP.ReadAll (HTTP.LimitReader (HTTP.RespBody resp) bundleLimit) = (body, None) ->
       json_Unmarshal body = inl bundle ->
       (HTTP.strlen body <= 50 * 2 ^ 20)%N /\
       exists f',
         Fetch f = (Some {| Bundle := Some bundle; Changed := true |}, None, f') /\
         forall tag,
           HTTP.Header_Get (HTTP.RespHeader resp) "ETag" = tag -> tag <> "" ->
           etag f' = tag /\
           fetchRequest f' = inl (HTTP.Header_Set req "If-None-Match" tag) /\
           HTTP.Header_Get (HTTP.Header (HTTP.Header_Set req "If-None-Match" tag))
             "If-None-Match" = tag)
  /\
  (HTTP.StatusCode resp <> 200 -> HTTP.StatusCode resp <> 304 ->
   HTTP.StatusCode resp <> 404 ->
     exists err, Fetch f = (None, Some err, f)).
Proof.
  intros Hreq Hdo. unfold Fetch. rewrite Hreq, Hdo.
  unfold HTTP.StatusNotModified, HTTP.StatusNotFound, HTTP.StatusOK.
  split; [| split].
  - intros [-> | ->]; reflexivity.
  - intros -> body bundle Hread Hjson.
    split; [exact (LimitReader_bound _ _ _ _ Hread) |].
    rewrite Hread, Hjson. simpl. eexists. split; [reflexivity |].
    intros tag Htag Hne. rewrite Htag.
    apply is_empty_false in Hne. rewrite Hne. split; [reflexivity |].
    split; [exact (fetchRequest_set_etag f tag req Hne Hreq) |].
    unfold HTTP.Header_Get, HTTP.Header_Set. simpl.
    rewrite lookup_insert_eq. reflexivity.
  - intros H200 H304 H404.
    destruct (Z.eqb_spec (HTTP.StatusCode resp) 304); [contradiction |].
    destruct (Z.eqb_spec (HTTP.StatusCode resp) 404); [contradiction |].
    destruct (Z.eqb_spec (HTTP.StatusCode resp) 200); [contradiction |].
    eauto.
Qed.

(** A 200 response that carries no ETag leaves the remembered one alone. *)
Lemma Fetch_keeps_etag (f : Fetcher) (req : HTTP.Request) (resp : HTTP.Response)
    (r : FetchResult) (f' : Fetcher) :
  fetchRequest f = inl req -> Do req = inl resp ->
  HTTP.Header_Get (HTTP.RespHeader resp) "ETag" = "" ->
  Fetch f = (Some r, None, f') -> f' = f.
Proof.
  intros Hreq Hdo Htag. unfold Fetch. rewrite Hreq, Hdo, Htag. simpl.
  repeat match goal with
         | |- context [if ?b then _ else _] => destruct b
         | |- context [match ?x with _ => _ end] => destruct x
         end; intros H; injection H; auto.
Qed.

(** A 200 response whose body does not decode is an error, not a bundle. *)
Lemma Fetch_undecodable (f : Fetcher) (req : HTTP.Request) (resp : HTTP.Response)
    (body : string) (err : error) :
  fetchRequest f = inl req -> Do req = inl resp ->
  HTTP.StatusCode resp = 200 ->
  HTTP.ReadAll (HTTP.LimitReader (HTTP.RespBody resp) bundleLimit) = (body, None) ->
  json_Unmarshal body = inr err ->
  Fetch f = (None, Some (fmt_Errorf "decode bundle: %w" [] (Some err)), f).
Proof.
  intros Hreq Hdo Hst Hread Hjson. unfold Fetch.
  rewrite Hreq, Hdo, Hst, Hread, Hjson. reflexivity.
Qed.

End Fetcher.

(** The exchange of the repository's ETag test: a tenant fetcher, a server
    that answers 200 with an ETag, and a decoder for that one body. *)
Definition fetcher_example : Fetcher := NewFetcher "http://localhost:8080" "tenant-1".

Definition bundle_v1 : BundleResponse :=
  {| Version := "v1"; Hash := "abc123";
     Policies := [ {| Filename := "base.cedar"; Content := "permit(principal, action, resource);" |} ] |}.

Definition response_200 : HTTP.Response :=
  {| HTTP.StatusCode := 200;
     HTTP.RespHeader := {[ "ETag" := "abc123" ]};
     HTTP.RespBody := {| HTTP.data := "{bundle v1}"; HTTP.readErr := None |} |}.

Definition Do_example (req : HTTP.Request) : HTTP.Response + error := inl response_200.

Definition json_example (body : string) : BundleResponse + error :=
  if String.eqb body "{bundle v1}" then inl bundle_v1
  else inr (errors_New "invalid character").

Lemma Fetch_by_status_witness :
  exists f',
    Fetch (fun _ => None) Do_example json_example fetcher_example
      = (Some {| Bundle := Some bundle_v1; Changed := true |}, None, f')
    /\ etag f' = "abc123"
    /\ fetchRequest (fun _ => None) f'
       = inl {| HTTP.Method := "GET";
                HTTP.URL := "http://localhost:8080/api/v1/policies/bundle";
                HTTP.Header := {[ "X-Tenant-ID" := "tenant-1"; "If-None-Match" := "abc123" ]};
                HTTP.ReqBody := "" |}.
Proof.
  destruct (Fetch_by_status (fun _ => None) Do_example json_example fetcher_example
              (HTTP.Header_Set
                 {| HTTP.Method := "GET";
                    HTTP.URL := "http://localhost:8080/api/v1/policies/bundle";
                    HTTP.Header := ∅; HTTP.ReqBody := "" |}
                 "X-Tenant-ID" "tenant-1")
              response_200 eq_refl eq_refl) as (_ & H200 & _).
  destruct (H200 eq_refl "{bundle v1}" bundle_v1 eq_refl eq_refl) as (_ & f' & Hf & Htag).
  exists f'. split; [exact Hf |].
  destruct (Htag "abc123" eq_refl ltac:(discriminate)) as (He & Hnext & _).
  split; [exact He |]. rewrite Hnext. reflexivity.
Defined.

(** ** Counting the loaded policies *)

Section PolicyCount.

Variable parse : string -> string -> list (Cedar.PolicyID * Cedar.Policy) + error.

(** The number of policies in the files of a bundle. *)
Fixpoint parsed_count (policies : list (string * string)) : nat :=
  match policies with
  | [] => O
  | (filename, content) :: rest =>
      match parse filename content with
      | inl parsed => (length parsed + parsed_count rest)%nat
      | inr _ => parsed_count rest
      end
  end.

(** One pass of the inner loop over fresh keys adds one entry for each
    policy of the file. *)
Lemma addAll_size (f : string) (ps : list (Cedar.PolicyID * Cedar.Policy))
    (acc : gmap string Cedar.Policy) :
  NoDup ps.*1 ->
  (forall id, id ∈ ps.*1 -> acc !! uniqueName f id = None) ->
  size (addAll f ps acc) = (size acc + length ps)%nat.
Proof.
  revert acc. induction ps as [| [id0 p0] ps IH]; intros acc Hnd Hfresh.
  - cbn. lia.
  - cbn in Hnd. apply NoDup_cons in Hnd as [Hnotin Hnd].
    change (addAll f ((id0, p0) :: ps) acc)
      with (addAll f ps (<[uniqueName f id0 := p0]> acc)).
    rewrite IH.
    + rewrite map_size_insert_None by (apply Hfresh; left). cbn. lia.
    + exact Hnd.
    + intros id Hin. rewrite lookup_insert_ne.
      * apply Hfresh. right. exact Hin.
      * intros Heq. apply uniqueName_same_file in Heq. subst id. exact (Hnotin Hin).
Qed.

(** The keys of the set under construction come from files already
    visited. *)
Definition keyed_by (seen : list string) (acc : gmap string Cedar.Policy) : Prop :=
  forall key, is_Some (acc !! key) ->
    exists f id, key = uniqueName f id /\ has_colon id = false /\ f ∈ seen.

Lemma parseFiles_size (policies : list (string * string)) :
  forall (seen : list string) (acc m : gmap string Cedar.Policy),
    NoDup (seen ++ policies.*1) ->
    (forall f c ps, (f, c) ∈ policies -> parse f c = inl ps -> parsed_wf ps) ->
    keyed_by seen acc ->
    parseFiles parse policies acc = inl m ->
    size m = (size acc + parsed_count policies)%nat.
Proof.
  induction policies as [| [f0 c0] rest IH]; intros seen acc m Hnd Hwf Hkeys Hrun.
  - cbn in Hrun. injection Hrun as <-. cbn. lia.
  - cbn in Hrun. cbn [parsed_count].
    destruct (parse f0 c0) as [ps0 | err0] eqn:Hp0; [| discriminate].
    destruct (Hwf f0 c0 ps0 ltac:(left) Hp0) as [Hnd0 Hcol0].
    assert (Hf0 : f0 ∉ seen).
    { intros Hin. cbn in Hnd. apply NoDup_app in Hnd as (_ & Hdisj & _).
      apply (Hdisj f0 Hin). left. }
    rewrite (IH (seen ++ [f0]) (addAll f0 ps0 acc) m).
    + rewrite addAll_size; [lia | exact Hnd0 |].
      intros id Hid. destruct (acc !! uniqueName f0 id) as [p |] eqn:Hacc; [| reflexivity].
      exfalso. destruct (Hkeys _ ltac:(eexists; exact Hacc)) as (f & id' & Heq & Hcol & Hin).
      apply uniqueName_inj in Heq as [<- _]; [exact (Hf0 Hin) | auto | exact Hcol].
    + rewrite <- app_assoc. exact Hnd.
    + intros f c ps Hin. apply Hwf. right. exact Hin.
    + intros key [p Hkey]. apply (addAll_lookup _ _ _ _ _ Hnd0) in Hkey
        as [(id & Hin & ->) | [Hacc _]].
      * exists f0, id. split; [reflexivity |]. split.
        -- apply Hcol0. apply (list_elem_of_fmap_2 fst) in Hin. exact Hin.
        -- apply elem_of_app. right. left.
      * destruct (Hkeys key ltac:(eexists; exact Hacc)) as (f & id & Heq & Hcol & Hin).
        exists f, id. split; [exact Heq |]. split; [exact Hcol |].
        apply elem_of_app. left. exact Hin.
    + exact Hrun.
Qed.

(** After a bundle has loaded, [PolicyCount] is the number of policies in
    its files taken together: no policy of one file takes the place of a
    policy of another, since each is stored under its file's name. *)
Theorem LoadBundle_PolicyCount (e e' : Engine) (policies : list (string * string))
    (version : string) (tr : list EngineEvent) :
  NoDup policies.*1 ->
  (forall f c ps, (f, c) ∈ policies -> parse f c = inl ps -> parsed_wf ps) ->
  LoadBundle parse e policies version = (e', None, tr) ->
  PolicyCount e' = Z.of_nat (parsed_count policies)
  /\ HasPolicies e' = (0 <? Z.of_nat (parsed_count policies)).
Proof.
  intros Hnd Hwf. unfold LoadBundle.
  destruct (parseFiles parse policies ∅) as [m | err] eqn:Hrun; [| discriminate].
  intros H. injection H as <- _.
  assert (Hsize : size m = parsed_count policies).
  { rewrite (parseFiles_size policies [] ∅ m); auto.
    intros key [p Hkey]. rewrite lookup_empty in Hkey. discriminate. }
  unfold HasPolicies, PolicyCount. cbn [policySet]. rewrite Hsize. auto.
Qed.

End PolicyCount.

(** The bundle of the example holds two files of one policy each. *)
Lemma LoadBundle_PolicyCount_witness :
  PolicyCount (LoadBundle parse_example engine_v0 bundle_example "v1").1.1 = 2.
Proof.
  destruct (LoadBundle parse_example engine_v0 bundle_example "v1") as [[e' err] tr] eqn:Hload.
  assert (Herr : err = None) by (vm_compute in Hload; congruence). subst err.
  apply (LoadBundle_PolicyCount parse_example engine_v0 e' bundle_example "v1" tr).
  - apply (bool_decide_unpack _). vm_compute. exact I.
  - intros f c ps Hin Hp. unfold bundle_example in Hin.
    repeat (apply elem_of_cons in Hin as [Hin | Hin]);
      [injection Hin as -> -> .. | inversion Hin];
      vm_compute in Hp; injection Hp as <-;
      (split; [apply (bool_decide_unpack _); vm_compute; exact I |]);
      intros id Hid; apply list_elem_of_singleton in Hid as ->; reflexivity.
  - exact Hload.
Defined.

(** ** What [Evaluate] submits *)

(** The entity type of a resource is one of the four resource types. *)
Lemma mapResource_type (input : CheckInput) :
  Cedar.Type_ (mapResource input) = EntityTypeMCPTool
  \/ Cedar.Type_ (mapResource input) = EntityTypeLLMModel
  \/ Cedar.Type_ (mapResource input) = EntityTypeCredential
  \/ Cedar.Type_ (mapResource input) = EntityTypeResource.
Proof.
  unfold mapResource. cbn [Cedar.Type_].
  repeat match goal with |- context [if ?b then _ else _] => destruct b end; auto.
Qed.

(** [input] with another action. *)
Definition with_Action (input : CheckInput) (action : string) : CheckInput :=
  {| Action := action; Resource := Resource input; ResourceType := ResourceType input;
     RequiredCapability := RequiredCapability input; Context := Context input |}.

(** A resource type given by the caller switches the inference from the
    action off: the entity is the same for every action.  Its type is
    [Dome::Resource] unless the given type is exactly "mcp", "llm" or
    "credential", also for an action such as "mcp:call". *)
Theorem mapResource_explicit_type (input : CheckInput) (action : string) :
  ResourceType input <> "" ->
  mapResource (with_Action input action) = mapResource input
  /\ Cedar.ID (mapResource input) = Resource input
  /\ (ResourceType input <> "mcp" -> ResourceType input <> "llm" ->
      ResourceType input <> "credential" ->
      Cedar.Type_ (mapResource input) = EntityTypeResource).
Proof.
  intros Hne. apply is_empty_false in Hne.
  unfold mapResource, with_Action. cbn [ResourceType Resource Action Cedar.ID Cedar.Type_].
  rewrite Hne. split; [reflexivity |]. split; [reflexivity |].
  intros H1 H2 H3.
  apply String.eqb_neq in H1, H2, H3. rewrite H1, H2, H3. reflexivity.
Qed.

Lemma mapResource_explicit_type_witness :
  mapResource {| Action := "mcp:call"; Resource := "hr-mcp/get_salary";
                 ResourceType := "tool"; RequiredCapability := ""; Context := ∅ |}
  = {| Cedar.Type_ := "Dome::Resource"; Cedar.ID := "hr-mcp/get_salary" |}.
Proof.
  destruct (mapResource_explicit_type
              {| Action := "mcp:call"; Resource := "hr-mcp/get_salary";
                 ResourceType := "tool"; RequiredCapability := ""; Context := ∅ |}
              "llm:chat" ltac:(discriminate)) as (_ & Hid & Hty).
  specialize (Hty ltac:(discriminate) ltac:(discriminate) ltac:(discriminate)).
  destruct (mapResource _) as [ty id]. cbn in Hid, Hty. subst. reflexivity.
Defined.

(** Whatever the authorizer: [Evaluate] asks it about the principal
    [Dome::Agent::<agent id>], the action [Dome::Action::<action>] and the
    mapped resource, under the engine's policy set, and hands it exactly
    two entities, the agent and the resource with their attributes.  The
    two never share a UID, whatever their identifiers, since no resource
    is of type [Dome::Agent]. *)
Theorem Evaluate_request (e : Engine) (agent : AgentContext) (input : CheckInput) :
  exists (entities : gmap (string * string) Cedar.Entity) (req : Cedar.Request),
    (forall Authorize,
       Evaluate Authorize e agent input =
         let '(decision, diagnostic) := Authorize (policySet e) entities req in
         {| Allow := Cedar.Decision_is_Allow decision;
            Reason := extractReason decision diagnostic;
            PolicyVersion := policyVersion e |})
    /\ Cedar.Principal req = {| Cedar.Type_ := "Dome::Agent"; Cedar.ID := ID agent |}
    /\ Cedar.Action req = {| Cedar.Type_ := "Dome::Action"; Cedar.ID := Action input |}
    /\ Cedar.Resource req = mapResource input
    /\ size entities = 2%nat
    /\ entities !! ("Dome::Agent", ID agent) =
         Some {| Cedar.UID := {| Cedar.Type_ := "Dome::Agent"; Cedar.ID := ID agent |};
                 Cedar.Attributes := buildAgentAttributes agent |}
    /\ entities !! uid_key (mapResource input) =
         Some {| Cedar.UID := mapResource input;
                 Cedar.Attributes := buildResourceAttributes input |}.
Proof.
  assert (Hne : ("Dome::Agent", ID agent) <> uid_key (mapResource input)).
  { intros Heq.
    assert (Hty : "Dome::Agent" = Cedar.Type_ (mapResource input))
      by exact (f_equal fst Heq).
    destruct (mapResource_type input) as [H | [H | [H | H]]];
      rewrite H in Hty; discriminate. }
  eexists _, _. split; [intros Authorize; unfold Evaluate; reflexivity |].
  cbn [Cedar.Principal Cedar.Action Cedar.Resource].
  repeat split.
  - rewrite map_size_insert_None.
    + rewrite map_size_insert_None by apply lookup_empty. rewrite map_size_empty. reflexivity.
    + rewrite lookup_insert_ne by exact Hne. apply lookup_empty.
  - rewrite lookup_insert_ne by (intros Heq; apply Hne; rewrite Heq; reflexivity).
    apply lookup_insert_eq.
  - apply lookup_insert_eq.
Qed.

(** ** The syncer (syncer.go) *)

(** [Syncer]; its stop channel and wait group belong to the loop goroutine
    and are left out. *)
Record Syncer := { fetcher : Fetcher; engine : Engine; interval : Duration }.

Definition NewSyncer (fetcher : Fetcher) (engine : Engine) (interval : Duration) : Syncer :=
  {| fetcher := fetcher; engine := engine;
     interval := if interval =? 0 then 5 * Minute else interval |}.

Definition set_fetcher (s : Syncer) (f : Fetcher) : Syncer :=
  {| fetcher := f; engine := engine s; interval := interval s |}.

(** The map [syncOnce] fills from the files of a bundle, in their order:
    [policies[p.Filename] = p.Content]. *)
Definition policiesOf (files : list PolicyFile) : gmap string string :=
  foldl (fun policies p => <[Filename p := Content p]> policies) ∅ files.

(** How a call ends: it returns its error, or it panics on a nil pointer. *)
Inductive outcome :=
| returned (err : option error)
| panic_nil_dereference.

(** A call of the syncer's logger. *)
Record logLine := { msg : string; args : list string }.

Section Syncer.

Variable url_Parse : string -> option error.
Variable Do : HTTP.Request -> HTTP.Response + error.
Variable json_Unmarshal : string -> BundleResponse + error.
Variable NewPolicySetFromBytes :
  string -> string -> list (Cedar.PolicyID * Cedar.Policy) + error.

(** The order in which the [range] statement of [LoadBundle] visits the
    entries of a map. *)
Variable range : gmap string string -> list (string * string).

Definition syncOnce (s : Syncer) : outcome * Syncer * list logLine :=
  match Fetch url_Parse Do json_Unmarshal (fetcher s) with
  | (_, Some err, f') => (returned (Some err), set_fetcher s f', [])
  | (None, None, f') => (panic_nil_dereference, set_fetcher s f', [])
  | (Some result, None, f') =>
      match Changed result, Bundle result with
      | true, Some bundle =>
          let policies := policiesOf (Policies bundle) in
          match LoadBundle NewPolicySetFromBytes (engine s) (range policies) (Version bundle) with
          | (_, Some err, _) =>
              (returned (Some (fmt_Errorf "load bundle: %w" [] (Some err))),
               set_fetcher s f', [])
          | (e', None, _) =>
              (returned None,
               {| fetcher := f'; engine := e'; interval := interval s |},
               [ {| msg := "policy bundle updated";
                    args := ["version"; Version bundle;
                             "policy_count"; pretty (PolicyCount e')] |} ])
          end
      | _, _ => (returned None, set_fetcher s f', [])
      end
  end.

(** [Fetch] returns a result exactly when it returns no error, so the
    [result.Changed] that [syncOnce] reads after the error check never
    dereferences nil: [syncOnce] always returns. *)
Theorem syncOnce_never_panics (s : Syncer) :
  (forall f, let '(result, err, _) := Fetch url_Parse Do json_Unmarshal f in
             result = None <-> err <> None)
  /\ exists err s' log, syncOnce s = (returned err, s', log).
Proof.
  assert (HF : forall f, let '(result, err, _) := Fetch url_Parse Do json_Unmarshal f in
                         result = None <-> err <> None).
  { intros f. unfold Fetch.
    destruct (fetchRequest url_Parse f) as [req | e]; [| split; congruence].
    destruct (Do req) as [resp | e]; [| split; congruence].
    destruct (HTTP.StatusCode resp =? HTTP.StatusNotModified); [split; congruence |].
    destruct (HTTP.StatusCode resp =? HTTP.StatusNotFound); [split; congruence |].
    destruct (HTTP.StatusCode resp =? HTTP.StatusOK); [| split; congruence].
    destruct (HTTP.ReadAll _) as [body [e |]]; [split; congruence |].
    destruct (json_Unmarshal body) as [bundle | e]; split; congruence. }
  split; [exact HF |].
  unfold syncOnce. specialize (HF (fetcher s)).
  destruct (Fetch _ _ _ _) as [[[result |] [err |]] f'].
  - eauto.
  - destruct (Changed result), (Bundle result) as [bundle |]; eauto.
    destruct (LoadBundle _ _ _ _) as [[e' [err |]] tr]; eauto.
  - eauto.
  - exfalso. apply (proj1 HF); reflexivity.
Qed.

(** A 304 or a 404 is no news: [syncOnce] returns nil, logs nothing and
    leaves the syncer, engine and remembered ETag included, as it was. *)
Theorem syncOnce_not_modified (s : Syncer) (req : HTTP.Request) (resp : HTTP.Response) :
  fetchRequest url_Parse (fetcher s) = inl req ->
  Do req = inl resp ->
  HTTP.StatusCode resp = 304 \/ HTTP.StatusCode resp = 404 ->
  syncOnce s = (returned None, s, []).
Proof.
  intros Hreq Hdo Hst. unfold syncOnce, Fetch. rewrite Hreq, Hdo.
  destruct s as [f e i]. cbn [fetcher engine interval].
  destruct Hst as [-> | ->]; reflexivity.
Qed.

(** The ETag is committed before the bundle is loaded.  When a 200 answer
    carries a bundle and an ETag but one of its files does not parse,
    [syncOnce] returns the wrapped error and the engine keeps the policies
    and version it had, while the fetcher already remembers the new ETag:
    the request it builds next is the same request with that ETag as its
    [If-None-Match]. *)
Theorem syncOnce_load_failure (s : Syncer) (req : HTTP.Request) (resp : HTTP.Response)
    (body tag f c : string) (bundle : BundleResponse) (perr : error) :
  (forall m, range m ≡ₚ map_to_list m) ->
  fetchRequest url_Parse (fetcher s) = inl req ->
  Do req = inl resp ->
  HTTP.StatusCode resp = 200 ->
  HTTP.ReadAll (HTTP.LimitReader (HTTP.RespBody resp) bundleLimit) = (body, None) ->
  json_Unmarshal body = inl bundle ->
  HTTP.Header_Get (HTTP.RespHeader resp) "ETag" = tag -> tag <> "" ->
  policiesOf (Policies bundle) !! f = Some c ->
  NewPolicySetFromBytes f c = inr perr ->
  exists err s',
    syncOnce s = (returned (Some (fmt_Errorf "load bundle: %w" [] (Some err))), s', [])
    /\ engine s' = engine s
    /\ etag (fetcher s') = tag
    /\ fetchRequest url_Parse (fetcher s') = inl (HTTP.Header_Set req "If-None-Match" tag)
    /\ HTTP.Header_Get (HTTP.Header (HTTP.Header_Set req "If-None-Match" tag))
         "If-None-Match" = tag.
Proof.
  intros Hrange Hreq Hdo Hst Hread Hjson Htag Hne Hfile Hparse.
  unfold syncOnce, Fetch. rewrite Hreq, Hdo, Hst.
  change (200 =? HTTP.StatusNotModified) with false.
  change (200 =? HTTP.StatusNotFound) with false.
  change (200 =? HTTP.StatusOK) with true. cbv iota.
  rewrite Hread, Hjson, Htag. apply is_empty_false in Hne. rewrite Hne.
  cbn [Changed Bundle].
  destruct (parseFiles_error NewPolicySetFromBytes
              (range (policiesOf (Policies bundle))) ∅) as [err Herr].
  { exists f, c, perr. split; [| exact Hparse].
    rewrite (Hrange _). apply elem_of_map_to_list. exact Hfile. }
  unfold LoadBundle. rewrite Herr.
  exists err, (set_fetcher s (set_etag (fetcher s) tag)).
  split; [reflexivity |]. split; [reflexivity |]. split; [reflexivity |].
  split; [exact (fetchRequest_set_etag url_Parse (fetcher s) tag req Hne Hreq) |].
  unfold HTTP.Header_Get, HTTP.Header_Set. cbn [HTTP.Header].
  rewrite lookup_insert_eq. reflexivity.
Qed.

End Syncer.

(** A bundle is turned into a map by file name, so of two files with one
    name the later one stands for both: the map holds a name exactly when
    a file bears it, and under it the content of the last such file. *)
Theorem policiesOf_last_wins (files : list PolicyFile) (name : string) :
  (policiesOf files !! name = None <-> forall p, p ∈ files -> Filename p <> name)
  /\ forall before p after,
       files = before ++ p :: after -> Filename p = name ->
       (forall q, q ∈ after -> Filename q <> name) ->
       policiesOf files !! name = Some (Content p).
Proof.
  assert (Hsnoc : forall l p, policiesOf (l ++ [p]) = <[Filename p := Content p]> (policiesOf l)).
  { intros l p. unfold policiesOf. rewrite foldl_app. reflexivity. }
  split.
  - induction files as [| p files IH] using rev_ind.
    + split; [intros _ p Hin; inversion Hin | reflexivity].
    + rewrite Hsnoc. destruct (decide (Filename p = name)) as [Heq | Hneq].
      * rewrite Heq, lookup_insert_eq. split; [discriminate |].
        intros H. exfalso. apply (H p); [| exact Heq].
        apply elem_of_app. right. left.
      * rewrite lookup_insert_ne by exact Hneq. rewrite IH. split.
        -- intros H q Hin. apply elem_of_app in Hin as [Hin | Hin]; [eauto |].
           apply list_elem_of_singleton in Hin as ->. exact Hneq.
        -- intros H q Hin. apply H. apply elem_of_app. left. exact Hin.
  - intros before p after -> Hname Hafter.
    induction after as [| q after IH] using rev_ind.
    + rewrite Hsnoc, Hname. apply lookup_insert_eq.
    + replace (before ++ p :: after ++ [q]) with ((before ++ p :: after) ++ [q])
        by (rewrite <- app_assoc; reflexivity).
      rewrite Hsnoc, lookup_insert_ne.
      * apply IH. intros q' Hin. apply Hafter. apply elem_of_app. left. exact Hin.
      * apply Hafter. apply elem_of_app. right. left.
Qed.

(** The syncer of the repository's test, before and after a server that
    answers with a bundle holding a file that does not parse. *)
Definition syncer_example : Syncer := NewSyncer fetcher_example engine_v0 0.

Definition bundle_bad : BundleResponse :=
  {| Version := "v2"; Hash := "def456";
     Policies := [ {| Filename := "base.cedar"; Content := "permit(principal, action, resource);" |};
                   {| Filename := "bad.cedar"; Content := "this is not valid cedar" |} ] |}.

Definition response_bad : HTTP.Response :=
  {| HTTP.StatusCode := 200;
     HTTP.RespHeader := {[ "ETag" := "def456" ]};
     HTTP.RespBody := {| HTTP.data := "{bundle v2}"; HTTP.readErr := None |} |}.

Definition range_example (m : gmap string string) : list (string * string) := map_to_list m.

Lemma syncOnce_load_failure_witness :
  exists err s',
    syncOnce (fun _ => None) (fun _ => inl response_bad) (fun _ => inl bundle_bad)
      parse_example range_example syncer_example
      = (returned (Some (fmt_Errorf "load bundle: %w" [] (Some err))), s', [])
    /\ engine s' = engine_v0
    /\ etag (fetcher s') = "def456"
    /\ fetchRequest (fun _ => None) (fetcher s')
       = inl (HTTP.Header_Set
                (HTTP.Header_Set
                   {| HTTP.Method := "GET";
                      HTTP.URL := "http://localhost:8080/api/v1/policies/bundle";
                      HTTP.Header := ∅; HTTP.ReqBody := "" |}
                   "X-Tenant-ID" "tenant-1")
                "If-None-Match" "def456")
    /\ HTTP.Header_Get
         (HTTP.Header
            (HTTP.Header_Set
               (HTTP.Header_Set
                  {| HTTP.Method := "GET";
                     HTTP.URL := "http://localhost:8080/api/v1/policies/bundle";
                     HTTP.Header := ∅; HTTP.ReqBody := "" |}
                  "X-Tenant-ID" "tenant-1")
               "If-None-Match" "def456"))
         "If-None-Match" = "def456".
Proof.
  apply (syncOnce_load_failure (fun _ => None) (fun _ => inl response_bad)
           (fun _ => inl bundle_bad) parse_example range_example syncer_example
           (HTTP.Header_Set
              {| HTTP.Method := "GET";
                 HTTP.URL := "http://localhost:8080/api/v1/policies/bundle";
                 HTTP.Header := ∅; HTTP.ReqBody := "" |}
              "X-Tenant-ID" "tenant-1")
           response_bad "{bundle v2}" "def456" "bad.cedar" "this is not valid cedar"
           bundle_bad (errors_New "parse error")).
  - intros m. reflexivity.
  - reflexivity.
  - reflexivity.
  - reflexivity.
  - reflexivity.
  - reflexivity.
  - reflexivity.
  - discriminate.
  - vm_compute. reflexivity.
  - reflexivity.
Defined.

Lemma syncOnce_not_modified_witness :
  syncOnce (fun _ => None)
    (fun _ => inl {| HTTP.StatusCode := 304; HTTP.RespHeader := ∅;
                     HTTP.RespBody := {| HTTP.data := ""; HTTP.readErr := None |} |})
    json_example parse_example range_example syncer_example
  = (returned None, syncer_example, []).
Proof.
  apply (syncOnce_not_modified (fun _ => None) _ json_example parse_example range_example
           syncer_example
           (HTTP.Header_Set
              {| HTTP.Method := "GET";
                 HTTP.URL := "http://localhost:8080/api/v1/policies/bundle";
                 HTTP.Header := ∅; HTTP.ReqBody := "" |}
              "X-Tenant-ID" "tenant-1")
           {| HTTP.StatusCode := 304; HTTP.RespHeader := ∅;
              HTTP.RespBody := {| HTTP.data := ""; HTTP.readErr := None |} |}).
  - reflexivity.
  - reflexivity.
  - left. reflexivity.
Defined.

Lemma policiesOf_last_wins_witness :
  policiesOf [ {| Filename := "a.cedar"; Content := "permit(principal, action, resource);" |};
               {| Filename := "b.cedar"; Content := "" |};
               {| Filename := "a.cedar"; Content := "forbid(principal, action, resource);" |} ]
    !! "a.cedar"
  = Some "forbid(principal, action, resource);".
Proof.
  apply (proj2 (policiesOf_last_wins _ "a.cedar")
           [ {| Filename := "a.cedar"; Content := "permit(principal, action, resource);" |};
             {| Filename := "b.cedar"; Content := "" |} ]
           {| Filename := "a.cedar"; Content := "forbid(principal, action, resource);" |}
           []).
  - reflexivity.
  - reflexivity.
  - intros q Hin. inversion Hin.
Defined.

End Policy.

(* ===================================================================== *)
(** * internal/tokenexchange: the token-exchange transport              *)
(* ===================================================================== *)

Module TokenExchange.

Import Go.

Record Config := { APIURL : string; RoleID : string; SecretID : string }.

(** The transport's configuration and the state its mutex guards; [base]
    and [nowFunc] are variables of the section below. *)
Record Transport := { config : Config; token : string; expiry : Time }.

(** The zero [time.Time], January 1 of year 1, in Unix nanoseconds. *)
Definition Time_zero : Time := -62135596800 * Second.

Definition NewTransport (config : Config) : Transport :=
  {| config := config; token := ""; expiry := Time_zero |}.

(** The body of the token endpoint's answer. *)
Record tokenResult := { AccessToken : string; TokenType : string; ExpiresIn : Z }.

Inductive Event :=
| mu_Lock
| mu_Unlock
| call_exchange
| base_RoundTrip (req : HTTP.Request).

(** [strings.TrimRight(s, "/")]. *)
Fixpoint TrimRight_slash (s : string) : string :=
  match s with
  | EmptyString => EmptyString
  | String c rest =>
      let rest' := TrimRight_slash rest in
      if is_empty rest' && Ascii.eqb c "/"%char then EmptyString else String c rest'
  end.

Definition tokenEndpoint (t : Transport) : string :=
  TrimRight_slash (APIURL (config t)) +:+ "/api/v1/auth/token".

Definition set_token (t : Transport) (token : string) (expiry : Time) : Transport :=
  {| config := config t; token := token; expiry := expiry |}.

Section Transport.

Variable url_Parse : string -> option error.

(** [t.base.RoundTrip]. *)
Variable base : HTTP.Request -> HTTP.Response + error.

(** [json.Marshal] of a [map[string]string], given as its entries. *)
Variable json_Marshal : list (string * string) -> string.

(** [json.NewDecoder(resp.Body).Decode(&result)]. *)
Variable json_Decode : HTTP.Body -> tokenResult + error.

Definition exchange (t : Transport) : string * Z * option error * list Event :=
  let body := json_Marshal [("grant_type", "approle");
                            ("role_id", RoleID (config t));
                            ("secret_id", SecretID (config t))] in
  match HTTP.NewRequest url_Parse "POST" (tokenEndpoint t) body with
  | inr err => ("", 0, Some err, [])
  | inl req =>
      let req := HTTP.Header_Set req "Content-Type" "application/json" in
      match base req with
      | inr err =>
          ("", 0, Some (fmt_Errorf "token exchange request: %w" [] (Some err)),
           [base_RoundTrip req])
      | inl resp =>
          if negb (HTTP.StatusCode resp =? HTTP.StatusOK) then
            let respBody := (HTTP.ReadAll (HTTP.RespBody resp)).1 in
            ("", 0,
             Some (fmt_Errorf "token exchange failed (HTTP %d): %s"
                     [pretty (HTTP.StatusCode resp); respBody] None),
             [base_RoundTrip req])
          else
            match json_Decode (HTTP.RespBody resp) with
            | inr err =>
                ("", 0, Some (fmt_Errorf "decode token exchange response: %w" [] (Some err)),
                 [base_RoundTrip req])
            | inl result =>
                if is_empty (AccessToken result) then
                  ("", 0,
                   Some (fmt_Errorf "token exchange response missing access_token" [] None),
                   [base_RoundTrip req])
                else (AccessToken result, ExpiresIn result, None, [base_RoundTrip req])
            end
      end
  end.

(** The test under which [getToken] answers from the cache. *)
Definition cached (t : Transport) (now : Time) : bool :=
  negb (is_empty (token t)) && Time_Before (Time_Add now (30 * Second)) (expiry t).

(** [getToken]; [now] is what [t.nowFunc()] returned. *)
Definition getToken (t : Transport) (now : Time)
    : string * option error * Transport * list Event :=
  if cached t now then (token t, None, t, [mu_Lock; mu_Unlock])
  else
    match exchange t with
    | (_, _, Some err, tr) => ("", Some err, t, [mu_Lock; call_exchange] ++ tr ++ [mu_Unlock])
    | (token, expiresIn, None, tr) =>
        (token, None,
         set_token t token (Time_Add now (Duration_mul expiresIn Second)),
         [mu_Lock; call_exchange] ++ tr ++ [mu_Unlock])
    end.

(** [RoundTrip]: the request that reaches [base], or the error. *)
Definition RoundTrip (t : Transport) (now : Time) (req : HTTP.Request)
    : (HTTP.Request + error) * Transport * list Event :=
  if negb (is_empty (HTTP.Header_Get (HTTP.Header req) "Authorization")) then
    (inl req, t, [])
  else if String.eqb (HTTP.URL req) (tokenEndpoint t) then (inl req, t, [])
  else
    match getToken t now with
    | (_, Some err, t', tr) => (inr (fmt_Errorf "dome: token exchange: %w" [] (Some err)), t', tr)
    | (token, None, t', tr) =>
        (inl (HTTP.Header_Set req "Authorization" ("Bearer " +:+ token)), t', tr)
    end.

(** The cache answers without an exchange, and leaves the transport alone. *)
Lemma getToken_hit (t : Transport) (now : Time) :
  cached t now = true ->
  getToken t now = (token t, None, t, [mu_Lock; mu_Unlock]).
Proof. intros H. unfold getToken. rewrite H. reflexivity. Qed.

(** Outside the cache an exchange runs, between [Lock] and [Unlock]. *)
Lemma getToken_miss (t : Transport) (now : Time) :
  cached t now = false ->
  exists tok err t' tr,
    getToken t now = (tok, err, t', [mu_Lock; call_exchange] ++ tr ++ [mu_Unlock]).
Proof.
  intros H. unfold getToken. rewrite H.
  destruct (exchange t) as [[[tok exp] [err |]] tr]; eauto 8.
Qed.

(** What a successful exchange stores. *)
Lemma getToken_stores (t : Transport) (now : Time) (tok : string) (lifetime : Z)
    (tr : list Event) :
  cached t now = false ->
  exchange t = (tok, lifetime, None, tr) ->
  getToken t now =
    (tok, None, set_token t tok (Time_Add now (Duration_mul lifetime Second)),
     [mu_Lock; call_exchange] ++ tr ++ [mu_Unlock]).
Proof. intros H Hex. unfold getToken. rewrite H, Hex. reflexivity. Qed.

(** A successful exchange returns what the endpoint's 200 answer holds. *)
Lemma exchange_result (t : Transport) (tok : string) (lifetime : Z) (tr : list Event) :
  exchange t = (tok, lifetime, None, tr) ->
  exists req resp result,
    base req = inl resp /\ HTTP.StatusCode resp = 200 /\
    json_Decode (HTTP.RespBody resp) = inl result /\
    tok = AccessToken result /\ lifetime = ExpiresIn result /\ tok <> "".
Proof.
  unfold exchange.
  destruct (HTTP.NewRequest _ _ _ _) as [req |]; [| discriminate].
  match goal with |- context [base ?r] => set (req' := r) end.
  destruct (base req') as [resp |] eqn:Hbase; [| discriminate].
  unfold HTTP.StatusOK.
  destruct (Z.eqb_spec (HTTP.StatusCode resp) 200) as [Hst |]; [| discriminate].
  simpl. destruct (json_Decode (HTTP.RespBody resp)) as [result |] eqn:Hdec; [| discriminate].
  destruct (is_empty (AccessToken result)) eqn:Hemp; [discriminate |].
  intros H. injection H as <- <- _.
  exists req', resp, result. repeat split; auto.
  intros Heq. rewrite Heq in Hemp. discriminate.
Qed.



End Transport.

(** The cache test, in words. *)
Lemma cached_iff (t : Transport) (now : Time) :
  cached t now = true <-> token t <> "" /\ now + 30 * Second < expiry t.
Proof.
  unfold cached, Time_Before, Time_Add.
  rewrite andb_true_iff, negb_true_iff, Z.ltb_lt, is_empty_false.
  reflexivity.
Qed.

(** ** The endpoint *)

(** A run of [n] slashes. *)
Fixpoint slashes (n : nat) : string :=
  match n with
  | O => ""
  | S n => String "/"%char (slashes n)
  end.

Lemma TrimRight_slash_slashes (n : nat) : TrimRight_slash (slashes n) = "".
Proof. induction n as [| n IH]; [reflexivity |]. cbn. rewrite IH. reflexivity. Qed.

Lemma TrimRight_slash_app (s : string) (n : nat) :
  TrimRight_slash (s +:+ slashes n) = TrimRight_slash s.
Proof.
  induction s as [| c s IH].
  - apply TrimRight_slash_slashes.
  - change (String c s +:+ slashes n) with (String c (s +:+ slashes n)).
    cbn [TrimRight_slash]. rewrite IH. reflexivity.
Qed.

Definition with_APIURL (t : Transport) (url : string) : Transport :=
  {| config := {| APIURL := url; RoleID := RoleID (config t); SecretID := SecretID (config t) |};
     token := token t; expiry := expiry t |}.

(** Whether the last byte of [s] is a slash. *)
Fixpoint ends_in_slash (s : string) : bool :=
  match s with
  | EmptyString => false
  | String c EmptyString => Ascii.eqb c "/"%char
  | String _ rest => ends_in_slash rest
  end.

Lemma ends_in_slash_app (s : string) : ends_in_slash (s +:+ "/") = true.
Proof.
  induction s as [| c s IH]; [reflexivity |].
  change (String c s +:+ "/") with (String c (s +:+ "/")).
  cbn [ends_in_slash]. rewrite IH. destruct (s +:+ "/") eqn:Hs; [| reflexivity].
  destruct s; discriminate Hs.
Qed.

(** Nothing is trimmed off a string that does not end in a slash. *)
Lemma TrimRight_slash_id (s : string) :
  (forall p, s <> p +:+ "/") -> TrimRight_slash s = s.
Proof.
  induction s as [| c s IH]; intros Hend; [reflexivity |].
  cbn [TrimRight_slash]. rewrite IH.
  - destruct (is_empty s) eqn:Hs; [| reflexivity].
    apply is_empty_true in Hs. subst s.
    destruct (Ascii.eqb_spec c "/"%char) as [-> | Hc]; [| reflexivity].
    exfalso. apply (Hend ""). reflexivity.
  - intros p Hp. apply (Hend (String c p)). rewrite Hp. reflexivity.
Qed.

(** Slashes at the end of the configured API URL, however many, do not
    change the token endpoint: it is the URL without them followed by
    "/api/v1/auth/token". *)
Theorem tokenEndpoint_trailing_slashes (t : Transport) (url : string) (n : nat) :
  tokenEndpoint (with_APIURL t (url +:+ slashes n)) = tokenEndpoint (with_APIURL t url)
  /\ ((forall p, url <> p +:+ "/") ->
      tokenEndpoint (with_APIURL t (url +:+ slashes n)) = url +:+ "/api/v1/auth/token").
Proof.
  unfold tokenEndpoint, with_APIURL. cbn [config APIURL].
  rewrite TrimRight_slash_app. split; [reflexivity |].
  intros Hend. rewrite (TrimRight_slash_id url Hend). reflexivity.
Qed.

(** The API URL of the example written with two slashes at its end. *)
Lemma tokenEndpoint_trailing_slashes_witness :
  tokenEndpoint
    (NewTransport {| APIURL := "https://api.dome.example.com//"; RoleID := "r1";
                     SecretID := "s1" |})
  = "https://api.dome.example.com/api/v1/auth/token".
Proof.
  apply (proj2 (tokenEndpoint_trailing_slashes
                  (NewTransport {| APIURL := ""; RoleID := "r1"; SecretID := "s1" |})
                  "https://api.dome.example.com" 2)).
  intros p Hp. apply (f_equal ends_in_slash) in Hp.
  rewrite ends_in_slash_app in Hp. vm_compute in Hp. discriminate Hp.
Defined.

(** ** The cache over several calls *)

Section Calls.

Variable url_Parse : string -> option error.
Variable base : HTTP.Request -> HTTP.Response + error.
Variable json_Marshal : list (string * string) -> string.
Variable json_Decode : HTTP.Body -> tokenResult + error.

(** A call that returns no error returns a non-empty token, and it is the
    token the transport holds afterwards. *)
Lemma getToken_ok (t t' : Transport) (now : Time) (tok : string) (tr : list Event) :
  getToken url_Parse base json_Marshal json_Decode t now = (tok, None, t', tr) ->
  tok <> "" /\ token t' = tok.
Proof.
  unfold getToken. destruct (cached t now) eqn:Hc.
  - intros H. injection H as <- <- _. apply cached_iff in Hc as [Hne _]. auto.
  - destruct (exchange _ _ _ _ t) as [[[tok0 exp] [err |]] tr0] eqn:Hex; [discriminate |].
    intros H. injection H as <- <- _.
    destruct (exchange_result url_Parse base json_Marshal json_Decode t tok0 exp tr0 Hex)
      as (rq & resp & result & _ & _ & _ & _ & _ & Hne).
    auto.
Qed.

(** Once a call has returned a token, every call made while the clock is
    more than 30 s before the stored expiry returns that same token,
    sends nothing and leaves the transport as it is: one exchange serves
    the whole validity window. *)
Theorem getToken_twice (t t1 : Transport) (now now' : Time) (tok : string)
    (tr : list Event) :
  getToken url_Parse base json_Marshal json_Decode t now = (tok, None, t1, tr) ->
  now' + 30 * Second < expiry t1 ->
  getToken url_Parse base json_Marshal json_Decode t1 now' = (tok, None, t1, [mu_Lock; mu_Unlock]).
Proof.
  intros Hget Hlt. destruct (getToken_ok _ _ _ _ _ Hget) as [Hne Htok].
  rewrite getToken_hit; [rewrite Htok; reflexivity |].
  apply cached_iff. rewrite Htok. auto.
Qed.

(** A token whose lifetime is 30 s or less is never served from the
    cache: from the moment it is stored the cache test fails, so each
    later call exchanges the credentials again. *)
Theorem getToken_short_lifetime (t : Transport) (now : Time) (tok : string) (lifetime : Z)
    (tr : list Event) :
  cached t now = false ->
  exchange url_Parse base json_Marshal json_Decode t = (tok, lifetime, None, tr) ->
  - 9223372036 <= lifetime <= 30 ->
  exists t1,
    getToken url_Parse base json_Marshal json_Decode t now
      = (tok, None, t1, [mu_Lock; call_exchange] ++ tr ++ [mu_Unlock])
    /\ forall now', now <= now' -> cached t1 now' = false.
Proof.
  intros Hc Hex Hrange. eexists. split.
  - apply getToken_stores; [exact Hc | exact Hex].
  - intros now' Hle. apply not_true_iff_false. intros Hcached.
    apply cached_iff in Hcached as [_ Hlt]. cbn [expiry set_token] in Hlt.
    unfold Time_Add, Duration_mul in Hlt.
    rewrite wrap64_id in Hlt; unfold in_int64, MinInt64, MaxInt64, Second in *; lia.
Qed.

(** A request that is not for the token endpoint never leaves the
    transport without credentials.  A request that came with an
    [Authorization] header goes out as it came, with no lock taken and no
    exchange; any other goes out with "Bearer " and a non-empty token, the
    one the transport holds after the call. *)
Theorem RoundTrip_always_authorized (t t' : Transport) (now : Time)
    (req sent : HTTP.Request) (tr : list Event) :
  RoundTrip url_Parse base json_Marshal json_Decode t now req = (inl sent, t', tr) ->
  HTTP.URL req <> tokenEndpoint t ->
  HTTP.Header_Get (HTTP.Header sent) "Authorization" <> ""
  /\ (HTTP.Header_Get (HTTP.Header req) "Authorization" <> "" ->
      sent = req /\ t' = t /\ tr = [])
  /\ (HTTP.Header_Get (HTTP.Header req) "Authorization" = "" ->
      token t' <> ""
      /\ sent = HTTP.Header_Set req "Authorization" ("Bearer " +:+ token t')).
Proof.
  unfold RoundTrip. intros Hrt Hurl.
  destruct (is_empty (HTTP.Header_Get (HTTP.Header req) "Authorization")) eqn:Hauth;
    cbn [negb] in Hrt.
  - apply String.eqb_neq in Hurl. rewrite Hurl in Hrt.
    destruct (getToken _ _ _ _ t now) as [[[tok [err |]] t1] tr1] eqn:Hget; [discriminate |].
    injection Hrt as <- <- <-.
    destruct (getToken_ok _ _ _ _ _ Hget) as [Hne Htok].
    apply is_empty_true in Hauth. split; [| split].
    + unfold HTTP.Header_Get, HTTP.Header_Set. cbn [HTTP.Header].
      rewrite lookup_insert_eq. discriminate.
    + intros H. contradiction.
    + intros _. rewrite Htok. auto.
  - injection Hrt as <- <- <-. apply is_empty_false in Hauth.
    split; [exact Hauth |]. split; [auto | intros H; contradiction].
Qed.

End Calls.

End TokenExchange.

(* ===================================================================== *)
(** * internal/vault: the Vault transport                               *)
(* ===================================================================== *)

Module Vault.

Import Go.

Record AuthConfig := {
  VaultAddr : string;
  Role : string;
  OIDCRole : string;
  AuthMethod : string;
  ServiceAccountTokenPath : string;
  AppRoleID : string;
  AppSecretID : string
}.

(** The transport's configuration and the four fields [Mu] guards. *)
Record Transport := {
  config : AuthConfig;
  OidcToken : string;
  OidcExpiry : Time;
  vaultToken : string;
  vaultExp : Time
}.

Record authResponse := { ClientToken : string; LeaseDuration : Z }.
Record oidcResponse := { Token : string; TTL : Z }.

Inductive Event :=
| Mu_Lock
| Mu_Unlock
| call_ensureVaultToken
| call_requestOIDCToken
| base_RoundTrip (req : HTTP.Request).

Definition NewTransport (config : AuthConfig) : Transport :=
  let method := if is_empty (AuthMethod config) then "kubernetes" else AuthMethod config in
  let path :=
    if is_empty (ServiceAccountTokenPath config)
    then "/var/run/secrets/kubernetes.io/serviceaccount/token"
    else ServiceAccountTokenPath config in
  {| config := {| VaultAddr := VaultAddr config; Role := Role config;
                  OIDCRole := OIDCRole config; AuthMethod := method;
                  ServiceAccountTokenPath := path;
                  AppRoleID := AppRoleID config; AppSecretID := AppSecretID config |};
     OidcToken := ""; OidcExpiry := TokenExchange.Time_zero;
     vaultToken := ""; vaultExp := TokenExchange.Time_zero |}.

Definition set_vault (t : Transport) (token : string) (exp : Time) : Transport :=
  {| config := config t; OidcToken := OidcToken t; OidcExpiry := OidcExpiry t;
     vaultToken := token; vaultExp := exp |}.

Definition set_oidc (t : Transport) (token : string) (exp : Time) : Transport :=
  {| config := config t; OidcToken := token; OidcExpiry := exp;
     vaultToken := vaultToken t; vaultExp := vaultExp t |}.

(** The double quote, for the JSON bodies the transport formats itself. *)
Definition dq : string := String "034"%char EmptyString.

Section Transport.

Variable url_Parse : string -> option error.

(** [t.base.RoundTrip]. *)
Variable base : HTTP.Request -> HTTP.Response + error.

(** [t.ReadFile]. *)
Variable ReadFile : string -> string + error.

(** [strings.TrimSpace], and the [%q] verb of [fmt.Sprintf]. *)
Variable TrimSpace : string -> string.
Variable quote : string -> string.

Variable json_Decode_auth : HTTP.Body -> authResponse + error.
Variable json_Decode_oidc : HTTP.Body -> oidcResponse + error.

(** The wall clock: [clock k] is what the k-th call of [time.Now()]
    returns.  Every function below takes the number of calls made so far
    and returns the number after it. *)
Variable clock : nat -> Time.

Definition vaultLogin (t : Transport) (tick : nat) (path body : string)
    : option error * Transport * nat * list Event :=
  let url := VaultAddr (config t) +:+ "/v1/" +:+ path in
  match HTTP.NewRequest url_Parse "POST" url body with
  | inr err => (Some err, t, tick, [])
  | inl req =>
      let req := HTTP.Header_Set req "Content-Type" "application/json" in
      match base req with
      | inr err =>
          (Some (fmt_Errorf "vault login request: %w" [] (Some err)), t, tick,
           [base_RoundTrip req])
      | inl resp =>
          if negb (HTTP.StatusCode resp =? HTTP.StatusOK) then
            let respBody := (HTTP.ReadAll (HTTP.RespBody resp)).1 in
            (Some (fmt_Errorf "vault login failed (HTTP %d): %s"
                     [pretty (HTTP.StatusCode resp); respBody] None),
             t, tick, [base_RoundTrip req])
          else
            match json_Decode_auth (HTTP.RespBody resp) with
            | inr err =>
                (Some (fmt_Errorf "decode vault login response: %w" [] (Some err)),
                 t, tick, [base_RoundTrip req])
            | inl result =>
                if is_empty (ClientToken result) then
                  (Some (fmt_Errorf "vault login response missing client_token" [] None),
                   t, tick, [base_RoundTrip req])
                else
                  (None,
                   set_vault t (ClientToken result)
                     (Time_Add (clock tick) (Duration_mul (LeaseDuration result) Second)),
                   S tick, [base_RoundTrip req])
            end
      end
  end.

Definition loginKubernetes (t : Transport) (tick : nat)
    : option error * Transport * nat * list Event :=
  match ReadFile (ServiceAccountTokenPath (config t)) with
  | inr err => (Some (fmt_Errorf "read SA token: %w" [] (Some err)), t, tick, [])
  | inl saTokenBytes =>
      let body := "{" +:+ dq +:+ "role" +:+ dq +:+ ":" +:+ quote (Role (config t))
                  +:+ "," +:+ dq +:+ "jwt" +:+ dq +:+ ":"
                  +:+ quote (TrimSpace saTokenBytes) +:+ "}" in
      vaultLogin t tick "auth/kubernetes/login" body
  end.

Definition loginAppRole (t : Transport) (tick : nat)
    : option error * Transport * nat * list Event :=
  let body := "{" +:+ dq +:+ "role_id" +:+ dq +:+ ":" +:+ quote (AppRoleID (config t))
              +:+ "," +:+ dq +:+ "secret_id" +:+ dq +:+ ":"
              +:+ quote (AppSecretID (config t)) +:+ "}" in
  vaultLogin t tick "auth/approle/login" body.

Definition ensureVaultToken (t : Transport) (tick : nat)
    : option error * Transport * nat * list Event :=
  let '(fresh, tick) :=
    if is_empty (vaultToken t) then (false, tick)
    else (Time_Before (Time_Add (clock tick) (60 * Second)) (vaultExp t), S tick) in
  if fresh then (None, t, tick, [])
  else if String.eqb (AuthMethod (config t)) "kubernetes" then loginKubernetes t tick
  else if String.eqb (AuthMethod (config t)) "approle" then loginAppRole t tick
  else (Some (fmt_Errorf "unsupported vault auth method: %q" [AuthMethod (config t)] None),
        t, tick, []).

Definition requestOIDCToken (t : Transport) (tick : nat)
    : string * Time * option error * nat * list Event :=
  let url := VaultAddr (config t) +:+ "/v1/identity/oidc/token/" +:+ OIDCRole (config t) in
  match HTTP.NewRequest url_Parse "GET" url "" with
  | inr err => ("", TokenExchange.Time_zero, Some err, tick, [])
  | inl req =>
      let req := HTTP.Header_Set req "X-Vault-Token" (vaultToken t) in
      match base req with
      | inr err =>
          ("", TokenExchange.Time_zero,
           Some (fmt_Errorf "vault OIDC token request: %w" [] (Some err)), tick,
           [base_RoundTrip req])
      | inl resp =>
          if negb (HTTP.StatusCode resp =? HTTP.StatusOK) then
            let respBody := (HTTP.ReadAll (HTTP.RespBody resp)).1 in
            ("", TokenExchange.Time_zero,
             Some (fmt_Errorf "vault OIDC token failed (HTTP %d): %s"
                     [pretty (HTTP.StatusCode resp); respBody] None),
             tick, [base_RoundTrip req])
          else
            match json_Decode_oidc (HTTP.RespBody resp) with
            | inr err =>
                ("", TokenExchange.Time_zero,
                 Some (fmt_Errorf "decode vault OIDC response: %w" [] (Some err)), tick,
                 [base_RoundTrip req])
            | inl result =>
                if is_empty (Token result) then
                  ("", TokenExchange.Time_zero,
                   Some (fmt_Errorf "vault OIDC response missing token" [] None), tick,
                   [base_RoundTrip req])
                else
                  (Token result,
                   Time_Add (clock tick) (Duration_mul (TTL result) Second),
                   None, S tick, [base_RoundTrip req])
            end
      end
  end.

(** The test under which [getOIDCToken] answers from the cache; the clock
    is read only when a token is held. *)
Definition cached (t : Transport) (tick : nat) : bool :=
  negb (is_empty (OidcToken t))
  && Time_Before (Time_Add (clock tick) (30 * Second)) (OidcExpiry t).

Definition getOIDCToken (t : Transport) (tick : nat)
    : string * option error * Transport * nat * list Event :=
  let tick' := if is_empty (OidcToken t) then tick else S tick in
  if cached t tick then (OidcToken t, None, t, tick', [Mu_Lock; Mu_Unlock])
  else
    match ensureVaultToken t tick' with
    | (Some err, t1, tick1, tr1) =>
        ("", Some err, t1, tick1, [Mu_Lock; call_ensureVaultToken] ++ tr1 ++ [Mu_Unlock])
    | (None, t1, tick1, tr1) =>
        match requestOIDCToken t1 tick1 with
        | (_, _, Some err, tick2, tr2) =>
            ("", Some err, t1, tick2,
             [Mu_Lock; call_ensureVaultToken] ++ tr1 ++ [call_requestOIDCToken] ++ tr2
               ++ [Mu_Unlock])
        | (token, expiry, None, tick2, tr2) =>
            (token, None, set_oidc t1 token expiry, tick2,
             [Mu_Lock; call_ensureVaultToken] ++ tr1 ++ [call_requestOIDCToken] ++ tr2
               ++ [Mu_Unlock])
        end
    end.

(** [RoundTrip]: the request that reaches [base], or the error. *)
Definition RoundTrip (t : Transport) (tick : nat) (req : HTTP.Request)
    : (HTTP.Request + error) * Transport * nat * list Event :=
  if negb (is_empty (HTTP.Header_Get (HTTP.Header req) "Authorization")) then
    (inl req, t, tick, [])
  else
    match getOIDCToken t tick with
    | (_, Some err, t', tick', tr) =>
        (inr (fmt_Errorf "dome: vault auth: %w" [] (Some err)), t', tick', tr)
    | (token, None, t', tick', tr) =>
        (inl (HTTP.Header_Set req "Authorization" ("Bearer " +:+ token)), t', tick', tr)
    end.

(** A successful request returns the token of Vault's 200 answer, and an
    expiry counted from the clock as read once the answer was decoded. *)
Lemma requestOIDCToken_result (t : Transport) (tick tick' : nat) (tok : string)
    (exp : Time) (tr : list Event) :
  requestOIDCToken t tick = (tok, exp, None, tick', tr) ->
  exists req resp result,
    base req = inl resp /\ HTTP.StatusCode resp = 200 /\
    json_Decode_oidc (HTTP.RespBody resp) = inl result /\
    tok = Token result /\ tok <> "" /\ tick' = S tick /\
    exp = Time_Add (clock tick) (Duration_mul (TTL result) Second).
Proof.
  unfold requestOIDCToken.
  destruct (HTTP.NewRequest _ _ _ _) as [req |]; [| discriminate].
  match goal with |- context [base ?r] => set (req' := r) end.
  destruct (base req') as [resp |] eqn:Hbase; [| discriminate].
  unfold HTTP.StatusOK.
  destruct (Z.eqb_spec (HTTP.StatusCode resp) 200) as [Hst |]; [| discriminate].
  simpl. destruct (json_Decode_oidc (HTTP.RespBody resp)) as [result |] eqn:Hdec;
    [| discriminate].
  destruct (is_empty (Token result)) eqn:Hemp; [discriminate |].
  intros H. injection H as <- <- <- _.
  exists req', resp, result. repeat split; auto.
  intros Heq. rewrite Heq in Hemp. discriminate.
Qed.



(** The clock only moves forward through [ensureVaultToken]. *)
Lemma ensureVaultToken_tick (t t' : Transport) (tick tick' : nat) (err : option error)
    (tr : list Event) :
  ensureVaultToken t tick = (err, t', tick', tr) -> (tick <= tick')%nat.
Proof.
  unfold ensureVaultToken, loginKubernetes, loginAppRole, vaultLogin.
  repeat match goal with
         | |- context [if ?b then _ else _] => destruct b
         | |- context [match ?x with _ => _ end] => destruct x
         end; simpl; intros H; injection H; intros; subst; lia.
Qed.

End Transport.


(** ** The two tokens over a call *)

Section Calls.

Variable url_Parse : string -> option error.
Variable base : HTTP.Request -> HTTP.Response + error.
Variable ReadFile : string -> string + error.
Variable TrimSpace : string -> string.
Variable quote : string -> string.
Variable json_Decode_auth : HTTP.Body -> authResponse + error.
Variable json_Decode_oidc : HTTP.Body -> oidcResponse + error.
Variable clock : nat -> Time.

(** The URL of the identity token. *)
Definition oidcURL (t : Transport) : string :=
  VaultAddr (config t) +:+ "/v1/identity/oidc/token/" +:+ OIDCRole (config t).

(** A login changes the Vault token and its expiry only, and only when it
    succeeds. *)
Lemma vaultLogin_frame (t t' : Transport) (tick tick' : nat) (path body : string)
    (err : option error) (tr : list Event) :
  vaultLogin url_Parse base json_Decode_auth clock t tick path body = (err, t', tick', tr) ->
  config t' = config t /\ OidcToken t' = OidcToken t /\ OidcExpiry t' = OidcExpiry t
  /\ (err <> None -> t' = t).
Proof.
  unfold vaultLogin.
  destruct (HTTP.NewRequest _ _ _ _) as [req |].
  2: { intros H. injection H as <- <- _ _. auto. }
  destruct (base _) as [resp |].
  2: { intros H. injection H as <- <- _ _. auto. }
  destruct (negb _).
  { intros H. injection H as <- <- _ _. auto. }
  destruct (json_Decode_auth _) as [result |].
  2: { intros H. injection H as <- <- _ _. auto. }
  destruct (is_empty _); intros H; injection H as <- <- _ _; auto.
  repeat split; auto. intros Hn. contradiction Hn. reflexivity.
Qed.

Lemma ensureVaultToken_frame (t t' : Transport) (tick tick' : nat) (err : option error)
    (tr : list Event) :
  ensureVaultToken url_Parse base ReadFile TrimSpace quote json_Decode_auth clock t tick
    = (err, t', tick', tr) ->
  config t' = config t /\ OidcToken t' = OidcToken t /\ OidcExpiry t' = OidcExpiry t
  /\ (err <> None -> t' = t).
Proof.
  unfold ensureVaultToken, loginKubernetes, loginAppRole.
  destruct (if is_empty (vaultToken t) then _ else _) as [[|] tick0].
  { intros H. injection H as <- <- _ _. auto. }
  destruct (String.eqb _ "kubernetes").
  { destruct (ReadFile _) as [sa |].
    - apply vaultLogin_frame.
    - intros H. injection H as <- <- _ _. auto. }
  destruct (String.eqb _ "approle").
  { apply vaultLogin_frame. }
  intros H. injection H as <- <- _ _. auto.
Qed.

(** A login that succeeds stores the client token of Vault's 200 answer,
    with an expiry counted from the clock. *)
Lemma vaultLogin_ok (t t' : Transport) (tick tick' : nat) (path body : string)
    (tr : list Event) :
  vaultLogin url_Parse base json_Decode_auth clock t tick path body = (None, t', tick', tr) ->
  exists req resp result,
    base req = inl resp /\ json_Decode_auth (HTTP.RespBody resp) = inl result
    /\ ClientToken result <> ""
    /\ t' = set_vault t (ClientToken result)
              (Time_Add (clock tick) (Duration_mul (LeaseDuration result) Second)).
Proof.
  unfold vaultLogin.
  destruct (HTTP.NewRequest _ _ _ _) as [req |]; [| discriminate].
  match goal with |- context [base ?r] => set (req' := r) end.
  destruct (base req') as [resp |] eqn:Hb; [| discriminate].
  destruct (negb _); [discriminate |].
  destruct (json_Decode_auth _) as [result |] eqn:Hd; [| discriminate].
  destruct (is_empty (ClientToken result)) eqn:He; [discriminate |].
  intros H. injection H as <- _ _. apply is_empty_false in He.
  exists req', resp, result. auto.
Qed.

(** [ensureVaultToken] returns nil either because the held Vault token is
    good for more than 60 s, or because a login has just stored a new
    one. *)
Lemma ensureVaultToken_ok (t t' : Transport) (tick tick' : nat) (tr : list Event) :
  ensureVaultToken url_Parse base ReadFile TrimSpace quote json_Decode_auth clock t tick
    = (None, t', tick', tr) ->
  (t' = t /\ vaultToken t <> "" /\ clock tick + 60 * Second < vaultExp t)
  \/ exists req resp result k,
       base req = inl resp /\ json_Decode_auth (HTTP.RespBody resp) = inl result
       /\ ClientToken result <> ""
       /\ t' = set_vault t (ClientToken result)
                 (Time_Add (clock k) (Duration_mul (LeaseDuration result) Second)).
Proof.
  unfold ensureVaultToken, loginKubernetes, loginAppRole.
  destruct (is_empty (vaultToken t)) eqn:He.
  - cbv iota beta zeta.
    destruct (String.eqb _ "kubernetes").
    { destruct (ReadFile _) as [sa |]; [| discriminate].
      intros H. right. apply vaultLogin_ok in H as (req & resp & result & H).
      exists req, resp, result, tick. exact H. }
    destruct (String.eqb _ "approle"); [| discriminate].
    intros H. right. apply vaultLogin_ok in H as (req & resp & result & H).
    exists req, resp, result, tick. exact H.
  - unfold Time_Before, Time_Add.
    destruct (Z.ltb_spec (clock tick + 60 * Second) (vaultExp t)) as [Hlt | Hge];
      cbv iota beta zeta.
    { intros H. injection H as <- _ _. left. apply is_empty_false in He. auto. }
    destruct (String.eqb _ "kubernetes").
    { destruct (ReadFile _) as [sa |]; [| discriminate].
      intros H. right. apply vaultLogin_ok in H as (req & resp & result & H).
      exists req, resp, result, (S tick). exact H. }
    destruct (String.eqb _ "approle"); [| discriminate].
    intros H. right. apply vaultLogin_ok in H as (req & resp & result & H).
    exists req, resp, result, (S tick). exact H.
Qed.

(** An error of [getOIDCToken] comes with the empty token and leaves the
    cached identity token and its expiry untouched.  If the error arose
    before the identity token was requested, that is in the Vault login,
    the transport is unchanged altogether.  If the request itself failed,
    the transport is as [ensureVaultToken] left it: a login that succeeded
    before the failing request is kept, with the client token and the
    expiry it stored. *)
Theorem getOIDCToken_failure (t t' : Transport) (tick tick' : nat) (tok : string)
    (err : error) (tr : list Event) :
  getOIDCToken url_Parse base ReadFile TrimSpace quote json_Decode_auth json_Decode_oidc
    clock t tick = (tok, Some err, t', tick', tr) ->
  tok = "" /\ config t' = config t
  /\ OidcToken t' = OidcToken t /\ OidcExpiry t' = OidcExpiry t
  /\ (call_requestOIDCToken ∉ tr -> t' = t)
  /\ (call_requestOIDCToken ∈ tr ->
        (exists tick1 tr1,
           ensureVaultToken url_Parse base ReadFile TrimSpace quote json_Decode_auth clock t
             (if is_empty (OidcToken t) then tick else S tick) = (None, t', tick1, tr1))
        /\ ((t' = t /\ vaultToken t <> "")
            \/ exists req resp result k,
                 base req = inl resp /\ json_Decode_auth (HTTP.RespBody resp) = inl result
                 /\ ClientToken result <> ""
                 /\ t' = set_vault t (ClientToken result)
                           (Time_Add (clock k)
                              (Duration_mul (LeaseDuration result) Second)))).
Proof.
  unfold getOIDCToken. destruct (cached clock t tick); [discriminate |].
  destruct (ensureVaultToken _ _ _ _ _ _ _ t _) as [[[e1 t1] tick1] tr1] eqn:Hens.
  destruct (ensureVaultToken_frame _ _ _ _ _ _ Hens) as (Hc & Ho & He & Hsame).
  destruct e1 as [e1 |].
  - intros H. injection H as <- _ <- _ <-.
    split; [reflexivity |]. split; [exact Hc |]. split; [exact Ho |]. split; [exact He |].
    split; [intros _; apply Hsame; discriminate |].
    intros Hin. exfalso.
    assert (Hno : call_requestOIDCToken ∉ tr1).
    { clear -Hens. revert Hens.
      unfold ensureVaultToken, loginKubernetes, loginAppRole, vaultLogin.
      repeat match goal with
             | |- context [if ?b then _ else _] => destruct b
             | |- context [match ?x with _ => _ end] => destruct x
             end; cbv iota beta zeta; intros H; injection H; intros; subst;
        intros Hin; repeat (apply elem_of_cons in Hin as [Hin | Hin]; [discriminate Hin |]);
        inversion Hin. }
    repeat (apply elem_of_cons in Hin as [Hin | Hin]; [discriminate Hin |]).
    apply elem_of_app in Hin as [Hin | Hin]; [exact (Hno Hin) |].
    repeat (apply elem_of_cons in Hin as [Hin | Hin]; [discriminate Hin |]).
    inversion Hin.
  - destruct (requestOIDCToken _ _ _ _ t1 tick1) as [[[[tok2 exp2] [e2 |]] tick2] tr2];
      [| discriminate].
    intros H. injection H as <- _ <- _ <-.
    split; [reflexivity |]. split; [exact Hc |]. split; [exact Ho |]. split; [exact He |].
    split.
    { intros Hnot. exfalso. apply Hnot.
      right. right. apply elem_of_app. right. left. }
    intros _. split; [eauto |].
    destruct (ensureVaultToken_ok _ _ _ _ _ Hens) as [(Ht & Hne & _) | Hlogin]; auto.
Qed.

(** While the Vault token has more than 60 s left, fetching an identity
    token logs in to nothing: the call makes at most one request, a GET of
    the identity token that presents the held Vault token, and the Vault
    token and its expiry stay as they are. *)
Theorem getOIDCToken_reuses_vault_token (t : Transport) (tick : nat) :
  cached clock t tick = false ->
  vaultToken t <> "" ->
  clock (if is_empty (OidcToken t) then tick else S tick) + 60 * Second < vaultExp t ->
  exists tok err t' tick' tr,
    getOIDCToken url_Parse base ReadFile TrimSpace quote json_Decode_auth json_Decode_oidc
      clock t tick
      = (tok, err, t', tick',
         [Mu_Lock; call_ensureVaultToken; call_requestOIDCToken] ++ tr ++ [Mu_Unlock])
    /\ vaultToken t' = vaultToken t /\ vaultExp t' = vaultExp t
    /\ (tr = [] \/
        exists req, tr = [base_RoundTrip req]
                    /\ HTTP.Method req = "GET" /\ HTTP.URL req = oidcURL t
                    /\ HTTP.Header_Get (HTTP.Header req) "X-Vault-Token" = vaultToken t).
Proof.
  intros Hc Hne Hfresh. apply is_empty_false in Hne.
  unfold getOIDCToken. rewrite Hc. unfold ensureVaultToken. rewrite Hne.
  apply Z.ltb_lt in Hfresh. unfold Time_Before, Time_Add. rewrite Hfresh.
  unfold requestOIDCToken. fold (oidcURL t). unfold HTTP.NewRequest.
  destruct (url_Parse (oidcURL t)) as [e |].
  { eexists _, _, _, _, []. split; [reflexivity |]. auto. }
  set (req := HTTP.Header_Set _ "X-Vault-Token" (vaultToken t)).
  assert (Hreq : HTTP.Method req = "GET" /\ HTTP.URL req = oidcURL t
                 /\ HTTP.Header_Get (HTTP.Header req) "X-Vault-Token" = vaultToken t).
  { subst req. unfold HTTP.Header_Get, HTTP.Header_Set.
    cbn [HTTP.Method HTTP.URL HTTP.Header]. rewrite lookup_insert_eq. auto. }
  destruct (base req) as [resp |].
  2: { eexists _, _, _, _, [base_RoundTrip req]. split; [reflexivity |]. eauto 6. }
  destruct (negb _).
  { eexists _, _, _, _, [base_RoundTrip req]. split; [reflexivity |]. eauto 6. }
  destruct (json_Decode_oidc _) as [result |].
  2: { eexists _, _, _, _, [base_RoundTrip req]. split; [reflexivity |]. eauto 6. }
  destruct (is_empty (Token result));
    eexists _, _, _, _, [base_RoundTrip req]; (split; [reflexivity |]); eauto 6.
Qed.

End Calls.

End Vault.

(* ===================================================================== *)
(** * The token cache of both transports                                *)
(* ===================================================================== *)

Module TokenCache.

Import Go.


(** A token endpoint that answers every request with a token good for
    the given number of seconds. *)
Definition endpoint (lifetime : Z) (req : HTTP.Request) : HTTP.Response + error :=
  inl {| HTTP.StatusCode := 200; HTTP.RespHeader := ∅;
         HTTP.RespBody := {| HTTP.data := "{token}"; HTTP.readErr := None |} |}.

Definition decode (lifetime : Z) (b : HTTP.Body) : TokenExchange.tokenResult + error :=
  inl {| TokenExchange.AccessToken := "jwt-2"; TokenExchange.TokenType := "Bearer";
         TokenExchange.ExpiresIn := lifetime |}.

Definition getToken_example (lifetime : Z) (t : TokenExchange.Transport) (now : Time) :=
  TokenExchange.getToken (fun _ => None) (endpoint lifetime) (fun _ => "{}")
    (decode lifetime) t now.

(** A transport holding a token that expires at second 100. *)
Definition holding : TokenExchange.Transport :=
  {| TokenExchange.config :=
       {| TokenExchange.APIURL := "https://api.dome.example.com";
          TokenExchange.RoleID := "r1"; TokenExchange.SecretID := "s1" |};
     TokenExchange.token := "jwt-1"; TokenExchange.expiry := 100 * Second |}.

(** One nanosecond before the 30 s margin the cached token is served; at
    the margin it is replaced, and the new expiry is [now] plus 3600 s. *)
Example getToken_margin :
  (getToken_example 3600 holding (70 * Second - 1)).1.1.1 = "jwt-1"
  /\ (getToken_example 3600 holding (70 * Second)).1.1.1 = "jwt-2"
  /\ TokenExchange.expiry (getToken_example 3600 holding (70 * Second)).1.2
       = 3670 * Second.
Proof. vm_compute. repeat split; reflexivity. Qed.

(** The lifetime is multiplied as an int64 count of nanoseconds: one above
    [2^63 / 10^9] seconds, some 292 years, no longer fits. *)
Example getToken_lifetime_range :
  in_int64 (9223372036 * Second) /\ ~ in_int64 (9223372037 * Second).
Proof. unfold in_int64. vm_compute. split; [split |]; intros; intuition discriminate. Qed.



(** The transport of the example once it has exchanged its credentials at
    second 70 for a token good for [lifetime] seconds. *)
Definition renewed (lifetime : Z) : TokenExchange.Transport :=
  (getToken_example lifetime holding (70 * Second)).1.2.

(** With an hour of lifetime the call at second 100 is served from the
    cache. *)
Lemma getToken_twice_witness :
  getToken_example 3600 (renewed 3600) (100 * Second)
  = ("jwt-2", None, renewed 3600, [TokenExchange.mu_Lock; TokenExchange.mu_Unlock]).
Proof.
  apply (TokenExchange.getToken_twice (fun _ => None) (endpoint 3600) (fun _ => "{}")
           (decode 3600) holding (renewed 3600) (70 * Second) (100 * Second) "jwt-2"
           (getToken_example 3600 holding (70 * Second)).2).
  - vm_compute. reflexivity.
  - vm_compute. reflexivity.
Defined.

(** With 30 s of lifetime no later call is. *)
Lemma getToken_short_lifetime_witness :
  exists t1,
    getToken_example 30 holding (70 * Second)
      = ("jwt-2", None, t1,
         [TokenExchange.mu_Lock; TokenExchange.call_exchange]
           ++ (TokenExchange.exchange (fun _ => None) (endpoint 30) (fun _ => "{}")
                 (decode 30) holding).2
           ++ [TokenExchange.mu_Unlock])
    /\ forall now', 70 * Second <= now' -> TokenExchange.cached t1 now' = false.
Proof.
  apply (TokenExchange.getToken_short_lifetime (fun _ => None) (endpoint 30) (fun _ => "{}")
           (decode 30) holding (70 * Second) "jwt-2" 30).
  - vm_compute. reflexivity.
  - vm_compute. reflexivity.
  - lia.
Defined.

(** A request for the control plane, sent through the transport of the
    example at second 70. *)
Definition request_example : HTTP.Request :=
  {| HTTP.Method := "POST";
     HTTP.URL := "https://api.dome.example.com/dome.agent.v1.AgentRegistry/Heartbeat";
     HTTP.Header := ∅; HTTP.ReqBody := "{}" |}.

Definition RoundTrip_example :=
  TokenExchange.RoundTrip (fun _ => None) (endpoint 3600) (fun _ => "{}") (decode 3600)
    holding (70 * Second) request_example.

Lemma RoundTrip_always_authorized_witness :
  HTTP.Header_Get
    (HTTP.Header (HTTP.Header_Set request_example "Authorization" "Bearer jwt-2"))
    "Authorization" <> "".
Proof.
  apply (TokenExchange.RoundTrip_always_authorized (fun _ => None) (endpoint 3600)
           (fun _ => "{}") (decode 3600) holding RoundTrip_example.1.2 (70 * Second)
           request_example (HTTP.Header_Set request_example "Authorization" "Bearer jwt-2")
           RoundTrip_example.2).
  - vm_compute. reflexivity.
  - vm_compute. discriminate.
Defined.

(** A Vault transport for AppRole credentials, a Vault that cannot be
    reached, and one that answers every request with an identity token
    good for five minutes. *)
Definition vault_example : Vault.Transport :=
  Vault.NewTransport
    {| Vault.VaultAddr := "https://vault.example.com"; Vault.Role := "";
       Vault.OIDCRole := "dome-agent"; Vault.AuthMethod := "approle";
       Vault.ServiceAccountTokenPath := "";
       Vault.AppRoleID := "r1"; Vault.AppSecretID := "s1" |}.

Definition unreachable (req : HTTP.Request) : HTTP.Response + error :=
  inr (errors_New "dial tcp: connection refused").

Definition no_file (path : string) : string + error :=
  inr (errors_New "no such file or directory").

Definition decode_auth (b : HTTP.Body) : Vault.authResponse + error :=
  inl {| Vault.ClientToken := "hvs.1"; Vault.LeaseDuration := 3600 |}.

Definition decode_oidc (b : HTTP.Body) : Vault.oidcResponse + error :=
  inl {| Vault.Token := "jwt-3"; Vault.TTL := 300 |}.

(** A Vault that accepts the login and then cannot be reached for the
    identity token. *)
Definition login_only (req : HTTP.Request) : HTTP.Response + error :=
  if String.eqb (HTTP.Method req) "POST" then endpoint 3600 req else unreachable req.

(** Against it the call fails, and the client token of the login is
    kept. *)
Lemma getOIDCToken_failure_witness :
  let r := Vault.getOIDCToken (fun _ => None) login_only no_file (fun s => s) (fun s => s)
             decode_auth decode_oidc (fun _ => 0) vault_example O in
  r.1.1.1 = ("", Some (fmt_Errorf "vault OIDC token request: %w" []
                         (Some (errors_New "dial tcp: connection refused"))))
  /\ Vault.vaultToken r.1.1.2 = "hvs.1"
  /\ Vault.vaultExp r.1.1.2 = 3600 * Second
  /\ Vault.OidcToken r.1.1.2 = "".
Proof.
  cbv zeta.
  destruct (Vault.getOIDCToken (fun _ => None) login_only no_file (fun s => s) (fun s => s)
              decode_auth decode_oidc (fun _ => 0) vault_example O)
    as [[[[tok err] t'] tick'] tr] eqn:Hrun.
  pose proof Hrun as Hval. vm_compute in Hval. injection Hval as <- <- _ _ <-.
  destruct (Vault.getOIDCToken_failure _ _ _ _ _ _ _ _ _ _ _ _ _ _ _ Hrun)
    as (_ & _ & Ho & _ & _ & Hkept).
  split; [reflexivity |].
  destruct Hkept as [_ [[_ Hne] | (req & resp & result & k & _ & Hd & _ & ->)]].
  - apply list_elem_of_In. cbn. tauto.
  - exfalso. apply Hne. reflexivity.
  - injection Hd as <-. split; [reflexivity |]. split; reflexivity.
Defined.

(** The transport of the example holding a Vault token good until second
    1000 and no identity token, read at second 0. *)
Definition logged_in : Vault.Transport :=
  Vault.set_vault vault_example "hvs.1" (1000 * Second).

Lemma getOIDCToken_reuses_vault_token_witness :
  exists tok err t' tick' tr,
    Vault.getOIDCToken (fun _ => None) (endpoint 300) no_file (fun s => s) (fun s => s)
      decode_auth decode_oidc (fun _ => 0) logged_in O
      = (tok, err, t', tick',
         [Vault.Mu_Lock; Vault.call_ensureVaultToken; Vault.call_requestOIDCToken]
           ++ tr ++ [Vault.Mu_Unlock])
    /\ Vault.vaultToken t' = "hvs.1" /\ Vault.vaultExp t' = 1000 * Second
    /\ (tr = [] \/
        exists req, tr = [Vault.base_RoundTrip req]
                    /\ HTTP.Method req = "GET"
                    /\ HTTP.URL req = Vault.oidcURL logged_in
                    /\ HTTP.Header_Get (HTTP.Header req) "X-Vault-Token" = "hvs.1").
Proof.
  apply (Vault.getOIDCToken_reuses_vault_token (fun _ => None) (endpoint 300) no_file
           (fun s => s) (fun s => s) decode_auth decode_oidc (fun _ => 0) logged_in O).
  - reflexivity.
  - discriminate.
  - vm_compute. reflexivity.
Defined.

End TokenCache.

(* ===================================================================== *)
(** * Executable stand-ins for the standard library                      *)
(* ===================================================================== *)

(** The theorems about [decodeToken] and [NewClient] hold for every
    decoder.  To run the code on concrete credentials the examples use the
    functions below: base64 as RFC 4648 defines the standard, padded
    encoding, and a JSON reader for the documents the examples use, flat
    objects of string members written without escapes or white space. *)
Module GoStd.

Import Go.

Definition is_space (c : ascii) : bool :=
  let n := N_of_ascii c in
  ((9 <=? n) && (n <=? 13) || (n =? 32))%N.

Fixpoint TrimLeft_space (s : string) : string :=
  match s with
  | EmptyString => EmptyString
  | String c rest => if is_space c then TrimLeft_space rest else s
  end.

Fixpoint TrimRight_space (s : string) : string :=
  match s with
  | EmptyString => EmptyString
  | String c rest =>
      let rest' := TrimRight_space rest in
      if is_empty rest' && is_space c then EmptyString else String c rest'
  end.

(** [strings.TrimSpace] on ASCII text. *)
Definition TrimSpace (s : string) : string := TrimRight_space (TrimLeft_space s).

(** The value of a character of the base64 alphabet. *)
Definition sextet (c : ascii) : option N :=
  let n := N_of_ascii c in
  if ((65 <=? n) && (n <=? 90))%N then Some (n - 65)%N
  else if ((97 <=? n) && (n <=? 122))%N then Some (n - 71)%N
  else if ((48 <=? n) && (n <=? 57))%N then Some (n + 4)%N
  else if (n =? 43)%N then Some 62%N
  else if (n =? 47)%N then Some 63%N
  else None.

Definition byte (n : N) : ascii := ascii_of_N (n mod 256).

Definition is_pad (c : ascii) : bool := Ascii.eqb c "="%char.

Fixpoint decode_quanta (s : string) : option string :=
  match s with
  | EmptyString => Some EmptyString
  | String a (String b (String c (String d rest))) =>
      match sextet a, sextet b with
      | Some x, Some y =>
          let b1 := byte (x * 4 + y / 16) in
          if is_pad c then
            if is_pad d && is_empty rest then Some (String b1 EmptyString) else None
          else
            match sextet c with
            | None => None
            | Some z =>
                let b2 := byte (y * 16 + z / 4) in
                if is_pad d then
                  if is_empty rest then Some (String b1 (String b2 EmptyString)) else None
                else
                  match sextet d, decode_quanta rest with
                  | Some w, Some tail =>
                      Some (String b1 (String b2 (String (byte (z * 64 + w)) tail)))
                  | _, _ => None
                  end
            end
      | _, _ => None
      end
  | _ => None
  end.

Fixpoint drop_newlines (s : string) : string :=
  match s with
  | EmptyString => EmptyString
  | String c rest =>
      if ((N_of_ascii c =? 10) || (N_of_ascii c =? 13))%N then drop_newlines rest
      else String c (drop_newlines rest)
  end.

(** [base64.StdEncoding.DecodeString]. *)
Definition base64_DecodeString (s : string) : string + error :=
  match decode_quanta (drop_newlines s) with
  | Some data => inl data
  | None => inr (errors_New "illegal base64 data")
  end.

(** The text of a JSON string up to its closing quote, and what follows. *)
Fixpoint read_string (s : string) : option (string * string) :=
  match s with
  | EmptyString => None
  | String c rest =>
      if Ascii.eqb c "034"%char then Some (EmptyString, rest)
      else if Ascii.eqb c "092"%char then None
      else
        match read_string rest with
        | Some (text, rest') => Some (String c text, rest')
        | None => None
        end
  end.

(** The members of an object, after its opening brace. *)
Fixpoint read_members (fuel : nat) (s : string) (acc : list (string * string))
    : option (list (string * string)) :=
  match fuel, s with
  | S fuel, String q rest =>
      if Ascii.eqb q "034"%char then
        match read_string rest with
        | Some (key, String colon (String q' rest')) =>
            if Ascii.eqb colon ":"%char && Ascii.eqb q' "034"%char then
              match read_string rest' with
              | Some (value, String sep rest'') =>
                  if Ascii.eqb sep ","%char then read_members fuel rest'' (acc ++ [(key, value)])
                  else if Ascii.eqb sep "}"%char && is_empty rest''
                  then Some (acc ++ [(key, value)])
                  else None
              | _ => None
              end
            else None
        | _ => None
        end
      else None
  | _, _ => None
  end.

Definition read_object (data : string) : option (list (string * string)) :=
  match data with
  | String open rest =>
      if Ascii.eqb open "{"%char then
        if String.eqb rest "}" then Some []
        else read_members (String.length rest) rest []
      else None
  | EmptyString => None
  end.

End GoStd.

(* ===================================================================== *)
(** * Package dome: options.go, credentials.go and NewClient            *)
(* ===================================================================== *)

Module Dome.

Import Go.

(** ** options.go *)

Definition DefaultAPIURL : string := "http://localhost:8080".
Definition DefaultHeartbeatInterval : Duration := 30 * Second.

(** [clientConfig].  The last three fields are read by client.go, agent.go
    and check.go; the logger is left out. *)
Record clientConfig := {
  apiURL : string;
  apiKey : string;
  credentials : string;
  heartbeatInterval : Duration;
  disableHeartbeat : bool;
  gracefulDegradation : bool;
  disablePolicy : bool;
  policyRefresh : Duration
}.

(** An [Option] updates the configuration under construction. *)
Definition Option := clientConfig -> clientConfig.

Definition WithCredentials (token : string) : Option := fun c =>
  {| apiURL := apiURL c; apiKey := apiKey c; credentials := token;
     heartbeatInterval := heartbeatInterval c; disableHeartbeat := disableHeartbeat c;
     gracefulDegradation := gracefulDegradation c; disablePolicy := disablePolicy c;
     policyRefresh := policyRefresh c |}.

Definition WithAPIKey (key : string) : Option := fun c =>
  {| apiURL := apiURL c; apiKey := key; credentials := credentials c;
     heartbeatInterval := heartbeatInterval c; disableHeartbeat := disableHeartbeat c;
     gracefulDegradation := gracefulDegradation c; disablePolicy := disablePolicy c;
     policyRefresh := policyRefresh c |}.

Definition WithAPIURL (url : string) : Option := fun c =>
  {| apiURL := url; apiKey := apiKey c; credentials := credentials c;
     heartbeatInterval := heartbeatInterval c; disableHeartbeat := disableHeartbeat c;
     gracefulDegradation := gracefulDegradation c; disablePolicy := disablePolicy c;
     policyRefresh := policyRefresh c |}.

Definition WithHeartbeatInterval (d : Duration) : Option := fun c =>
  if 0 <? d then
    {| apiURL := apiURL c; apiKey := apiKey c; credentials := credentials c;
       heartbeatInterval := d; disableHeartbeat := disableHeartbeat c;
       gracefulDegradation := gracefulDegradation c; disablePolicy := disablePolicy c;
       policyRefresh := policyRefresh c |}
  else c.

Definition WithoutHeartbeat : Option := fun c =>
  {| apiURL := apiURL c; apiKey := apiKey c; credentials := credentials c;
     heartbeatInterval := heartbeatInterval c; disableHeartbeat := true;
     gracefulDegradation := gracefulDegradation c; disablePolicy := disablePolicy c;
     policyRefresh := policyRefresh c |}.

Definition defaultConfig : clientConfig :=
  {| apiURL := DefaultAPIURL; apiKey := ""; credentials := "";
     heartbeatInterval := DefaultHeartbeatInterval; disableHeartbeat := false;
     gracefulDegradation := false; disablePolicy := false; policyRefresh := 0 |}.

(** ** credentials.go *)

Record agentCredentials := {
  APIURL : string;
  VaultAddr : string;
  AuthMethod : string;
  RoleID : string;
  SecretID : string;
  KubeAuthRole : string;
  IAMAuthRole : string;
  OIDCRoleName : string
}.

(** ** client.go: the client and its construction *)

(** The round tripper [NewClient] settles on.  The two exchanging
    transports also receive the client's auth callback. *)
Inductive RoundTripper :=
| tokenexchange_Transport (t : TokenExchange.Transport)
| vault_Transport (t : Vault.Transport)
| bearerTransport (token : string).

(** The goroutine a cancel handle and a completion channel belong to. *)
Inductive worker :=
| heartbeat_worker (agentID : string)
| registration_worker (name : string).

(** [policy.Syncer], as far as the client holds it. *)
Record Syncer := { interval : Duration }.

(** [Client].  [httpClient] stands for both [rpc] and [httpClient], which
    share the one transport; [cancel] and [stopped] name the worker whose
    context the handle cancels and whose exit the channel signals. *)
Record Client := {
  httpClient : RoundTripper;
  config : clientConfig;
  agentID : string;
  tenantID : string;
  cancel : option worker;
  stopped : option worker;
  policyEngine : Policy.Engine;
  policySyncer : option Syncer;
  agentCtx : Policy.AgentContext;
  pendingAuthEvents : list string
}.

Definition authRequired : string :=
  "dome: authentication required (use WithCredentials, WithAPIKey, DOME_AGENT_TOKEN, DOME_API_KEY, or DOME_TOKEN)".

Section NewClient.

(** [strings.TrimSpace], [base64.StdEncoding.DecodeString] and
    [json.Unmarshal(data, &creds)]. *)
Variable TrimSpace : string -> string.
Variable base64_DecodeString : string -> string + error.
Variable json_Unmarshal : string -> agentCredentials + error.

(** [os.Getenv]. *)
Variable Getenv : string -> string.

Definition decodeToken (token : string) : option agentCredentials * option error :=
  let token := TrimSpace token in
  if is_empty token then (None, None)
  else
    match base64_DecodeString token with
    | inr _ => (None, None)
    | inl data =>
        match json_Unmarshal data with
        | inr _ => (None, None)
        | inl creds =>
            if is_empty (APIURL creds) && is_empty (VaultAddr creds) then (None, None)
            else (Some creds, None)
        end
    end.

(** The transport the credential blob selects, if any. *)
Definition credentialTransport (credToken : string) (creds : option agentCredentials)
    : option RoundTripper :=
  match creds with
  | None => None
  | Some creds =>
      if negb (is_empty (APIURL creds)) && String.eqb (AuthMethod creds) "approle" then
        Some (tokenexchange_Transport
                (TokenExchange.NewTransport
                   {| TokenExchange.APIURL := APIURL creds;
                      TokenExchange.RoleID := RoleID creds;
                      TokenExchange.SecretID := SecretID creds |}))
      else if negb (is_empty (VaultAddr creds)) && negb (is_empty (OIDCRoleName creds)) then
        let vaultCfg :=
          if String.eqb (AuthMethod creds) "kubernetes" then
            {| Vault.VaultAddr := VaultAddr creds; Vault.Role := KubeAuthRole creds;
               Vault.OIDCRole := OIDCRoleName creds; Vault.AuthMethod := "kubernetes";
               Vault.ServiceAccountTokenPath := "";
               Vault.AppRoleID := ""; Vault.AppSecretID := "" |}
          else
            {| Vault.VaultAddr := VaultAddr creds; Vault.Role := "";
               Vault.OIDCRole := OIDCRoleName creds; Vault.AuthMethod := "approle";
               Vault.ServiceAccountTokenPath := "";
               Vault.AppRoleID := RoleID creds; Vault.AppSecretID := SecretID creds |} in
        Some (vault_Transport (Vault.NewTransport vaultCfg))
      else Some (bearerTransport credToken)
  end.

Definition newClient (cfg : clientConfig) (transport : RoundTripper) : Client :=
  {| httpClient := transport; config := cfg; agentID := ""; tenantID := "";
     cancel := None; stopped := None;
     policyEngine := Policy.NewEngine; policySyncer := None;
     agentCtx := {| Policy.ID := ""; Policy.TenantID := ""; Policy.Namespace := "";
                    Policy.Capabilities := []; Policy.AllowedTools := [];
                    Policy.DeniedTools := [] |};
     pendingAuthEvents := [] |}.

Definition NewClient (opts : list Option) : Client + error :=
  let cfg := foldl (fun cfg o => o cfg) defaultConfig opts in
  let credToken := credentials cfg in
  let credToken := if is_empty credToken then Getenv "DOME_AGENT_TOKEN" else credToken in
  let decoded :=
    if is_empty credToken then inl None
    else
      match decodeToken credToken with
      | (_, Some err) => inr (errorf "decode credentials: %w" [] (Some err))
      | (creds, None) => inl (credentialTransport credToken creds)
      end in
  match decoded with
  | inr err => inr err
  | inl (Some transport) => inl (newClient cfg transport)
  | inl None =>
      let apiKey := apiKey cfg in
      let apiKey := if is_empty apiKey then Getenv "DOME_API_KEY" else apiKey in
      let apiKey := if is_empty apiKey then Getenv "DOME_TOKEN" else apiKey in
      if is_empty apiKey then inr (errors_New authRequired)
      else inl (newClient cfg (bearerTransport apiKey))
  end.




(** With none of the five sources present, construction fails. *)
Lemma NewClient_no_source (opts : list Option) :
  credentials (foldl (fun cfg o => o cfg) defaultConfig opts) = "" ->
  apiKey (foldl (fun cfg o => o cfg) defaultConfig opts) = "" ->
  Getenv "DOME_AGENT_TOKEN" = "" -> Getenv "DOME_API_KEY" = "" -> Getenv "DOME_TOKEN" = "" ->
  NewClient opts = inr (errors_New authRequired).
Proof.
  intros Hc Hk H1 H2 H3. unfold NewClient. rewrite Hc, Hk. simpl.
  rewrite H1. simpl. rewrite H2. simpl. rewrite H3. reflexivity.
Qed.

(** A credential string that selects a transport wins over every key. *)
Lemma NewClient_credentials_win (opts : list Option) (creds : agentCredentials)
    (transport : RoundTripper) :
  let cfg := foldl (fun cfg o => o cfg) defaultConfig opts in
  credentials cfg <> "" ->
  decodeToken (credentials cfg) = (Some creds, None) ->
  credentialTransport (credentials cfg) (Some creds) = Some transport ->
  NewClient opts = inl (newClient cfg transport).
Proof.
  intros cfg Hne Hdec Htr. unfold NewClient. fold cfg.
  apply is_empty_false in Hne. rewrite Hne. cbn beta iota zeta.
  rewrite Hne, Hdec, Htr. reflexivity.
Qed.

(** The environment's credential token is consulted before the explicit
    API key: whenever no credential option was given and the variable
    holds a blob that selects a transport, that transport is used, whatever
    [WithAPIKey] supplied. *)
Lemma NewClient_env_token_before_key (opts : list Option) (creds : agentCredentials)
    (transport : RoundTripper) :
  let cfg := foldl (fun cfg o => o cfg) defaultConfig opts in
  credentials cfg = "" ->
  Getenv "DOME_AGENT_TOKEN" <> "" ->
  decodeToken (Getenv "DOME_AGENT_TOKEN") = (Some creds, None) ->
  credentialTransport (Getenv "DOME_AGENT_TOKEN") (Some creds) = Some transport ->
  NewClient opts = inl (newClient cfg transport).
Proof.
  intros cfg Hc Hne Hdec Htr. unfold NewClient. fold cfg. rewrite Hc. simpl.
  apply is_empty_false in Hne. rewrite Hne, Hdec, Htr. reflexivity.
Qed.

(** A credential string that decodes to nothing is passed over: the keys
    decide, and without a key construction fails. *)
Lemma NewClient_opaque_credentials (opts : list Option) :
  let cfg := foldl (fun cfg o => o cfg) defaultConfig opts in
  credentials cfg <> "" ->
  decodeToken (credentials cfg) = (None, None) ->
  NewClient opts =
    let key := apiKey cfg in
    let key := if is_empty key then Getenv "DOME_API_KEY" else key in
    let key := if is_empty key then Getenv "DOME_TOKEN" else key in
    if is_empty key then inr (errors_New authRequired)
    else inl (newClient cfg (bearerTransport key)).
Proof.
  intros cfg Hne Hdec. unfold NewClient. fold cfg.
  apply is_empty_false in Hne. rewrite Hne. cbn beta iota zeta.
  rewrite Hne, Hdec. reflexivity.
Qed.

End NewClient.

(** ** What the construction guarantees *)

(** [bearerTransport.RoundTrip]: the request that reaches the base
    transport, a clone with the header set. *)
Definition bearerTransport_RoundTrip (token : string) (req : HTTP.Request) : HTTP.Request :=
  HTTP.Header_Set req "Authorization" ("Bearer " +:+ token).

(** The static-key transport stamps its key on every request: whatever
    [Authorization] the request came with is replaced, and nothing else
    of the request changes.  (The two exchanging transports do the
    opposite and pass such a request on as it is.) *)
Theorem bearerTransport_overwrites_Authorization (token : string) (req : HTTP.Request) :
  HTTP.Header_Get (HTTP.Header (bearerTransport_RoundTrip token req)) "Authorization"
    = "Bearer " +:+ token
  /\ (forall key, key <> "Authorization" ->
        HTTP.Header (bearerTransport_RoundTrip token req) !! key = HTTP.Header req !! key)
  /\ HTTP.Method (bearerTransport_RoundTrip token req) = HTTP.Method req
  /\ HTTP.URL (bearerTransport_RoundTrip token req) = HTTP.URL req
  /\ HTTP.ReqBody (bearerTransport_RoundTrip token req) = HTTP.ReqBody req
  /\ forall url_Parse base json_Marshal json_Decode t now,
       HTTP.Header_Get (HTTP.Header req) "Authorization" <> "" ->
       TokenExchange.RoundTrip url_Parse base json_Marshal json_Decode t now req
         = (inl req, t, []).
Proof.
  unfold bearerTransport_RoundTrip, HTTP.Header_Get, HTTP.Header_Set.
  cbn [HTTP.Header HTTP.Method HTTP.URL HTTP.ReqBody].
  split; [rewrite lookup_insert_eq; reflexivity |].
  split; [intros key Hne; apply lookup_insert_ne; congruence |].
  repeat (split; [reflexivity |]).
  intros url_Parse base json_Marshal json_Decode t now Hne.
  apply is_empty_false in Hne. unfold TokenExchange.RoundTrip, HTTP.Header_Get.
  rewrite Hne. reflexivity.
Qed.

(** Whatever the options, the environment and the decoders: a client
    whose transport is the static-key one never holds the empty key. *)
Theorem NewClient_bearer_token_not_empty
    (TrimSpace : string -> string) (base64_DecodeString : string -> string + error)
    (json_Unmarshal : string -> agentCredentials + error) (Getenv : string -> string)
    (opts : list Option) (c : Client) (token : string) :
  NewClient TrimSpace base64_DecodeString json_Unmarshal Getenv opts = inl c ->
  httpClient c = bearerTransport token ->
  token <> "".
Proof.
  unfold NewClient.
  set (cfg := foldl _ _ _).
  set (credToken := if is_empty (credentials cfg) then _ else _).
  assert (Hkeys :
    (let apiKey := apiKey cfg in
     let apiKey := if is_empty apiKey then Getenv "DOME_API_KEY" else apiKey in
     let apiKey := if is_empty apiKey then Getenv "DOME_TOKEN" else apiKey in
     if is_empty apiKey then inr (errors_New authRequired)
     else inl (newClient cfg (bearerTransport apiKey))) = inl c ->
    httpClient c = bearerTransport token -> token <> "").
  { cbn zeta.
    set (key := if is_empty (if is_empty (apiKey cfg) then _ else _) then _ else _).
    destruct (is_empty key) eqn:Hk; [discriminate |].
    intros H Ht. injection H as <-. cbn in Ht. injection Ht as <-.
    apply is_empty_false. exact Hk. }
  destruct (is_empty credToken) eqn:Hc; [exact Hkeys |].
  destruct (decodeToken _ _ _ credToken) as [creds [e |]]; [discriminate |].
  destruct (credentialTransport credToken creds) as [transport |] eqn:Htr; [| exact Hkeys].
  intros H Ht. injection H as <-. cbn in Ht. subst transport.
  unfold credentialTransport in Htr. destruct creds as [creds |]; [| discriminate].
  repeat match type of Htr with
         | (if ?b then _ else _) = _ => destruct b
         end; try discriminate.
  injection Htr as <-. apply is_empty_false. exact Hc.
Qed.

(** A credentials option that is set hides DOME_AGENT_TOKEN, whether or
    not the option holds a credential blob: the variable is not read, and
    the client built is the same whatever it holds. *)
Theorem NewClient_credentials_shadow_env_token
    (TrimSpace : string -> string) (base64_DecodeString : string -> string + error)
    (json_Unmarshal : string -> agentCredentials + error) (Getenv Getenv' : string -> string)
    (opts : list Option) :
  credentials (foldl (fun cfg o => o cfg) defaultConfig opts) <> "" ->
  (forall key, key <> "DOME_AGENT_TOKEN" -> Getenv key = Getenv' key) ->
  NewClient TrimSpace base64_DecodeString json_Unmarshal Getenv opts
  = NewClient TrimSpace base64_DecodeString json_Unmarshal Getenv' opts.
Proof.
  intros Hne Henv. apply is_empty_false in Hne. unfold NewClient. rewrite Hne.
  rewrite <- (Henv "DOME_API_KEY") by discriminate.
  rewrite <- (Henv "DOME_TOKEN") by discriminate. reflexivity.
Qed.

(** The Vault transport that a credential blob selects always logs in
    with a method the transport supports.  "kubernetes" is taken as it is,
    with the blob's Kubernetes role; every other value of [auth_method],
    the empty one included, means AppRole with the blob's role and secret
    identifiers. *)
Theorem credentialTransport_vault_method (credToken : string) (creds : agentCredentials)
    (t : Vault.Transport) :
  credentialTransport credToken (Some creds) = Some (vault_Transport t) ->
  Vault.VaultAddr (Vault.config t) = VaultAddr creds
  /\ Vault.OIDCRole (Vault.config t) = OIDCRoleName creds
  /\ ((AuthMethod creds = "kubernetes"
       /\ Vault.AuthMethod (Vault.config t) = "kubernetes"
       /\ Vault.Role (Vault.config t) = KubeAuthRole creds)
      \/ (AuthMethod creds <> "kubernetes"
          /\ Vault.AuthMethod (Vault.config t) = "approle"
          /\ Vault.AppRoleID (Vault.config t) = RoleID creds
          /\ Vault.AppSecretID (Vault.config t) = SecretID creds)).
Proof.
  unfold credentialTransport.
  destruct (negb (is_empty (APIURL creds)) && _); [discriminate |].
  destruct (negb (is_empty (VaultAddr creds)) && _); [| discriminate].
  destruct (String.eqb_spec (AuthMethod creds) "kubernetes") as [Hk | Hk];
    intros H; injection H as <-; cbn; auto 10.
Qed.

(** ** The options of options.go, in any number and order *)

(** [WithCredentialsFile]: the file is read when the option is applied,
    and a file that cannot be read leaves the configuration alone. *)
Definition WithCredentialsFile (ReadFile : string -> string + error) (path : string)
    : Option := fun c =>
  match ReadFile path with
  | inl data => WithCredentials data c
  | inr _ => c
  end.

(** The options the package exports ([WithLogger] sets the logger, which
    the configuration here does not carry). *)
Inductive exported (ReadFile : string -> string + error) : Option -> Prop :=
| exported_WithCredentials token : exported ReadFile (WithCredentials token)
| exported_WithCredentialsFile path : exported ReadFile (WithCredentialsFile ReadFile path)
| exported_WithAPIKey key : exported ReadFile (WithAPIKey key)
| exported_WithAPIURL url : exported ReadFile (WithAPIURL url)
| exported_WithHeartbeatInterval d : exported ReadFile (WithHeartbeatInterval d)
| exported_WithoutHeartbeat : exported ReadFile WithoutHeartbeat.

(** However the options are combined, the heartbeat interval of the
    configuration is positive: an interval of zero or less is ignored and
    the interval set before it, or the default of 30 s, stays. *)
Theorem heartbeatInterval_positive (ReadFile : string -> string + error)
    (opts : list Option) :
  Forall (exported ReadFile) opts ->
  0 < heartbeatInterval (foldl (fun cfg o => o cfg) defaultConfig opts).
Proof.
  assert (Hstep : forall o cfg, exported ReadFile o ->
                                0 < heartbeatInterval cfg -> 0 < heartbeatInterval (o cfg)).
  { intros o cfg Ho Hpos. destruct Ho; cbn; auto.
    - unfold WithCredentialsFile. destruct (ReadFile path); auto.
    - unfold WithHeartbeatInterval. destruct (Z.ltb_spec 0 d); auto. }
  assert (Hgen : forall cfg, Forall (exported ReadFile) opts ->
                             0 < heartbeatInterval cfg ->
                             0 < heartbeatInterval (foldl (fun cfg o => o cfg) cfg opts)).
  { induction opts as [| o opts IH]; intros cfg Hall Hpos; [exact Hpos |].
    apply Forall_cons in Hall as [Ho Hall]. cbn. apply IH; auto. }
  intros Hall. apply Hgen; [exact Hall |]. vm_compute. reflexivity.
Qed.

Lemma heartbeatInterval_positive_witness :
  heartbeatInterval
    (foldl (fun cfg o => o cfg) defaultConfig
       [WithHeartbeatInterval (5 * Second); WithoutHeartbeat; WithHeartbeatInterval (-1);
        WithHeartbeatInterval 0])
  = 5 * Second
  /\ 0 < heartbeatInterval
           (foldl (fun cfg o => o cfg) defaultConfig
              [WithHeartbeatInterval (5 * Second); WithoutHeartbeat;
               WithHeartbeatInterval (-1); WithHeartbeatInterval 0]).
Proof.
  split; [vm_compute; reflexivity |].
  apply (heartbeatInterval_positive (fun _ => inr (errors_New "no such file or directory"))).
  repeat constructor.
Defined.

(** ** The construction, run *)

(** The folding under which [encoding/json] matches the name of an object
    member to a field that has no member of its exact name: ASCII letters
    go to upper case, and the Kelvin sign (U+212A, the bytes E2 84 AA) and
    the long s (U+017F, the bytes C5 BF) go to K and S.  No other
    character folds to an ASCII one, so the bytes of the others are kept:
    a name that holds one matches none of the field tags below. *)
Fixpoint foldName (s : string) : string :=
  match s with
  | EmptyString => EmptyString
  | String c rest =>
      let n := N_of_ascii c in
      let plain :=
        String (if ((97 <=? n) && (n <=? 122))%N then ascii_of_N (n - 32) else c)
               (foldName rest) in
      match rest with
      | String d rest1 =>
          if ((n =? 197) && (N_of_ascii d =? 191))%N then String "S"%char (foldName rest1)
          else
            match rest1 with
            | String e rest2 =>
                if ((n =? 226) && (N_of_ascii d =? 132) && (N_of_ascii e =? 170))%N
                then String "K"%char (foldName rest2)
                else plain
            | EmptyString => plain
            end
      | EmptyString => plain
      end
  end.

(** [json.Unmarshal] into [agentCredentials], by the field tags: a member
    sets the field whose tag is its name, exactly or under the folding,
    and of several members for one field the last one stays. *)
Definition member (members : list (string * string)) (key : string) : string :=
  foldl (fun found kv => if String.eqb (foldName kv.1) (foldName key) then kv.2 else found)
        "" members.

Definition json_Unmarshal_creds (data : string) : agentCredentials + error :=
  match GoStd.read_object data with
  | None => inr (errors_New "json: cannot unmarshal")
  | Some members =>
      inl {| APIURL := member members "api_url";
             VaultAddr := member members "vault_addr";
             AuthMethod := member members "auth_method";
             RoleID := member members "role_id";
             SecretID := member members "secret_id";
             KubeAuthRole := member members "kube_auth_role";
             IAMAuthRole := member members "iam_auth_role";
             OIDCRoleName := member members "oidc_role_name" |}
  end.

(** The process environment as a finite map; an unset variable reads as
    the empty string. *)
Definition Getenv (env : gmap string string) (key : string) : string :=
  default "" (env !! key).

Definition NewClient_run (env : gmap string string) (opts : list Option) : Client + error :=
  NewClient GoStd.TrimSpace GoStd.base64_DecodeString json_Unmarshal_creds (Getenv env) opts.

(** The transport a construction settled on. *)
Definition transport_of (r : Client + error) : RoundTripper + error :=
  match r with
  | inl c => inl (httpClient c)
  | inr err => inr err
  end.

(** base64 of
    {"api_url":"https://api.dome.example.com","auth_method":"approle","role_id":"r1","secret_id":"s1"}. *)
Definition blob_example : string :=
  "eyJhcGlfdXJsIjoiaHR0cHM6Ly9hcGkuZG9tZS5leGFtcGxlLmNvbSIsImF1dGhfbWV0aG9kIjoiYXBwcm9sZSIsInJvbGVfaWQiOiJyMSIsInNlY3JldF9pZCI6InMxIn0=".

Definition creds_example : agentCredentials :=
  {| APIURL := "https://api.dome.example.com"; VaultAddr := ""; AuthMethod := "approle";
     RoleID := "r1"; SecretID := "s1"; KubeAuthRole := ""; IAMAuthRole := "";
     OIDCRoleName := "" |}.

Example decodeToken_blob :
  decodeToken GoStd.TrimSpace GoStd.base64_DecodeString json_Unmarshal_creds blob_example
  = (Some creds_example, None).
Proof. vm_compute. reflexivity. Qed.

(** The same blob with its member names in other cases:
    {"API_URL":...,"Auth_Method":"approle","ROLE_ID":"r1","ſecret_id":"s1"}. *)
Example decodeToken_folds_names :
  decodeToken GoStd.TrimSpace GoStd.base64_DecodeString json_Unmarshal_creds
    "eyJBUElfVVJMIjoiaHR0cHM6Ly9hcGkuZG9tZS5leGFtcGxlLmNvbSIsIkF1dGhfTWV0aG9kIjoiYXBwcm9sZSIsIlJPTEVfSUQiOiJyMSIsIsW/ZWNyZXRfaWQiOiJzMSJ9"
  = (Some creds_example, None).
Proof. vm_compute. reflexivity. Qed.

Example decodeToken_plain_key :
  decodeToken GoStd.TrimSpace GoStd.base64_DecodeString json_Unmarshal_creds "test-key"
  = (None, None).
Proof. vm_compute. reflexivity. Qed.

(** The repository's tests of the key sources, each with the other
    variables cleared. *)
Example NewClient_RequiresAuth : NewClient_run ∅ [] = inr (errors_New authRequired).
Proof. vm_compute. reflexivity. Qed.

Example NewClient_AcceptsExplicitKey :
  transport_of (NewClient_run ∅ [WithAPIKey "test-key"])
  = inl (bearerTransport "test-key").
Proof. vm_compute. reflexivity. Qed.

Example NewClient_AcceptsEnvKey :
  transport_of (NewClient_run {[ "DOME_API_KEY" := "env-key" ]} [])
  = inl (bearerTransport "env-key").
Proof. vm_compute. reflexivity. Qed.

Example NewClient_FallsBackToDomeToken :
  transport_of (NewClient_run {[ "DOME_TOKEN" := "fallback-token" ]} [])
  = inl (bearerTransport "fallback-token").
Proof. vm_compute. reflexivity. Qed.

(** C2.  An explicit API key (source 2) together with a credential blob
    in DOME_AGENT_TOKEN (source 3): the documented order gives the key,
    the code gives the token-exchange transport of the environment's blob
    and never looks at the key. *)
Theorem NewClient_env_token_outranks_api_key :
  transport_of (NewClient_run {[ "DOME_AGENT_TOKEN" := blob_example ]} [WithAPIKey "k"])
  = inl (tokenexchange_Transport
           (TokenExchange.NewTransport
              {| TokenExchange.APIURL := "https://api.dome.example.com";
                 TokenExchange.RoleID := "r1"; TokenExchange.SecretID := "s1" |}))
  /\ transport_of (NewClient_run ∅ [WithAPIKey "k"]) = inl (bearerTransport "k").
Proof. split; vm_compute; reflexivity. Qed.



(** ** The messages of the AgentRegistry service *)

Module apiv1.

Module Agent.
Record t := {
  Id : string;
  Name : string;
  Status : string;
  Capabilities : list string;
  Metadata : gmap string string
}.
End Agent.

Module RegisterAgentRequest.
Record t := {
  Name : string;
  Capabilities : list string;
  Metadata : gmap string string;
  ParentId : option string
}.
End RegisterAgentRequest.

Module RegisterAgentResponse.
Record t := { Agent : option Agent.t; Token : string }.
End RegisterAgentResponse.

Module ListAgentsRequest.
Record t := { Limit : Z }.
End ListAgentsRequest.

Module ListAgentsResponse.
Record t := { Agents : list Agent.t; Total : Z }.
End ListAgentsResponse.

End apiv1.

(** ** agent.go and check.go: the values of the public API *)

Module AgentInfo.
Record t := {
  ID : string;
  Name : string;
  Status : string;
  Capabilities : list string;
  Metadata : gmap string string;
  Token : string
}.
End AgentInfo.

Module StartOptions.
Record t := {
  Name : string;
  Description : string;
  ParentID : string;
  Capabilities : list string;
  Metadata : gmap string string
}.
End StartOptions.

Module CheckRequest.
Record t := {
  Action : string;
  Resource : string;
  ResourceType : string;
  Context : gmap string string
}.
End CheckRequest.

Module Decision.
Record t := { Allowed : bool; Reason : string; PolicyVersion : string }.
End Decision.

(** What a method of the client does besides changing the client: the
    lock and unlock of [c.mu], the RPCs it sends and waits for, the
    goroutines it starts, and its dealings with the worker's cancel handle
    and completion channel. *)
Inductive Event :=
| mu_Lock
| mu_Unlock
| RegisterAgent (name : string)
| ListAgents (limit : Z)
| ReportEvent (agentID eventType : string)
| go_reportEventForAgent (agentID eventType : string)
| go_worker (w : worker)
| call_cancel (w : worker)
| recv_stopped (ch : option worker)
| policySyncer_Stop.

Definition registrationRetryBase : Duration := 5 * Second.
Definition registrationRetryMax : Duration := 2 * Minute.

Definition agentFromProto (a : option apiv1.Agent.t) (token : string) : AgentInfo.t :=
  match a with
  | None =>
      {| AgentInfo.ID := ""; AgentInfo.Name := ""; AgentInfo.Status := "";
         AgentInfo.Capabilities := []; AgentInfo.Metadata := ∅; AgentInfo.Token := "" |}
  | Some a =>
      {| AgentInfo.ID := apiv1.Agent.Id a; AgentInfo.Name := apiv1.Agent.Name a;
         AgentInfo.Status := apiv1.Agent.Status a;
         AgentInfo.Capabilities := apiv1.Agent.Capabilities a;
         AgentInfo.Metadata := apiv1.Agent.Metadata a; AgentInfo.Token := token |}
  end.

(** ** Field updates of the client *)

Definition set_agentID (id : string) (c : Client) : Client :=
  {| httpClient := httpClient c; config := config c; agentID := id;
     tenantID := tenantID c; cancel := cancel c; stopped := stopped c;
     policyEngine := policyEngine c; policySyncer := policySyncer c;
     agentCtx := agentCtx c; pendingAuthEvents := pendingAuthEvents c |}.

Definition append_pending (eventType : string) (c : Client) : Client :=
  {| httpClient := httpClient c; config := config c; agentID := agentID c;
     tenantID := tenantID c; cancel := cancel c; stopped := stopped c;
     policyEngine := policyEngine c; policySyncer := policySyncer c;
     agentCtx := agentCtx c;
     pendingAuthEvents := pendingAuthEvents c ++ [eventType] |}.

Definition set_worker (w : worker) (c : Client) : Client :=
  {| httpClient := httpClient c; config := config c; agentID := agentID c;
     tenantID := tenantID c; cancel := Some w; stopped := Some w;
     policyEngine := policyEngine c; policySyncer := policySyncer c;
     agentCtx := agentCtx c; pendingAuthEvents := pendingAuthEvents c |}.

Definition clear_cancel (c : Client) : Client :=
  {| httpClient := httpClient c; config := config c; agentID := agentID c;
     tenantID := tenantID c; cancel := None; stopped := stopped c;
     policyEngine := policyEngine c; policySyncer := policySyncer c;
     agentCtx := agentCtx c; pendingAuthEvents := pendingAuthEvents c |}.

Definition clear_policySyncer (c : Client) : Client :=
  {| httpClient := httpClient c; config := config c; agentID := agentID c;
     tenantID := tenantID c; cancel := cancel c; stopped := stopped c;
     policyEngine := policyEngine c; policySyncer := None;
     agentCtx := agentCtx c; pendingAuthEvents := pendingAuthEvents c |}.

(** ** The methods of the client *)

Section Lifecycle.

(** The control plane: a state [B], and the RPCs of the registry that the
    methods below send, as transitions on it.  The timestamp a
    [ReportEvent] request carries is the wall clock's and is left out. *)
Variable B : Type.
Variable rpc_RegisterAgent :
  apiv1.RegisterAgentRequest.t -> B -> (apiv1.RegisterAgentResponse.t + error) * B.
Variable rpc_ListAgents :
  apiv1.ListAgentsRequest.t -> B -> (apiv1.ListAgentsResponse.t + error) * B.
Variable rpc_ReportEvent : string -> string -> B -> option error * B.

(** [cedar.Authorize], for [Check]. *)
Variable Authorize :
  gmap string Cedar.Policy -> gmap (string * string) Cedar.Entity -> Cedar.Request ->
  Cedar.Decision * Cedar.Diagnostic.

(** A method runs on the client and the control plane and extends the
    trace of what happened. *)
Record World := { client : Client; backend : B; trace : list Event }.

Definition M (A : Type) : Type := World -> A * World.

#[local] Instance M_ret : MRet M := fun A (a : A) w => (a, w).
#[local] Instance M_bind : MBind M := fun A A' (f : A -> M A') (m : M A) w =>
  let '(a, w') := m w in f a w'.

Definition emit (e : Event) : M unit := fun w =>
  (tt, {| client := client w; backend := backend w; trace := trace w ++ [e] |}).

Definition getClient : M Client := fun w => (client w, w).

Definition modifyClient (f : Client -> Client) : M unit := fun w =>
  (tt, {| client := f (client w); backend := backend w; trace := trace w |}).

Definition call_RegisterAgent (req : apiv1.RegisterAgentRequest.t)
    : M (apiv1.RegisterAgentResponse.t + error) := fun w =>
  let '(r, b) := rpc_RegisterAgent req (backend w) in
  (r, {| client := client w; backend := b;
         trace := trace w ++ [RegisterAgent (apiv1.RegisterAgentRequest.Name req)] |}).

Definition call_ListAgents (req : apiv1.ListAgentsRequest.t)
    : M (apiv1.ListAgentsResponse.t + error) := fun w =>
  let '(r, b) := rpc_ListAgents req (backend w) in
  (r, {| client := client w; backend := b;
         trace := trace w ++ [ListAgents (apiv1.ListAgentsRequest.Limit req)] |}).

Definition call_ReportEvent (agentID eventType : string) : M (option error) := fun w =>
  let '(r, b) := rpc_ReportEvent agentID eventType (backend w) in
  (r, {| client := client w; backend := b;
         trace := trace w ++ [ReportEvent agentID eventType] |}).

(** *** client.go *)

Definition AgentID : M string :=
  emit mu_Lock;; c ← getClient; emit mu_Unlock;; mret (agentID c).

Definition setAgentID (id : string) : M unit :=
  emit mu_Lock;; modifyClient (set_agentID id);; emit mu_Unlock.

(** *** events.go *)

Definition reportEventForAgent (agentID eventType : string) : M unit :=
  if is_empty agentID then mret tt
  else call_ReportEvent agentID eventType;; mret tt.

Definition reportEvent (eventType : string) : M unit :=
  agentID ← AgentID; reportEventForAgent agentID eventType.

(** The closure [authCallback] that [NewClient] hands to the transport. *)
Definition authCallback (eventType : string) : M unit :=
  emit mu_Lock;;
  c ← getClient;
  (if negb (is_empty (agentID c))
   then emit (go_reportEventForAgent (agentID c) eventType)
   else modifyClient (append_pending eventType));;
  emit mu_Unlock.

(** [Close]; the value returned is the error, always nil. *)
Definition Close : M (option error) :=
  emit mu_Lock;;
  c ← getClient;
  match policySyncer c with
  | Some _ => emit policySyncer_Stop;; modifyClient clear_policySyncer
  | None => mret tt
  end;;
  c ← getClient;
  match cancel c with
  | Some w =>
      (if negb (is_empty (agentID c))
       then reportEventForAgent (agentID c) "agent.stopped"
       else mret tt);;
      emit (call_cancel w);;
      emit (recv_stopped (stopped c));;
      modifyClient clear_cancel
  | None => mret tt
  end;;
  emit mu_Unlock;;
  mret None.

(** *** heartbeat.go *)

(** [startHeartbeat]; the loop itself runs in the goroutine started. *)
Definition startHeartbeat (agentID : string) : M unit :=
  emit mu_Lock;;
  c ← getClient;
  match cancel c with
  | Some w => emit (call_cancel w);; emit (recv_stopped (stopped c))
  | None => mret tt
  end;;
  modifyClient (set_worker (heartbeat_worker agentID));;
  emit (go_worker (heartbeat_worker agentID));;
  emit mu_Unlock.

(** *** agent.go *)

Definition findExistingAgent (name : string) : M (AgentInfo.t + error) :=
  r ← call_ListAgents {| apiv1.ListAgentsRequest.Limit := 100 |};
  match r with
  | inr err =>
      mret (inr (errorf "list agents for idempotent registration: %w" [] (Some err)))
  | inl resp =>
      match List.find (fun a => String.eqb (apiv1.Agent.Name a) name)
                      (apiv1.ListAgentsResponse.Agents resp) with
      | Some a => mret (inl (agentFromProto (Some a) ""))
      | None =>
          mret (inr (errorf "agent %q already exists but could not be found" [name] None))
      end
  end.

(** The request [doRegister] builds from the options. *)
Definition registerRequest (opts : StartOptions.t) : apiv1.RegisterAgentRequest.t :=
  {| apiv1.RegisterAgentRequest.Name := StartOptions.Name opts;
     apiv1.RegisterAgentRequest.Capabilities := StartOptions.Capabilities opts;
     apiv1.RegisterAgentRequest.Metadata := StartOptions.Metadata opts;
     apiv1.RegisterAgentRequest.ParentId :=
       if is_empty (StartOptions.ParentID opts) then None
       else Some (StartOptions.ParentID opts) |}.

Definition doRegister (opts : StartOptions.t) : M (AgentInfo.t + error) :=
  let req := registerRequest opts in
  r ← call_RegisterAgent req;
  match r with
  | inr err =>
      if Code_eqb (CodeOf err) CodeAlreadyExists
      then findExistingAgent (StartOptions.Name opts)
      else mret (inr (errorf "register agent: %w" [] (Some err)))
  | inl resp =>
      mret (inl (agentFromProto (apiv1.RegisterAgentResponse.Agent resp)
                                (apiv1.RegisterAgentResponse.Token resp)))
  end.

(** [startBackgroundRegistration]; the retries run in the goroutine. *)
Definition startBackgroundRegistration (opts : StartOptions.t) : M unit :=
  emit mu_Lock;;
  c ← getClient;
  match cancel c with
  | Some w => emit (call_cancel w);; emit (recv_stopped (stopped c))
  | None => mret tt
  end;;
  modifyClient (set_worker (registration_worker (StartOptions.Name opts)));;
  emit (go_worker (registration_worker (StartOptions.Name opts)));;
  emit mu_Unlock.

(** One round of the registration worker: the function that
    [startBackgroundRegistration] hands to [retryWithBackoff]. *)
Definition registrationAttempt (opts : StartOptions.t) : M (option error) :=
  r ← doRegister opts;
  match r with
  | inr regErr => mret (Some regErr)
  | inl info => setAgentID (AgentInfo.ID info);; mret None
  end.

Definition placeholder (name : string) : AgentInfo.t :=
  {| AgentInfo.ID := ""; AgentInfo.Name := name; AgentInfo.Status := "";
     AgentInfo.Capabilities := []; AgentInfo.Metadata := ∅; AgentInfo.Token := "" |}.

Definition Start (opts : StartOptions.t) : M (AgentInfo.t + error) :=
  if is_empty (StartOptions.Name opts) then
    mret (inr (errorf "agent name is required" [] None))
  else
    r ← doRegister opts;
    c ← getClient;
    match r with
    | inr err =>
        if gracefulDegradation (config c) then
          startBackgroundRegistration opts;;
          mret (inl (placeholder (StartOptions.Name opts)))
        else mret (inr err)
    | inl info =>
        setAgentID (AgentInfo.ID info);;
        reportEvent "agent.started";;
        (if negb (disableHeartbeat (config c))
         then startHeartbeat (AgentInfo.ID info)
         else mret tt);;
        mret (inl info)
    end.

(** *** check.go *)

Definition Check (req : CheckRequest.t) : M (Decision.t * option error) :=
  c ← getClient;
  if disablePolicy (config c) || negb (Policy.HasPolicies (policyEngine c)) then
    mret ({| Decision.Allowed := true; Decision.Reason := "no policy bundle loaded";
             Decision.PolicyVersion := "" |}, None)
  else
    emit mu_Lock;;
    c ← getClient;
    emit mu_Unlock;;
    let requiredCap :=
      default (CheckRequest.Action req) (CheckRequest.Context req !! "required_capability") in
    let input :=
      {| Policy.Action := CheckRequest.Action req;
         Policy.Resource := CheckRequest.Resource req;
         Policy.ResourceType := CheckRequest.ResourceType req;
         Policy.RequiredCapability := requiredCap;
         Policy.Context := CheckRequest.Context req |} in
    let d := Policy.Evaluate Authorize (policyEngine c) (agentCtx c) input in
    mret ({| Decision.Allowed := Policy.Allow d; Decision.Reason := Policy.Reason d;
             Decision.PolicyVersion := Policy.PolicyVersion d |}, None).

(** Runs the monadic plumbing of a method applied to a world. *)
Ltac run_m :=
  unfold mbind, mret, M_bind, M_ret, emit, getClient, modifyClient; cbn.

(** *** The pending queue *)

(** Without an agent identifier the callback appends the event kind to the
    queue and starts nothing. *)
Lemma authCallback_queues (eventType : string) (w : World) :
  agentID (client w) = "" ->
  authCallback eventType w =
    (tt, {| client := append_pending eventType (client w); backend := backend w;
            trace := (trace w ++ [mu_Lock]) ++ [mu_Unlock] |}).
Proof. intros H. unfold authCallback. run_m. rewrite H. reflexivity. Qed.

(** With one it starts the report and leaves the queue alone. *)
Lemma authCallback_dispatches (eventType : string) (w : World) :
  agentID (client w) <> "" ->
  authCallback eventType w =
    (tt, {| client := client w; backend := backend w;
            trace := ((trace w ++ [mu_Lock])
                        ++ [go_reportEventForAgent (agentID (client w)) eventType])
                       ++ [mu_Unlock] |}).
Proof.
  intros H. apply is_empty_false in H.
  unfold authCallback. run_m. rewrite H. reflexivity.
Qed.

(** [setAgentID] stores the identifier and nothing else: the queue keeps
    its events, the control plane hears nothing, no goroutine starts. *)
Lemma setAgentID_keeps_queue (id : string) (w : World) :
  setAgentID id w =
    (tt, {| client := set_agentID id (client w); backend := backend w;
            trace := (trace w ++ [mu_Lock]) ++ [mu_Unlock] |}).
Proof. reflexivity. Qed.

(** *** Close *)

(** What [Close] does between taking and releasing the lock. *)
Definition Close_steps (c : Client) : list Event :=
  match policySyncer c with Some _ => [policySyncer_Stop] | None => [] end
  ++ match cancel c with
     | Some wk =>
         (if is_empty (agentID c) then [] else [ReportEvent (agentID c) "agent.stopped"])
         ++ [call_cancel wk; recv_stopped (stopped c)]
     | None => []
     end.

(** Whether [Close] sends "agent.stopped": a cancel handle is set and the
    agent identifier is not empty. *)
Definition Close_reports (c : Client) : bool :=
  match cancel c with
  | Some _ => negb (is_empty (agentID c))
  | None => false
  end.

(** C6.  [Close] returns nil on every client, whatever the control plane
    answers.  Between [Lock] and [Unlock] it stops the policy syncer if
    there is one and, if the cancel handle is set, sends "agent.stopped"
    and waits for the answer when the agent identifier is not empty, calls
    the handle, receives from the completion channel and clears the
    handle, in this order.  The control plane sees that one RPC and
    nothing else; without a cancel handle it sees nothing, agent
    identifier or not.  Afterwards the client holds neither syncer nor
    handle and is otherwise as before, and a second [Close] returns nil
    and only takes and releases the lock. *)
Theorem Close_stops_once (w : World) :
  exists w',
    Close w = (None, w')
    /\ trace w' = trace w ++ [mu_Lock] ++ Close_steps (client w) ++ [mu_Unlock]
    /\ backend w' =
         (if Close_reports (client w)
          then (rpc_ReportEvent (agentID (client w)) "agent.stopped" (backend w)).2
          else backend w)
    /\ client w' = clear_cancel (clear_policySyncer (client w))
    /\ Close w' =
         (None, {| client := client w'; backend := backend w';
                   trace := trace w' ++ [mu_Lock; mu_Unlock] |}).
Proof.
  destruct w as [c b tr].
  unfold Close, Close_steps, Close_reports, reportEventForAgent, call_ReportEvent. run_m.
  destruct c as [hc cfg id tn [wk |] st pe [sy |] ac pend]; cbn;
    destruct (is_empty id) eqn:He; cbn;
    try destruct (rpc_ReportEvent id "agent.stopped" b) as [r b'] eqn:Hr; cbn;
    eexists; (split; [reflexivity |]); cbn;
    repeat split; rewrite <- ?app_assoc; reflexivity.
Qed.

(** A client that never started a worker has nothing to stop. *)
Lemma Close_idle (w : World) :
  cancel (client w) = None -> policySyncer (client w) = None ->
  Close w = (None, {| client := client w; backend := backend w;
                      trace := trace w ++ [mu_Lock; mu_Unlock] |}).
Proof.
  intros Hc Hs. destruct w as [c b tr]. simpl in *.
  unfold Close. run_m. rewrite Hs. cbn. rewrite Hc. cbn.
  rewrite <- app_assoc. reflexivity.
Qed.

(** *** Check *)

(** C9.  While policy is disabled, or while the engine holds no policy,
    [Check] answers allow with the reason "no policy bundle loaded" and no
    policy version.  It returns before it takes the lock or builds a
    request: the world is untouched, and the answer is the same for every
    authorizer. *)
Theorem Check_fail_open (req : CheckRequest.t) (w : World) :
  disablePolicy (config (client w)) = true \/ Policy.policySet (policyEngine (client w)) = ∅ ->
  Check req w =
    ({| Decision.Allowed := true; Decision.Reason := "no policy bundle loaded";
        Decision.PolicyVersion := "" |}, None, w).
Proof.
  intros H. unfold Check. run_m.
  assert (Hcond : disablePolicy (config (client w))
                  || negb (Policy.HasPolicies (policyEngine (client w))) = true).
  { destruct H as [-> | He]; [reflexivity |].
    unfold Policy.HasPolicies, Policy.PolicyCount. rewrite He, map_size_empty.
    apply orb_true_r. }
  rewrite Hcond. reflexivity.
Qed.

(** *** Registration by name *)

(** The test [findExistingAgent] applies to a listed agent. *)
Definition named (name : string) (a : apiv1.Agent.t) : bool :=
  String.eqb (apiv1.Agent.Name a) name.




Lemma doRegister_registered (opts : StartOptions.t) (w : World)
    (resp : apiv1.RegisterAgentResponse.t) (b1 : B) :
  rpc_RegisterAgent (registerRequest opts) (backend w) = (inl resp, b1) ->
  doRegister opts w =
    (inl (agentFromProto (apiv1.RegisterAgentResponse.Agent resp)
                         (apiv1.RegisterAgentResponse.Token resp)),
     {| client := client w; backend := b1;
        trace := trace w ++ [RegisterAgent (StartOptions.Name opts)] |}).
Proof.
  intros Hreg. unfold doRegister, call_RegisterAgent. run_m. rewrite Hreg. reflexivity.
Qed.





(** A method that leaves the queue of pending events as it found it. *)
Definition keeps_queue {A : Type} (m : M A) : Prop :=
  forall w, pendingAuthEvents (client (m w).2) = pendingAuthEvents (client w).

Lemma keeps_ret {A : Type} (a : A) : keeps_queue (mret a).
Proof. intros w. reflexivity. Qed.

Lemma keeps_bind {A A' : Type} (m : M A) (f : A -> M A') :
  keeps_queue m -> (forall a, keeps_queue (f a)) -> keeps_queue (m ≫= f).
Proof.
  intros Hm Hf w. unfold mbind, M_bind.
  specialize (Hm w). destruct (m w) as [a w'].
  rewrite (Hf a w'). exact Hm.
Qed.

Lemma keeps_emit (e : Event) : keeps_queue (emit e).
Proof. intros w. reflexivity. Qed.

Lemma keeps_getClient : keeps_queue getClient.
Proof. intros w. reflexivity. Qed.

Lemma keeps_modifyClient (f : Client -> Client) :
  (forall c, pendingAuthEvents (f c) = pendingAuthEvents c) ->
  keeps_queue (modifyClient f).
Proof. intros Hf w. apply Hf. Qed.

Lemma keeps_call_RegisterAgent (req : apiv1.RegisterAgentRequest.t) :
  keeps_queue (call_RegisterAgent req).
Proof. intros w. unfold call_RegisterAgent. destruct (rpc_RegisterAgent _ _). reflexivity. Qed.

Lemma keeps_call_ListAgents (req : apiv1.ListAgentsRequest.t) :
  keeps_queue (call_ListAgents req).
Proof. intros w. unfold call_ListAgents. destruct (rpc_ListAgents _ _). reflexivity. Qed.

Lemma keeps_call_ReportEvent (agentID eventType : string) :
  keeps_queue (call_ReportEvent agentID eventType).
Proof. intros w. unfold call_ReportEvent. destruct (rpc_ReportEvent _ _ _). reflexivity. Qed.

Ltac keeps_queue_step :=
  first
    [ apply keeps_ret | apply keeps_emit | apply keeps_getClient
    | apply keeps_call_RegisterAgent | apply keeps_call_ListAgents
    | apply keeps_call_ReportEvent
    | apply keeps_modifyClient; intros; reflexivity
    | apply keeps_bind; [| intros]
    | match goal with
      | |- keeps_queue (if ?b then _ else _) => destruct b
      | |- keeps_queue (match ?x with _ => _ end) => destruct x
      end ].

(** No path of [Start] reads or empties the queue of pending events, and
    neither does [setAgentID], in [Start] or in the registration worker. *)
Lemma Start_keeps_queue (opts : StartOptions.t) : keeps_queue (Start opts).
Proof.
  unfold Start, doRegister, findExistingAgent, startBackgroundRegistration, reportEvent,
    AgentID, reportEventForAgent, startHeartbeat, setAgentID.
  repeat keeps_queue_step.
Qed.

Lemma setAgentID_keeps (id : string) : keeps_queue (setAgentID id).
Proof. unfold setAgentID. repeat keeps_queue_step. Qed.

(** Nor does the registration worker when its attempt succeeds. *)
Lemma registrationAttempt_keeps_queue (opts : StartOptions.t) :
  keeps_queue (registrationAttempt opts).
Proof.
  unfold registrationAttempt, doRegister, findExistingAgent, setAgentID.
  repeat keeps_queue_step.
Qed.

(** The transport's callback, called once for each of [events] in turn. *)
Fixpoint callbacks (events : list string) : M unit :=
  match events with
  | [] => mret tt
  | e :: rest => authCallback e;; callbacks rest
  end.

(** A stretch of trace in which the client only took and released its
    lock. *)
Definition quiet (tr : list Event) : Prop :=
  Forall (fun e => e = mu_Lock \/ e = mu_Unlock) tr.

(** Events that arrive before the agent identifier exists are all kept, in
    the order of their arrival, and nothing is sent meanwhile. *)
Lemma callbacks_queue (events : list string) (w : World) :
  agentID (client w) = "" ->
  exists tr,
    quiet tr /\
    callbacks events w =
      (tt, {| client :=
                {| httpClient := httpClient (client w); config := config (client w);
                   agentID := ""; tenantID := tenantID (client w);
                   cancel := cancel (client w); stopped := stopped (client w);
                   policyEngine := policyEngine (client w);
                   policySyncer := policySyncer (client w);
                   agentCtx := agentCtx (client w);
                   pendingAuthEvents := pendingAuthEvents (client w) ++ events |};
              backend := backend w; trace := trace w ++ tr |}).
Proof.
  revert w. induction events as [| e rest IH]; intros [c b tr0] Hid; simpl in Hid.
  - exists []. split; [constructor |]. cbn. rewrite !app_nil_r.
    destruct c; simpl in *; subst; reflexivity.
  - cbn [callbacks]. unfold mbind at 1, M_bind.
    rewrite authCallback_queues by exact Hid. cbn [client backend trace].
    destruct (IH {| client := append_pending e c; backend := b;
                    trace := (tr0 ++ [mu_Lock]) ++ [mu_Unlock] |} Hid)
      as (tr & Hq & Hrun).
    exists ([mu_Lock; mu_Unlock] ++ tr). split.
    + apply Forall_cons. split; [left; reflexivity |].
      apply Forall_cons. split; [right; reflexivity | exact Hq].
    + rewrite Hrun. cbn. rewrite <- !app_assoc. reflexivity.
Qed.

(** *** Start, path by path *)

(** Registration talks to the control plane and leaves the client alone. *)
Lemma doRegister_client (opts : StartOptions.t) (w : World) :
  client (doRegister opts w).2 = client w.
Proof.
  unfold doRegister, findExistingAgent, call_RegisterAgent, call_ListAgents. run_m.
  destruct (rpc_RegisterAgent _ _) as [[resp | err] b1]; cbn; [reflexivity |].
  destruct (Code_eqb _ _); cbn; [| reflexivity].
  destruct (rpc_ListAgents _ _) as [[listed | e] b2]; cbn; [| reflexivity].
  destruct (List.find _ _); reflexivity.
Qed.

(** Without a name [Start] fails on the spot, also under graceful
    degradation: no request is sent, no lock taken, no worker started. *)
Theorem Start_requires_name (opts : StartOptions.t) (w : World) :
  StartOptions.Name opts = "" ->
  Start opts w = (inr (errorf "agent name is required" [] None), w).
Proof. intros H. unfold Start. rewrite H. reflexivity. Qed.

(** What [startHeartbeat] and [startBackgroundRegistration] do between
    [Lock] and [Unlock] to make [wk] the client's worker: a worker already
    there is cancelled and awaited first. *)
Definition restart_steps (c : Client) (wk : worker) : list Event :=
  match cancel c with
  | Some old => [call_cancel old; recv_stopped (stopped c)]
  | None => []
  end ++ [go_worker wk].

(** Under graceful degradation a registration that fails, for whatever
    reason, is no error of [Start]: it returns a placeholder that carries
    the name only, the agent identifier stays as it was, and a
    registration worker has replaced the client's worker. *)
Theorem Start_degrades_gracefully (opts : StartOptions.t) (w w1 : World) (err : error) :
  StartOptions.Name opts <> "" ->
  gracefulDegradation (config (client w)) = true ->
  doRegister opts w = (inr err, w1) ->
  exists w',
    Start opts w = (inl (placeholder (StartOptions.Name opts)), w')
    /\ agentID (client w') = agentID (client w)
    /\ cancel (client w') = Some (registration_worker (StartOptions.Name opts))
    /\ backend w' = backend w1
    /\ trace w' =
         trace w1 ++ [mu_Lock]
           ++ restart_steps (client w) (registration_worker (StartOptions.Name opts))
           ++ [mu_Unlock].
Proof.
  intros Hname Hgd Hreg. apply is_empty_false in Hname.
  pose proof (doRegister_client opts w) as Hc. rewrite Hreg in Hc. cbn in Hc.
  unfold Start. rewrite Hname. run_m. rewrite Hreg. cbn. rewrite Hc, Hgd.
  unfold startBackgroundRegistration, restart_steps. run_m. rewrite Hc.
  destruct (cancel (client w)); cbn;
    eexists; (split; [reflexivity |]); cbn; rewrite <- ?app_assoc; auto.
Qed.

(** When the control plane registers the agent, [Start] returns the
    identity of the answer and stores its identifier; it reports
    "agent.started" unless that identifier is empty (an answer without an
    agent gives the empty identity), and unless the heartbeat is disabled
    it makes a heartbeat worker for the identifier the client's worker. *)
Theorem Start_registers (opts : StartOptions.t) (w : World)
    (resp : apiv1.RegisterAgentResponse.t) (b1 : B) :
  StartOptions.Name opts <> "" ->
  rpc_RegisterAgent (registerRequest opts) (backend w) = (inl resp, b1) ->
  let info := agentFromProto (apiv1.RegisterAgentResponse.Agent resp)
                             (apiv1.RegisterAgentResponse.Token resp) in
  exists w',
    Start opts w = (inl info, w')
    /\ agentID (client w') = AgentInfo.ID info
    /\ cancel (client w') =
         (if disableHeartbeat (config (client w)) then cancel (client w)
          else Some (heartbeat_worker (AgentInfo.ID info)))
    /\ trace w' =
         trace w ++ [RegisterAgent (StartOptions.Name opts); mu_Lock; mu_Unlock;
                     mu_Lock; mu_Unlock]
           ++ (if is_empty (AgentInfo.ID info) then []
               else [ReportEvent (AgentInfo.ID info) "agent.started"])
           ++ (if disableHeartbeat (config (client w)) then []
               else [mu_Lock]
                      ++ restart_steps (client w) (heartbeat_worker (AgentInfo.ID info))
                      ++ [mu_Unlock]).
Proof.
  intros Hname Hreg info. apply is_empty_false in Hname.
  pose proof (doRegister_registered opts w resp b1 Hreg) as Hdo. fold info in Hdo.
  unfold Start. rewrite Hname. run_m. rewrite Hdo. cbn.
  unfold reportEvent, AgentID, reportEventForAgent, call_ReportEvent, startHeartbeat,
    setAgentID, restart_steps. run_m.
  destruct (is_empty (AgentInfo.ID info)); cbn;
    try destruct (rpc_ReportEvent _ _ _) as [r b']; cbn;
    destruct (disableHeartbeat (config (client w))); cbn;
    destruct (cancel (client w)) eqn:Hcancel; cbn;
    eexists; (split; [reflexivity |]); cbn; rewrite <- ?app_assoc;
    repeat split; auto.
Qed.

(** Without graceful degradation the error of a failed registration
    reaches the caller wrapped with "%w": [connect.CodeOf] still answers
    the code of the RPC that failed, be it [RegisterAgent] or, after an
    "already exists", [ListAgents].  The client is left as it was. *)
Theorem Start_error_keeps_code (opts : StartOptions.t) (w : World) :
  StartOptions.Name opts <> "" ->
  gracefulDegradation (config (client w)) = false ->
  (forall err b1,
     rpc_RegisterAgent (registerRequest opts) (backend w) = (inr err, b1) ->
     CodeOf err <> CodeAlreadyExists ->
     exists e w',
       Start opts w = (inr e, w')
       /\ e = errorf "register agent: %w" [] (Some err)
       /\ CodeOf e = CodeOf err
       /\ client w' = client w
       /\ trace w' = trace w ++ [RegisterAgent (StartOptions.Name opts)])
  /\
  (forall err b1 lerr b2,
     rpc_RegisterAgent (registerRequest opts) (backend w) = (inr err, b1) ->
     CodeOf err = CodeAlreadyExists ->
     rpc_ListAgents {| apiv1.ListAgentsRequest.Limit := 100 |} b1 = (inr lerr, b2) ->
     exists e w',
       Start opts w = (inr e, w')
       /\ e = errorf "list agents for idempotent registration: %w" [] (Some lerr)
       /\ CodeOf e = CodeOf lerr
       /\ client w' = client w
       /\ trace w' = trace w ++ [RegisterAgent (StartOptions.Name opts); ListAgents 100]).
Proof.
  intros Hname Hgd. apply is_empty_false in Hname. split.
  - intros err b1 Hreg Hcode.
    assert (Hneq : Code_eqb (CodeOf err) CodeAlreadyExists = false)
      by (destruct (CodeOf err); try reflexivity; contradiction Hcode; reflexivity).
    unfold Start, doRegister, call_RegisterAgent. rewrite Hname. run_m.
    rewrite Hreg. cbn. rewrite Hneq. cbn. rewrite Hgd.
    eexists _, _. split; [reflexivity |]. auto.
  - intros err b1 lerr b2 Hreg Hcode Hlist.
    unfold Start, doRegister, findExistingAgent, call_RegisterAgent, call_ListAgents.
    rewrite Hname. run_m. rewrite Hreg. cbn. rewrite Hcode. cbn. rewrite Hlist. cbn.
    rewrite Hgd. eexists _, _. split; [reflexivity |]. cbn.
    rewrite <- app_assoc. auto.
Qed.

(** [opts] with another description. *)
Definition with_Description (opts : StartOptions.t) (description : string) : StartOptions.t :=
  {| StartOptions.Name := StartOptions.Name opts;
     StartOptions.Description := description;
     StartOptions.ParentID := StartOptions.ParentID opts;
     StartOptions.Capabilities := StartOptions.Capabilities opts;
     StartOptions.Metadata := StartOptions.Metadata opts |}.

(** The description among the options is never used: the registration
    request has no place for it, so whatever it says, [Start] sends the
    same requests and ends in the same way. *)
Theorem Start_ignores_Description (opts : StartOptions.t) (description : string) (w : World) :
  Start (with_Description opts description) w = Start opts w.
Proof. reflexivity. Qed.

(** *** One worker at a time *)

Definition worker_eqb (a b : worker) : bool :=
  match a, b with
  | heartbeat_worker x, heartbeat_worker y => String.eqb x y
  | registration_worker x, registration_worker y => String.eqb x y
  | _, _ => false
  end.

Lemma worker_eqb_refl (a : worker) : worker_eqb a a = true.
Proof. destruct a; apply String.eqb_refl. Qed.

(** The goroutines a trace has started with [go] and not yet seen exit:
    a receive from the completion channel of a worker returns once that
    worker has closed it, which is the last thing the worker does. *)
Definition running_step (l : list worker) (e : Event) : list worker :=
  match e with
  | go_worker wk => l ++ [wk]
  | recv_stopped (Some wk) => List.filter (fun x => negb (worker_eqb wk x)) l
  | _ => l
  end.

Definition running (tr : list Event) : list worker := foldl running_step [] tr.

Lemma running_snoc (tr : list Event) (e : Event) :
  running (tr ++ [e]) = running_step (running tr) e.
Proof. unfold running. rewrite foldl_app. reflexivity. Qed.

(** A receive from a nil channel blocks for ever. *)
Definition never_blocked (tr : list Event) : Prop := recv_stopped None ∉ tr.

Lemma never_blocked_snoc (tr : list Event) (e : Event) :
  never_blocked tr -> e <> recv_stopped None -> never_blocked (tr ++ [e]).
Proof.
  unfold never_blocked. intros Htr He Hin.
  apply elem_of_app in Hin as [Hin | Hin]; [exact (Htr Hin) |].
  apply list_elem_of_singleton in Hin. symmetry in Hin. exact (He Hin).
Qed.

(** The client's handle and the trace agree: the worker behind the cancel
    handle is the one goroutine running, its completion channel is the one
    the client holds, and without a handle nothing runs; and no receive
    was made from a channel that does not exist. *)
Definition one_worker (w : World) : Prop :=
  never_blocked (trace w)
  /\ match cancel (client w) with
     | Some wk => running (trace w) = [wk] /\ stopped (client w) = Some wk
     | None => running (trace w) = []
     end.

Definition keeps_worker {A : Type} (m : M A) : Prop :=
  forall w, one_worker w -> one_worker (m w).2.

(** A method that neither touches the handle nor starts or awaits a
    worker. *)
Definition worker_neutral {A : Type} (m : M A) : Prop :=
  forall w,
    cancel (client (m w).2) = cancel (client w)
    /\ stopped (client (m w).2) = stopped (client w)
    /\ running (trace (m w).2) = running (trace w)
    /\ (never_blocked (trace w) -> never_blocked (trace (m w).2)).

Lemma neutral_keeps {A : Type} (m : M A) : worker_neutral m -> keeps_worker m.
Proof.
  intros Hn w [Hnb Hw]. destruct (Hn w) as (Hc & Hs & Hr & Hb).
  unfold one_worker in *. rewrite Hc, Hs, Hr. auto.
Qed.

Lemma neutral_ret {A : Type} (a : A) : worker_neutral (mret a).
Proof. intros w. auto. Qed.

Lemma neutral_bind {A A' : Type} (m : M A) (f : A -> M A') :
  worker_neutral m -> (forall a, worker_neutral (f a)) -> worker_neutral (m ≫= f).
Proof.
  intros Hm Hf w. unfold mbind, M_bind.
  destruct (Hm w) as (Hc & Hs & Hr & Hb). destruct (m w) as [a w'].
  destruct (Hf a w') as (Hc' & Hs' & Hr' & Hb'). cbn in *.
  rewrite Hc', Hs', Hr'. repeat split; auto.
Qed.

Lemma keeps_worker_bind {A A' : Type} (m : M A) (f : A -> M A') :
  keeps_worker m -> (forall a, keeps_worker (f a)) -> keeps_worker (m ≫= f).
Proof.
  intros Hm Hf w Hw. unfold mbind, M_bind.
  specialize (Hm w Hw). destruct (m w) as [a w']. exact (Hf a w' Hm).
Qed.

Lemma neutral_emit (e : Event) :
  (forall l, running_step l e = l) -> e <> recv_stopped None -> worker_neutral (emit e).
Proof.
  intros He Hne w. unfold emit. cbn. rewrite running_snoc, He.
  repeat split. intros Hnb. apply never_blocked_snoc; assumption.
Qed.

Lemma neutral_getClient : worker_neutral getClient.
Proof. intros w. auto. Qed.

Lemma neutral_modifyClient (f : Client -> Client) :
  (forall c, cancel (f c) = cancel c /\ stopped (f c) = stopped c) ->
  worker_neutral (modifyClient f).
Proof. intros Hf w. destruct (Hf (client w)). cbn. auto. Qed.

Lemma neutral_call_RegisterAgent (req : apiv1.RegisterAgentRequest.t) :
  worker_neutral (call_RegisterAgent req).
Proof.
  intros w. unfold call_RegisterAgent. destruct (rpc_RegisterAgent _ _). cbn.
  rewrite running_snoc. repeat split.
  intros Hnb. apply never_blocked_snoc; [assumption | discriminate].
Qed.

Lemma neutral_call_ListAgents (req : apiv1.ListAgentsRequest.t) :
  worker_neutral (call_ListAgents req).
Proof.
  intros w. unfold call_ListAgents. destruct (rpc_ListAgents _ _). cbn.
  rewrite running_snoc. repeat split.
  intros Hnb. apply never_blocked_snoc; [assumption | discriminate].
Qed.

Lemma neutral_call_ReportEvent (agentID eventType : string) :
  worker_neutral (call_ReportEvent agentID eventType).
Proof.
  intros w. unfold call_ReportEvent. destruct (rpc_ReportEvent _ _ _). cbn.
  rewrite running_snoc. repeat split.
  intros Hnb. apply never_blocked_snoc; [assumption | discriminate].
Qed.

Ltac neutral_step :=
  first
    [ apply neutral_ret | apply neutral_getClient
    | apply neutral_emit; [intros; reflexivity | discriminate]
    | apply neutral_call_RegisterAgent | apply neutral_call_ListAgents
    | apply neutral_call_ReportEvent
    | apply neutral_modifyClient; intros; split; reflexivity
    | apply neutral_bind; [| intros]
    | match goal with
      | |- worker_neutral (if ?b then _ else _) => destruct b
      | |- worker_neutral (match ?x with _ => _ end) => destruct x
      end ].

Lemma neutral_doRegister (opts : StartOptions.t) : worker_neutral (doRegister opts).
Proof. unfold doRegister, findExistingAgent. repeat neutral_step. Qed.

Lemma neutral_setAgentID (id : string) : worker_neutral (setAgentID id).
Proof. unfold setAgentID. repeat neutral_step. Qed.

Lemma neutral_reportEventForAgent (agentID eventType : string) :
  worker_neutral (reportEventForAgent agentID eventType).
Proof. unfold reportEventForAgent. repeat neutral_step. Qed.

Lemma neutral_reportEvent (eventType : string) : worker_neutral (reportEvent eventType).
Proof. unfold reportEvent, AgentID, reportEventForAgent. repeat neutral_step. Qed.

Lemma neutral_authCallback (eventType : string) : worker_neutral (authCallback eventType).
Proof. unfold authCallback. repeat neutral_step. Qed.

Lemma neutral_Check (req : CheckRequest.t) : worker_neutral (Check req).
Proof. unfold Check. repeat neutral_step. Qed.

(** Making [wk] the worker, as the two start functions do it. *)
Lemma restart_keeps_worker (wk : worker) (w : World) :
  one_worker w ->
  one_worker
    {| client := set_worker wk (client w); backend := backend w;
       trace := ((trace w ++ [mu_Lock]) ++ restart_steps (client w) wk) ++ [mu_Unlock] |}.
Proof.
  unfold one_worker, restart_steps. cbn [client trace cancel stopped set_worker].
  destruct (cancel (client w)) as [old |].
  - intros (Hnb & Hrun & Hst). rewrite Hst.
    change ([call_cancel old; recv_stopped (Some old)] ++ [go_worker wk])
      with ([call_cancel old] ++ [recv_stopped (Some old)] ++ [go_worker wk]).
    rewrite !app_assoc. split.
    + repeat (apply never_blocked_snoc; [| discriminate]). exact Hnb.
    + split; [| reflexivity].
      rewrite !running_snoc. rewrite Hrun. cbn.
      rewrite worker_eqb_refl. reflexivity.
  - intros (Hnb & Hrun). cbn [app]. split.
    + repeat (apply never_blocked_snoc; [| discriminate]). exact Hnb.
    + split; [| reflexivity]. rewrite !running_snoc, Hrun. reflexivity.
Qed.

Lemma keeps_startHeartbeat (agentID : string) : keeps_worker (startHeartbeat agentID).
Proof.
  intros w Hw. pose proof (restart_keeps_worker (heartbeat_worker agentID) w Hw) as H.
  unfold startHeartbeat, restart_steps in *. run_m.
  destruct (cancel (client w)); cbn in *; rewrite <- ?app_assoc in *; exact H.
Qed.

Lemma keeps_startBackgroundRegistration (opts : StartOptions.t) :
  keeps_worker (startBackgroundRegistration opts).
Proof.
  intros w Hw.
  pose proof (restart_keeps_worker (registration_worker (StartOptions.Name opts)) w Hw) as H.
  unfold startBackgroundRegistration, restart_steps in *. run_m.
  destruct (cancel (client w)); cbn in *; rewrite <- ?app_assoc in *; exact H.
Qed.

Lemma keeps_Start (opts : StartOptions.t) : keeps_worker (Start opts).
Proof.
  unfold Start. destruct (is_empty _); [apply neutral_keeps, neutral_ret |].
  apply keeps_worker_bind; [apply neutral_keeps, neutral_doRegister |]. intros r.
  apply keeps_worker_bind; [apply neutral_keeps, neutral_getClient |]. intros c.
  destruct r as [info | err].
  - apply keeps_worker_bind; [apply neutral_keeps, neutral_setAgentID |]. intros _.
    apply keeps_worker_bind; [apply neutral_keeps, neutral_reportEvent |]. intros _.
    apply keeps_worker_bind; [| intros; apply neutral_keeps, neutral_ret].
    destruct (negb _); [apply keeps_startHeartbeat | apply neutral_keeps, neutral_ret].
  - destruct (gracefulDegradation _); [| apply neutral_keeps, neutral_ret].
    apply keeps_worker_bind; [apply keeps_startBackgroundRegistration |].
    intros; apply neutral_keeps, neutral_ret.
Qed.

(** [Close] leaves no worker behind. *)
Lemma Close_stops_worker (w : World) :
  one_worker w ->
  one_worker (Close w).2 /\ cancel (client (Close w).2) = None.
Proof.
  destruct w as [c b tr]. unfold one_worker. cbn [client trace].
  unfold Close, reportEventForAgent, call_ReportEvent. run_m.
  destruct (policySyncer c) as [sy |]; cbn;
    destruct (cancel c) as [wk |] eqn:Hc; cbn; rewrite ?Hc; cbn.
  all: try (intros (Hnb & Hrun & Hst); rewrite Hst;
            destruct (is_empty (agentID c)); cbn;
            try destruct (rpc_ReportEvent _ _ _) as [r b']; cbn;
            rewrite !running_snoc, Hrun; cbn; rewrite worker_eqb_refl;
            (split; [| reflexivity]); (split; [| reflexivity]);
            repeat (apply never_blocked_snoc; [| discriminate]); exact Hnb).
  all: intros (Hnb & Hrun); rewrite !running_snoc, Hrun;
       (split; [| reflexivity]); (split; [| reflexivity]);
       repeat (apply never_blocked_snoc; [| discriminate]); exact Hnb.
Qed.

(** What happens to a client, one call after the other: the calls a
    program makes, the events the transport reports, and the rounds of the
    registration worker. *)
Inductive call :=
| call_Start (opts : StartOptions.t)
| call_Close
| call_Check (req : CheckRequest.t)
| call_authCallback (eventType : string)
| call_registrationAttempt (opts : StartOptions.t).

Definition perform (c : call) : M unit :=
  match c with
  | call_Start opts => Start opts;; mret tt
  | call_Close => Close;; mret tt
  | call_Check req => Check req;; mret tt
  | call_authCallback eventType => authCallback eventType
  | call_registrationAttempt opts => registrationAttempt opts;; mret tt
  end.

Definition program (calls : list call) (w : World) : World :=
  foldl (fun w c => (perform c w).2) w calls.

Lemma keeps_perform (c : call) : keeps_worker (perform c).
Proof.
  destruct c; cbn [perform].
  - apply keeps_worker_bind; [apply keeps_Start | intros; apply neutral_keeps, neutral_ret].
  - intros w Hw. destruct (Close_stops_worker w Hw) as [Hone _].
    unfold mbind, M_bind, mret, M_ret. destruct (Close w) as [r w']. exact Hone.
  - apply neutral_keeps, neutral_bind; [apply neutral_Check | intros; apply neutral_ret].
  - apply neutral_keeps, neutral_authCallback.
  - apply neutral_keeps. unfold registrationAttempt, doRegister, findExistingAgent, setAgentID.
    repeat neutral_step.
Qed.

Lemma program_keeps_worker (calls : list call) (w : World) :
  one_worker w -> one_worker (program calls w).
Proof.
  revert w. induction calls as [| c calls IH]; intros w Hw; [exact Hw |].
  cbn. apply IH. apply keeps_perform. exact Hw.
Qed.

(** Whatever happens to a new client, call after call: in whatever order
    the program calls [Start], [Close] and [Check], whenever the transport
    reports an event or the registration worker makes an attempt, and
    whatever the control plane answers, at no point is more than one
    worker goroutine running, the one running is the one behind the
    client's cancel handle, no call waits on a completion channel that was
    never made, and after a [Close] no worker is running. *)
Theorem one_worker_at_a_time (cfg : clientConfig) (transport : RoundTripper) (b : B)
    (calls : list call) :
  let w := program calls {| client := newClient cfg transport; backend := b; trace := [] |} in
  (length (running (trace w)) <= 1)%nat
  /\ running (trace w) = match cancel (client w) with Some wk => [wk] | None => [] end
  /\ (recv_stopped None ∉ trace w)
  /\ running (trace (program [call_Close] w)) = [].
Proof.
  intros w.
  assert (Hw : one_worker w).
  { apply program_keeps_worker. split; [| reflexivity]. intros Hin. inversion Hin. }
  assert (Hrun : running (trace w)
                 = match cancel (client w) with Some wk => [wk] | None => [] end).
  { destruct Hw as [_ Hw]. destruct (cancel (client w)); [destruct Hw |]; auto. }
  split; [| split; [| split]].
  - rewrite Hrun. destruct (cancel (client w)); cbn; lia.
  - exact Hrun.
  - exact (proj1 Hw).
  - cbn. unfold mbind, M_bind, mret, M_ret.
    destruct (Close_stops_worker w Hw) as [[_ Hone] Hnone].
    destruct (Close w) as [r w']. cbn in *. rewrite Hnone in Hone. exact Hone.
Qed.

End Lifecycle.

Arguments client {B} _.
Arguments backend {B} _.
Arguments trace {B} _.
Arguments Build_World {B} _ _ _.
Arguments authCallback {B} _ _.
Arguments setAgentID {B} _ _.
Arguments Close {B} _ _.
Arguments Start {B} _ _ _ _ _.

(** ** What [Check] submits and answers *)

(** The input [Check] builds for the engine: the required capability is
    the value under "required_capability" in the caller's context when
    there is one, the action otherwise. *)
Definition checkInput (req : CheckRequest.t) : Policy.CheckInput :=
  {| Policy.Action := CheckRequest.Action req;
     Policy.Resource := CheckRequest.Resource req;
     Policy.ResourceType := CheckRequest.ResourceType req;
     Policy.RequiredCapability :=
       default (CheckRequest.Action req) (CheckRequest.Context req !! "required_capability");
     Policy.Context := CheckRequest.Context req |}.

(** The decision of the public API for a decision of the engine. *)
Definition decisionOf (d : Policy.Decision) : Decision.t :=
  {| Decision.Allowed := Policy.Allow d; Decision.Reason := Policy.Reason d;
     Decision.PolicyVersion := Policy.PolicyVersion d |}.

(** The condition under which [Check] answers without the engine. *)
Lemma Check_open_condition (c : Client) :
  disablePolicy (config c) = true \/ Policy.policySet (policyEngine c) = ∅ ->
  disablePolicy (config c) || negb (Policy.HasPolicies (policyEngine c)) = true.
Proof.
  intros [-> | He]; [reflexivity |].
  unfold Policy.HasPolicies, Policy.PolicyCount. rewrite He, map_size_empty.
  apply orb_true_r.
Qed.

(** With policies loaded and checks enabled [Check] reads the agent
    context under the lock and answers what the engine decides. *)
Lemma Check_enforcing (B : Type) Authorize (req : CheckRequest.t) (w : World B) :
  disablePolicy (config (client w)) = false ->
  Policy.HasPolicies (policyEngine (client w)) = true ->
  Check B Authorize req w =
    (decisionOf (Policy.Evaluate Authorize (policyEngine (client w)) (agentCtx (client w))
                   (checkInput req)),
     None,
     {| client := client w; backend := backend w;
        trace := (trace w ++ [mu_Lock]) ++ [mu_Unlock] |}).
Proof.
  intros Hd Hp. unfold Check, mbind, mret, M_bind, M_ret, emit, getClient. cbn.
  rewrite Hd, Hp. reflexivity.
Qed.

(** The context the engine builds from that input: the caller's context,
    where "required_capability" defaults to the action. *)
Lemma checkInput_context (action : string) (ctx : gmap string string) :
  (Cedar.VString <$> ctx)
    ∪ (if is_empty (default action (ctx !! "required_capability")) then ∅
       else {[ "required_capability" :=
                 Cedar.VString (default action (ctx !! "required_capability")) ]})
  = Cedar.VString <$>
      match ctx !! "required_capability" with
      | Some _ => ctx
      | None => if is_empty action then ctx else <["required_capability" := action]> ctx
      end.
Proof.
  apply map_eq. intros k.
  destruct (ctx !! "required_capability") as [v |] eqn:Hrc; cbn [from_option id].
  - rewrite lookup_union, lookup_fmap.
    destruct (is_empty v); [rewrite lookup_empty; destruct (ctx !! k); reflexivity |].
    destruct (decide (k = "required_capability")) as [-> | Hne].
    + rewrite Hrc, lookup_singleton_eq. reflexivity.
    + rewrite lookup_singleton_ne by congruence. destruct (ctx !! k); reflexivity.
  - destruct (is_empty action).
    + rewrite lookup_union, lookup_fmap, lookup_empty. destruct (ctx !! k); reflexivity.
    + rewrite lookup_union, !lookup_fmap.
      destruct (decide (k = "required_capability")) as [-> | Hne].
      * rewrite Hrc, lookup_singleton_eq, lookup_insert_eq. reflexivity.
      * rewrite lookup_singleton_ne, lookup_insert_ne by congruence.
        destruct (ctx !! k); reflexivity.
Qed.

(** With policies loaded and checks enabled, and whatever the authorizer:
    [Check] returns no error and the decision of the authorizer on one
    request, which names the agent of the cached context as principal, the
    requested action and the mapped resource, and whose context is the
    caller's own; only "required_capability" is added when the caller did
    not give it, with the action as its value. *)
Theorem Check_request (B : Type) (req : CheckRequest.t) (w : World B) :
  disablePolicy (config (client w)) = false ->
  Policy.HasPolicies (policyEngine (client w)) = true ->
  exists (entities : gmap (string * string) Cedar.Entity) (creq : Cedar.Request),
    (forall Authorize,
       (Check B Authorize req w).1 =
         (let '(decision, diagnostic) :=
            Authorize (Policy.policySet (policyEngine (client w))) entities creq in
          {| Decision.Allowed := Cedar.Decision_is_Allow decision;
             Decision.Reason := Policy.extractReason decision diagnostic;
             Decision.PolicyVersion := Policy.policyVersion (policyEngine (client w)) |},
          None))
    /\ Cedar.Principal creq
         = {| Cedar.Type_ := "Dome::Agent"; Cedar.ID := Policy.ID (agentCtx (client w)) |}
    /\ Cedar.Action creq
         = {| Cedar.Type_ := "Dome::Action"; Cedar.ID := CheckRequest.Action req |}
    /\ Cedar.Resource creq = Policy.mapResource (checkInput req)
    /\ Cedar.Context creq
         = Cedar.VString <$>
             match CheckRequest.Context req !! "required_capability" with
             | Some _ => CheckRequest.Context req
             | None =>
                 if is_empty (CheckRequest.Action req) then CheckRequest.Context req
                 else <["required_capability" := CheckRequest.Action req]>
                        (CheckRequest.Context req)
             end.
Proof.
  intros Hd Hp. eexists ?[entities], ?[creq]. split.
  - intros Authorize. rewrite (Check_enforcing B Authorize req w Hd Hp).
    unfold decisionOf, Policy.Evaluate. cbn [fst].
    match goal with
    | |- context [Authorize _ ?es ?rq] => instantiate (entities := es); instantiate (creq := rq)
    end.
    destruct (Authorize _ _ _) as [decision diagnostic]. reflexivity.
  - cbn [Cedar.Principal Cedar.Action Cedar.Resource Cedar.Context].
    repeat (split; [reflexivity |]).
    apply checkInput_context.
Qed.

(** On every path, the fail-open one included, the reason goes with the
    verdict: a request is refused exactly when the reason starts with
    "denied" or with "policy error: ". *)
Theorem Check_reason (B : Type) Authorize (req : CheckRequest.t) (w : World B) :
  Decision.Allowed (Check B Authorize req w).1.1
  = negb (String.prefix "denied" (Decision.Reason (Check B Authorize req w).1.1)
          || String.prefix "policy error: " (Decision.Reason (Check B Authorize req w).1.1)).
Proof.
  unfold Check, mbind, mret, M_bind, M_ret, emit, getClient. cbn.
  destruct (disablePolicy (config (client w)) || _); [reflexivity |].
  cbn. unfold Policy.Evaluate.
  destruct (Authorize _ _ _) as [[|] [[| id reasons] [| e errors]]]; try reflexivity.
  destruct e; reflexivity.
Qed.

Definition set_policyEngine (e : Policy.Engine) (c : Client) : Client :=
  {| httpClient := httpClient c; config := config c; agentID := agentID c;
     tenantID := tenantID c; cancel := cancel c; stopped := stopped c;
     policyEngine := e; policySyncer := policySyncer c;
     agentCtx := agentCtx c; pendingAuthEvents := pendingAuthEvents c |}.

Lemma parseFiles_no_policies parse (policies : list (string * string))
    (acc : gmap string Cedar.Policy) :
  (forall f c, (f, c) ∈ policies -> parse f c = inl []) ->
  Policy.parseFiles parse policies acc = inl acc.
Proof.
  revert acc. induction policies as [| [f c] rest IH]; intros acc Hall; [reflexivity |].
  cbn. rewrite (Hall f c) by left. apply IH.
  intros f' c' Hin. apply Hall. right. exact Hin.
Qed.

(** A bundle in which no file holds a policy, the bundle without files
    included, loads without an error and takes the place of the policies
    loaded before; from then on the engine counts as empty, so [Check]
    allows every request with "no policy bundle loaded" and does not even
    name the bundle's version. *)
Theorem empty_bundle_fails_open (B : Type) Authorize parse (w : World B)
    (policies : list (string * string)) (version : string) (req : CheckRequest.t) :
  (forall f c, (f, c) ∈ policies -> parse f c = inl []) ->
  exists e',
    Policy.LoadBundle parse (policyEngine (client w)) policies version
      = (e', None,
         [Policy.mu_Lock; Policy.store_policySet; Policy.store_policyVersion;
          Policy.mu_Unlock])
    /\ Policy.policyVersion e' = version
    /\ Policy.PolicyCount e' = 0
    /\ Check B Authorize req
         {| client := set_policyEngine e' (client w); backend := backend w;
            trace := trace w |}
       = ({| Decision.Allowed := true; Decision.Reason := "no policy bundle loaded";
             Decision.PolicyVersion := "" |}, None,
          {| client := set_policyEngine e' (client w); backend := backend w;
             trace := trace w |}).
Proof.
  intros Hall. eexists. unfold Policy.LoadBundle.
  rewrite (parseFiles_no_policies parse policies ∅ Hall).
  split; [reflexivity |]. split; [reflexivity |]. split; [reflexivity |].
  unfold Check, mbind, mret, M_bind, M_ret, getClient. cbn [client fst snd].
  rewrite Check_open_condition; [reflexivity |]. right. reflexivity.
Qed.

(** ** middleware.go *)

Definition StatusForbidden : Z := 403.

(** [strings.TrimPrefix]. *)
Definition TrimPrefix (s prefix : string) : string :=
  if String.prefix prefix s
  then String.substring (String.length prefix) (String.length s - String.length prefix) s
  else s.

(** What the handler does with a request: it hands it on to the wrapped
    handler, or it answers with [http.Error]. *)
Inductive served :=
| next_ServeHTTP
| http_Error (error : string) (code : Z).

Section Middleware.

Variable B : Type.
Variable Authorize :
  gmap string Cedar.Policy -> gmap (string * string) Cedar.Entity -> Cedar.Request ->
  Cedar.Decision * Cedar.Diagnostic.

(** [strings.ToLower]. *)
Variable ToLower : string -> string.

#[local] Existing Instance M_ret.
#[local] Existing Instance M_bind.

Definition httpMethodToAction (method : string) : string :=
  if String.eqb method "GET" || String.eqb method "HEAD" then "read"
  else if String.eqb method "POST" then "create"
  else if String.eqb method "PUT" || String.eqb method "PATCH" then "update"
  else if String.eqb method "DELETE" then "delete"
  else ToLower method.

(** The handler [Middleware] returns, applied to a request with the given
    method and URL path. *)
Definition Middleware (method path : string) : M B served :=
  let action := httpMethodToAction method in
  let resource := TrimPrefix path "/" in
  r ← Check B Authorize
        {| CheckRequest.Action := action; CheckRequest.Resource := resource;
           CheckRequest.ResourceType := ""; CheckRequest.Context := ∅ |};
  match r with
  | (_, Some _) => mret next_ServeHTTP
  | (decision, None) =>
      if negb (Decision.Allowed decision)
      then mret (http_Error ("Forbidden: " +:+ Decision.Reason decision) StatusForbidden)
      else mret next_ServeHTTP
  end.

End Middleware.

(** The methods [httpMethodToAction] knows by name. *)
Definition standard_methods : list string := ["GET"; "HEAD"; "POST"; "PUT"; "PATCH"; "DELETE"].

(** While policy is disabled or no policy is loaded the middleware lets
    every request through to the wrapped handler, whatever its method and
    path, and leaves the client as it is. *)
Theorem Middleware_fail_open (B : Type) Authorize ToLower (method path : string)
    (w : World B) :
  disablePolicy (config (client w)) = true \/ Policy.policySet (policyEngine (client w)) = ∅ ->
  Middleware B Authorize ToLower method path w = (next_ServeHTTP, w).
Proof.
  intros H. apply Check_open_condition in H.
  unfold Middleware, Check, mbind, mret, M_bind, M_ret, getClient. cbn.
  rewrite H. reflexivity.
Qed.

(** With policies loaded and checks enabled, a request with one of the
    six methods known by name is put to the authorizer as one of the
    actions read, create, update and delete on the resource
    [Dome::Resource::<path without its leading slash>], with the action as
    the required capability; the wrapped handler runs exactly when the
    authorizer allows, and otherwise the answer is 403 with "Forbidden: "
    and the reason. *)
Theorem Middleware_enforces (B : Type) ToLower (method path : string) (w : World B) :
  disablePolicy (config (client w)) = false ->
  Policy.HasPolicies (policyEngine (client w)) = true ->
  method ∈ standard_methods ->
  exists (entities : gmap (string * string) Cedar.Entity) (creq : Cedar.Request),
    (forall Authorize,
       (Middleware B Authorize ToLower method path w).1 =
         let '(decision, diagnostic) :=
           Authorize (Policy.policySet (policyEngine (client w))) entities creq in
         match decision with
         | Cedar.Allow => next_ServeHTTP
         | Cedar.Deny =>
             http_Error ("Forbidden: " +:+ Policy.extractReason decision diagnostic) 403
         end)
    /\ httpMethodToAction ToLower method ∈ ["read"; "create"; "update"; "delete"]
    /\ Cedar.Action creq
         = {| Cedar.Type_ := "Dome::Action"; Cedar.ID := httpMethodToAction ToLower method |}
    /\ Cedar.Resource creq
         = {| Cedar.Type_ := "Dome::Resource"; Cedar.ID := TrimPrefix path "/" |}
    /\ Cedar.Context creq
         = {[ "required_capability" := Cedar.VString (httpMethodToAction ToLower method) ]}.
Proof.
  intros Hd Hp Hm.
  assert (Hcases : httpMethodToAction ToLower method = "read"
                   \/ httpMethodToAction ToLower method = "create"
                   \/ httpMethodToAction ToLower method = "update"
                   \/ httpMethodToAction ToLower method = "delete").
  { unfold standard_methods in Hm.
    repeat (apply elem_of_cons in Hm as [-> | Hm]); [auto .. | inversion Hm]. }
  destruct Hcases as [Ha | [Ha | [Ha | Ha]]];
    (eexists _, _; split;
     [ intros Authorize; unfold Middleware, mbind, M_bind; rewrite Ha;
       rewrite (Check_enforcing B Authorize _ w Hd Hp);
       unfold decisionOf, Policy.Evaluate, checkInput, Policy.mapResource;
       cbn [CheckRequest.Action CheckRequest.Resource CheckRequest.ResourceType
            CheckRequest.Context Policy.Action Policy.Resource Policy.ResourceType
            Policy.RequiredCapability Policy.Context];
       rewrite lookup_empty; cbn [from_option id];
       rewrite fmap_empty, (left_id_L ∅ (∪)); cbn;
       lazymatch goal with
       | |- ?lhs = ?rhs =>
           match lhs with
           | context [Authorize _ ?es ?rq] =>
               match rhs with
               | context [Authorize _ ?e1 ?e2] => unify e1 es; unify e2 rq
               end
           end
       end;
       destruct (Authorize _ _ _) as [[|] diagnostic]; reflexivity
     | rewrite Ha; cbn; repeat split; apply list_elem_of_In; cbn; auto ]).
Qed.

(** ** dome.go: the global client *)

(** [Close] has one return statement, and it returns nil. *)
Lemma Close_returns_nil (B : Type) rpc_ReportEvent (w : World B) :
  (Close rpc_ReportEvent w).1 = None.
Proof.
  destruct w as [c b tr].
  unfold Close, reportEventForAgent, call_ReportEvent, mbind, mret, M_bind, M_ret, emit,
    getClient, modifyClient. cbn.
  destruct (policySyncer c); cbn; destruct (cancel c); cbn;
    try destruct (is_empty (agentID c)); cbn;
    try destruct (rpc_ReportEvent _ _ _); reflexivity.
Qed.

Module Global.

(** The process: the package variable [globalClient] with the client it
    points to, the control plane, and what happened so far.  [globalMu],
    which serialises the functions below, is left out. *)
Record Process (B : Type) := {
  globalClient : option Client;
  control : B;
  history : list Event
}.

Arguments globalClient {B} _.
Arguments control {B} _.
Arguments history {B} _.
Arguments Build_Process {B} _ _ _.

Definition notInitialized : error :=
  errorf "client not initialized (call dome.Init first)" [] None.

Section Process.

Variable B : Type.
Variable rpc_RegisterAgent :
  apiv1.RegisterAgentRequest.t -> B -> (apiv1.RegisterAgentResponse.t + error) * B.
Variable rpc_ListAgents :
  apiv1.ListAgentsRequest.t -> B -> (apiv1.ListAgentsResponse.t + error) * B.
Variable rpc_ReportEvent : string -> string -> B -> option error * B.
Variable Authorize :
  gmap string Cedar.Policy -> gmap (string * string) Cedar.Entity -> Cedar.Request ->
  Cedar.Decision * Cedar.Diagnostic.
Variable ToLower : string -> string.
Variable TrimSpace : string -> string.
Variable base64_DecodeString : string -> string + error.
Variable json_Unmarshal : string -> agentCredentials + error.
Variable Getenv : string -> string.

Definition getGlobalClient (p : Process B) : Client + error :=
  match globalClient p with
  | Some c => inl c
  | None => inr notInitialized
  end.

(** A method of the client [globalClient] points to, run in the process:
    the method works on the client in place. *)
Definition method {A : Type} (m : M B A) (c : Client) (p : Process B) : A * Process B :=
  let '(a, w) := m {| client := c; backend := control p; trace := history p |} in
  (a, {| globalClient := Some (client w); control := backend w; history := trace w |}).

Definition clear_globalClient (p : Process B) : Process B :=
  {| globalClient := None; control := control p; history := history p |}.

Definition Init (opts : list Option) (p : Process B) : option error * Process B :=
  let p :=
    match globalClient p with
    | Some c => clear_globalClient (method (Close rpc_ReportEvent) c p).2
    | None => p
    end in
  match NewClient TrimSpace base64_DecodeString json_Unmarshal Getenv opts with
  | inr err => (Some err, p)
  | inl c => (None, {| globalClient := Some c; control := control p; history := history p |})
  end.

(** [Register]; the method [Register] of the client is [Start] under its
    former name. *)
Definition Register (opts : StartOptions.t) (p : Process B)
    : (AgentInfo.t + error) * Process B :=
  match getGlobalClient p with
  | inr err => (inr err, p)
  | inl c => method (Start rpc_RegisterAgent rpc_ListAgents rpc_ReportEvent opts) c p
  end.

Definition Check (req : CheckRequest.t) (p : Process B)
    : (option Decision.t * option error) * Process B :=
  match getGlobalClient p with
  | inr err => ((None, Some err), p)
  | inl c =>
      let '((d, err), p') := method (Dome.Check B Authorize req) c p in
      ((Some d, err), p')
  end.

Definition Middleware (method_ path : string) (p : Process B) : served * Process B :=
  match getGlobalClient p with
  | inr _ => (next_ServeHTTP, p)
  | inl c => method (Dome.Middleware B Authorize ToLower method_ path) c p
  end.

Definition Shutdown (p : Process B) : option error * Process B :=
  match globalClient p with
  | Some c =>
      let '(err, p') := method (Close rpc_ReportEvent) c p in
      (err, clear_globalClient p')
  | None => (None, p)
  end.

(** Before [Init], and again after [Shutdown], the process holds no
    client: [Register] and [Check] fail with "client not initialized", the
    middleware hands every request on, [Shutdown] returns nil, and none of
    them changes anything.  [Shutdown] always returns nil and leaves the
    process in that state, so a second [Shutdown] is such a call. *)
Theorem Shutdown_uninitialises (p : Process B) :
  (Shutdown p).1 = None
  /\ globalClient (Shutdown p).2 = None
  /\ forall q : Process B,
       globalClient q = None ->
       Shutdown q = (None, q)
       /\ (forall opts, Register opts q = (inr notInitialized, q))
       /\ (forall req, Check req q = ((None, Some notInitialized), q))
       /\ (forall method_ path, Middleware method_ path q = (next_ServeHTTP, q)).
Proof.
  split; [| split].
  - unfold Shutdown, method. destruct (globalClient p) as [c |]; [| reflexivity].
    pose proof (Close_returns_nil B rpc_ReportEvent
                  {| client := c; backend := control p; trace := history p |}) as Hnil.
    destruct (Close _ _) as [r w']. exact Hnil.
  - unfold Shutdown. destruct (globalClient p) as [c |] eqn:Hc; [| exact Hc].
    destruct (method _ c p) as [err p']. reflexivity.
  - intros q Hq. unfold Shutdown, Register, Check, Middleware, getGlobalClient.
    rewrite Hq. auto.
Qed.

(** An [Init] whose options resolve to no authentication returns the
    error of [NewClient] and leaves the process without a client, also
    when a client was in place: that one is closed first and is not put
    back, so every later [Register] fails until an [Init] succeeds. *)
Theorem Init_failure_uninitialises (opts : list Option) (p : Process B) (err : error) :
  NewClient TrimSpace base64_DecodeString json_Unmarshal Getenv opts = inr err ->
  exists p',
    Init opts p = (Some err, p')
    /\ globalClient p' = None
    /\ (forall c, globalClient p = Some c ->
          history p' = trace (Close rpc_ReportEvent
                                {| client := c; backend := control p; trace := history p |}).2)
    /\ forall o, Register o p' = (inr notInitialized, p').
Proof.
  intros Hnew. unfold Init. rewrite Hnew.
  eexists. split; [reflexivity |].
  assert (Hnone : globalClient
                    match globalClient p with
                    | Some c => clear_globalClient (method (Close rpc_ReportEvent) c p).2
                    | None => p
                    end = None).
  { destruct (globalClient p) eqn:Hc; [reflexivity | exact Hc]. }
  split; [exact Hnone |]. split.
  - intros c Hc. rewrite Hc. unfold method.
    destruct (Close _ _) as [r w']. reflexivity.
  - intros o. unfold Register, getGlobalClient. rewrite Hnone. reflexivity.
Qed.

End Process.

End Global.

(** ** The control plane of the repository's tests (client_test.go) *)

Module Mock.

(** [mockHandler].  [ranges] counts the [range] statements executed over
    the map so far: Go visits a map in an order of the runtime's choosing,
    anew for each statement. *)
Record mockHandler := {
  agents : gmap string apiv1.Agent.t;
  nextID : Z;
  ranges : nat
}.

Definition newMockHandler : mockHandler := {| agents := ∅; nextID := 0; ranges := 0 |}.

(** The agents of the map, in the map's own enumeration. *)
Definition values (m : gmap string apiv1.Agent.t) : list apiv1.Agent.t :=
  (map_to_list m).*2.

Definition int32 (z : Z) : Z := (z + 2 ^ 31) mod 2 ^ 32 - 2 ^ 31.

Section Handler.

(** [order n m]: the order in which the n-th [range] statement visits the
    values of [m]. *)
Variable order : nat -> gmap string apiv1.Agent.t -> list apiv1.Agent.t.

Definition RegisterAgent (req : apiv1.RegisterAgentRequest.t) (h : mockHandler)
    : (apiv1.RegisterAgentResponse.t + error) * mockHandler :=
  if existsb (named (apiv1.RegisterAgentRequest.Name req)) (order (ranges h) (agents h)) then
    (inr (connect_Error CodeAlreadyExists ""),
     {| agents := agents h; nextID := nextID h; ranges := S (ranges h) |})
  else
    let n := nextID h + 1 in
    let agent :=
      {| apiv1.Agent.Id := "agent-" +:+ pretty n;
         apiv1.Agent.Name := apiv1.RegisterAgentRequest.Name req;
         apiv1.Agent.Status := "AGENT_STATUS_ACTIVE";
         apiv1.Agent.Capabilities := apiv1.RegisterAgentRequest.Capabilities req;
         apiv1.Agent.Metadata := apiv1.RegisterAgentRequest.Metadata req |} in
    (inl {| apiv1.RegisterAgentResponse.Agent := Some agent;
            apiv1.RegisterAgentResponse.Token := "test-token" |},
     {| agents := <[apiv1.Agent.Id agent := agent]> (agents h); nextID := n;
        ranges := S (ranges h) |}).

Definition ListAgents (req : apiv1.ListAgentsRequest.t) (h : mockHandler)
    : (apiv1.ListAgentsResponse.t + error) * mockHandler :=
  let listed := order (ranges h) (agents h) in
  (inl {| apiv1.ListAgentsResponse.Agents := listed;
          apiv1.ListAgentsResponse.Total := int32 (Z.of_nat (length listed)) |},
   {| agents := agents h; nextID := nextID h; ranges := S (ranges h) |}).

(** The embedded [UnimplementedAgentRegistryHandler] answers the rest. *)
Definition ReportEvent (agentID eventType : string) (h : mockHandler)
    : option error * mockHandler :=
  (Some (connect_Error CodeUnimplemented
           "dome.agent.v1.AgentRegistry.ReportEvent is not implemented"), h).

(** [Start] against the mock. *)
Definition Start (opts : StartOptions.t) (w : World mockHandler)
    : (AgentInfo.t + error) * World mockHandler :=
  Dome.Start RegisterAgent ListAgents ReportEvent opts w.

End Handler.










End Mock.


(** ** The lifecycle, run *)

(** A client as [NewClient] builds it for the credential blob of the
    example above, and the empty control plane of the tests. *)
Definition client_example : Client :=
  newClient defaultConfig
    (tokenexchange_Transport
       (TokenExchange.NewTransport
          {| TokenExchange.APIURL := "https://api.dome.example.com";
             TokenExchange.RoleID := "r1"; TokenExchange.SecretID := "s1" |})).

Definition world_example : World Mock.mockHandler :=
  {| client := client_example; backend := Mock.newMockHandler; trace := [] |}.

Definition options_example (name : string) : StartOptions.t :=
  {| StartOptions.Name := name; StartOptions.Description := "";
     StartOptions.ParentID := ""; StartOptions.Capabilities := [];
     StartOptions.Metadata := ∅ |}.

Definition order_example (n : nat) (m : gmap string apiv1.Agent.t) : list apiv1.Agent.t :=
  Mock.values m.

(** The identifier a call of [Start] returned. *)
Definition returned_ID (r : AgentInfo.t + error) : option string :=
  match r with
  | inl info => Some (AgentInfo.ID info)
  | inr _ => None
  end.

Definition Close_example (w : World Mock.mockHandler) : World Mock.mockHandler :=
  (Close Mock.ReportEvent w).2.


(** The repository's idempotence test, with the heartbeat disabled. *)
Example Register_Idempotent :
  let w0 := {| client := newClient (WithoutHeartbeat defaultConfig) (bearerTransport "test-key");
               backend := Mock.newMockHandler; trace := [] |} in
  let first := Mock.Start order_example (options_example "idempotent-agent") w0 in
  let second := Mock.Start order_example (options_example "idempotent-agent") first.2 in
  returned_ID first.1 = Some "agent-1" /\ returned_ID second.1 = Some "agent-1".
Proof. vm_compute. split; reflexivity. Qed.

(** ** A control plane that lists by pages *)

(** A control plane that keeps its agents in the order of their
    registration, rejects the registration of a name it holds, and lists
    at most as many agents as the request's limit allows, the oldest
    first. *)
Module Paged.

Definition RegisterAgent (req : apiv1.RegisterAgentRequest.t) (h : list apiv1.Agent.t)
    : (apiv1.RegisterAgentResponse.t + error) * list apiv1.Agent.t :=
  if existsb (named (apiv1.RegisterAgentRequest.Name req)) h then
    (inr (connect_Error CodeAlreadyExists ""), h)
  else
    let agent :=
      {| apiv1.Agent.Id := "agent-" +:+ pretty (Z.of_nat (length h) + 1);
         apiv1.Agent.Name := apiv1.RegisterAgentRequest.Name req;
         apiv1.Agent.Status := "AGENT_STATUS_ACTIVE";
         apiv1.Agent.Capabilities := apiv1.RegisterAgentRequest.Capabilities req;
         apiv1.Agent.Metadata := apiv1.RegisterAgentRequest.Metadata req |} in
    (inl {| apiv1.RegisterAgentResponse.Agent := Some agent;
            apiv1.RegisterAgentResponse.Token := "test-token" |},
     h ++ [agent]).

Definition ListAgents (req : apiv1.ListAgentsRequest.t) (h : list apiv1.Agent.t)
    : (apiv1.ListAgentsResponse.t + error) * list apiv1.Agent.t :=
  (inl {| apiv1.ListAgentsResponse.Agents :=
            take (Z.to_nat (apiv1.ListAgentsRequest.Limit req)) h;
          apiv1.ListAgentsResponse.Total := Mock.int32 (Z.of_nat (length h)) |},
   h).

Definition ReportEvent (agentID eventType : string) (h : list apiv1.Agent.t)
    : option error * list apiv1.Agent.t :=
  (None, h).

Definition Start (opts : StartOptions.t) (w : World (list apiv1.Agent.t))
    : (AgentInfo.t + error) * World (list apiv1.Agent.t) :=
  Dome.Start RegisterAgent ListAgents ReportEvent opts w.


End Paged.



(** The client of the scenario above once [Start] has returned. *)
Definition started_example : World Mock.mockHandler :=
  (Mock.Start order_example (options_example "a1")
     (authCallback "agent.authenticated" world_example).2).2.

Lemma Close_stops_once_witness :
  exists w',
    Close Mock.ReportEvent started_example = (None, w')
    /\ trace w' =
         trace started_example ++
         [mu_Lock; ReportEvent "agent-1" "agent.stopped";
          call_cancel (heartbeat_worker "agent-1");
          recv_stopped (Some (heartbeat_worker "agent-1")); mu_Unlock]
    /\ cancel (client w') = None
    /\ Close Mock.ReportEvent w' =
         (None, {| client := client w'; backend := backend w';
                   trace := trace w' ++ [mu_Lock; mu_Unlock] |}).
Proof.
  destruct (Close_stops_once Mock.mockHandler Mock.ReportEvent started_example)
    as (w' & Hclose & Htr & _ & Hc & Hagain).
  exists w'. split; [exact Hclose |]. split; [exact Htr |].
  split; [rewrite Hc; reflexivity | exact Hagain].
Defined.

(** An authorizer that denies everything, and a client that has policies
    loaded but policy checks disabled. *)
Definition deny_all (ps : gmap string Cedar.Policy)
    (es : gmap (string * string) Cedar.Entity) (req : Cedar.Request)
    : Cedar.Decision * Cedar.Diagnostic :=
  (Cedar.Deny, {| Cedar.Reasons := []; Cedar.Errors := [] |}).

Definition disabled_example : World Mock.mockHandler :=
  {| client :=
       {| httpClient := bearerTransport "test-key";
          config :=
            {| apiURL := DefaultAPIURL; apiKey := "test-key"; credentials := "";
               heartbeatInterval := DefaultHeartbeatInterval; disableHeartbeat := false;
               gracefulDegradation := false; disablePolicy := true; policyRefresh := 0 |};
          agentID := "agent-1"; tenantID := ""; cancel := None; stopped := None;
          policyEngine := Policy.engine_v0; policySyncer := None;
          agentCtx := agentCtx client_example; pendingAuthEvents := [] |};
     backend := Mock.newMockHandler; trace := [] |}.

Definition check_example : CheckRequest.t :=
  {| CheckRequest.Action := "mcp:call"; CheckRequest.Resource := "t/secret";
     CheckRequest.ResourceType := ""; CheckRequest.Context := ∅ |}.

Lemma Check_fail_open_witness :
  Check Mock.mockHandler deny_all check_example disabled_example =
    ({| Decision.Allowed := true; Decision.Reason := "no policy bundle loaded";
        Decision.PolicyVersion := "" |}, None, disabled_example).
Proof.
  apply (Check_fail_open Mock.mockHandler deny_all check_example disabled_example).
  left. reflexivity.
Defined.

(** With the checks enabled the same request goes to the authorizer. *)
Example Check_consults_engine :
  let w := {| client :=
                {| httpClient := bearerTransport "test-key"; config := defaultConfig;
                   agentID := "agent-1"; tenantID := ""; cancel := None; stopped := None;
                   policyEngine := Policy.engine_v0; policySyncer := None;
                   agentCtx := agentCtx client_example; pendingAuthEvents := [] |};
              backend := Mock.newMockHandler; trace := [] |} in
  (Check Mock.mockHandler deny_all check_example w).1 =
    ({| Decision.Allowed := false; Decision.Reason := "denied: no matching permit policy";
        Decision.PolicyVersion := "v0" |}, None).
Proof. vm_compute. reflexivity. Qed.

(** A client that registered with the heartbeat disabled holds no cancel
    handle: its [Close] sends no "agent.stopped". *)
Example Close_without_worker :
  let w0 := {| client := newClient (WithoutHeartbeat defaultConfig) (bearerTransport "test-key");
               backend := Mock.newMockHandler; trace := [] |} in
  let started := (Mock.Start order_example (options_example "a1") w0).2 in
  agentID (client started) = "agent-1"
  /\ cancel (client started) = None
  /\ trace (Close_example started) = trace started ++ [mu_Lock; mu_Unlock].
Proof. vm_compute. repeat split; reflexivity. Qed.

(** ** Start against a control plane that is down *)

Definition down_RegisterAgent (req : apiv1.RegisterAgentRequest.t) (b : unit)
    : (apiv1.RegisterAgentResponse.t + error) * unit :=
  (inr (connect_Error CodeUnavailable "unavailable"), b).

Definition down_ListAgents (req : apiv1.ListAgentsRequest.t) (b : unit)
    : (apiv1.ListAgentsResponse.t + error) * unit :=
  (inr (connect_Error CodeUnavailable "unavailable"), b).

Definition down_ReportEvent (agentID eventType : string) (b : unit) : option error * unit :=
  (Some (connect_Error CodeUnavailable "unavailable"), b).

(** A client with a key, with and without graceful degradation. *)
Definition degrading_config : clientConfig :=
  {| apiURL := DefaultAPIURL; apiKey := "test-key"; credentials := "";
     heartbeatInterval := DefaultHeartbeatInterval; disableHeartbeat := false;
     gracefulDegradation := true; disablePolicy := false; policyRefresh := 0 |}.

Definition degrading_example : World unit :=
  {| client := newClient degrading_config (bearerTransport "test-key");
     backend := tt; trace := [] |}.

Definition strict_example : World unit :=
  {| client := newClient defaultConfig (bearerTransport "test-key");
     backend := tt; trace := [] |}.

Lemma Start_requires_name_witness :
  Start down_RegisterAgent down_ListAgents down_ReportEvent (options_example "") degrading_example
  = (inr (errorf "agent name is required" [] None), degrading_example).
Proof.
  apply (Start_requires_name unit down_RegisterAgent down_ListAgents down_ReportEvent
           (options_example "") degrading_example).
  reflexivity.
Defined.

Lemma Start_degrades_gracefully_witness :
  exists w',
    Start down_RegisterAgent down_ListAgents down_ReportEvent (options_example "a1")
      degrading_example = (inl (placeholder "a1"), w')
    /\ agentID (client w') = ""
    /\ cancel (client w') = Some (registration_worker "a1")
    /\ trace w' = [RegisterAgent "a1"; mu_Lock; go_worker (registration_worker "a1"); mu_Unlock].
Proof.
  destruct (Start_degrades_gracefully unit down_RegisterAgent down_ListAgents down_ReportEvent
              (options_example "a1") degrading_example
              {| client := client degrading_example; backend := tt;
                 trace := [RegisterAgent "a1"] |}
              (errorf "register agent: %w" []
                 (Some (connect_Error CodeUnavailable "unavailable"))))
    as (w' & Hs & Hid & Hc & _ & Htr).
  - discriminate.
  - reflexivity.
  - reflexivity.
  - exists w'. auto.
Defined.

Lemma Start_error_keeps_code_witness :
  exists e w',
    Start down_RegisterAgent down_ListAgents down_ReportEvent (options_example "a1")
      strict_example = (inr e, w')
    /\ CodeOf e = CodeUnavailable.
Proof.
  destruct (Start_error_keeps_code unit down_RegisterAgent down_ListAgents down_ReportEvent
              (options_example "a1") strict_example) as [Hreg _].
  - discriminate.
  - reflexivity.
  - destruct (Hreg (connect_Error CodeUnavailable "unavailable") tt eq_refl)
      as (e & w' & Hs & _ & Hcode & _).
    + discriminate.
    + exists e, w'. auto.
Defined.

(** The first [Start] against the control plane of the tests. *)
Lemma Start_registers_witness :
  exists info w',
    Mock.Start order_example (options_example "a1") world_example = (inl info, w')
    /\ AgentInfo.ID info = "agent-1" /\ AgentInfo.Token info = "test-token"
    /\ agentID (client w') = "agent-1"
    /\ cancel (client w') = Some (heartbeat_worker "agent-1").
Proof.
  edestruct (Start_registers Mock.mockHandler (Mock.RegisterAgent order_example)
               (Mock.ListAgents order_example) Mock.ReportEvent
               (options_example "a1") world_example) as (w' & Hs & Hid & Hc & _).
  - discriminate.
  - vm_compute. reflexivity.
  - eexists _, w'. split; [exact Hs |]. auto.
Defined.

(** ** Construction, run on more inputs *)

Lemma NewClient_bearer_token_not_empty_witness :
  exists c, NewClient_run ∅ [WithAPIKey "test-key"] = inl c
            /\ httpClient c = bearerTransport "test-key" /\ "test-key" <> "".
Proof.
  eexists. split; [vm_compute; reflexivity |]. split; [reflexivity |].
  eapply (NewClient_bearer_token_not_empty GoStd.TrimSpace GoStd.base64_DecodeString
            json_Unmarshal_creds (Getenv ∅) [WithAPIKey "test-key"]).
  - vm_compute. reflexivity.
  - reflexivity.
Defined.

(** A credentials option that is no blob, beside a blob in the
    environment: the blob is not looked at. *)
Lemma NewClient_credentials_shadow_env_token_witness :
  NewClient_run {[ "DOME_AGENT_TOKEN" := blob_example ]} [WithCredentials "test-key"]
  = NewClient_run ∅ [WithCredentials "test-key"].
Proof.
  apply (NewClient_credentials_shadow_env_token GoStd.TrimSpace GoStd.base64_DecodeString
           json_Unmarshal_creds (Getenv {[ "DOME_AGENT_TOKEN" := blob_example ]}) (Getenv ∅)
           [WithCredentials "test-key"]).
  - discriminate.
  - intros key Hne. unfold Getenv. rewrite lookup_singleton_ne by congruence.
    rewrite lookup_empty. reflexivity.
Defined.

(** A blob for direct Vault access whose [auth_method] names a backend
    the SDK does not know. *)
Definition vault_creds_example : agentCredentials :=
  {| APIURL := ""; VaultAddr := "https://vault.example.com"; AuthMethod := "iam";
     RoleID := "r1"; SecretID := "s1"; KubeAuthRole := ""; IAMAuthRole := "dome";
     OIDCRoleName := "dome-agent" |}.

Lemma credentialTransport_vault_method_witness :
  exists t,
    credentialTransport "blob" (Some vault_creds_example) = Some (vault_Transport t)
    /\ Vault.AuthMethod (Vault.config t) = "approle"
    /\ Vault.AppRoleID (Vault.config t) = "r1".
Proof.
  eexists. split; [reflexivity |].
  edestruct (credentialTransport_vault_method "blob" vault_creds_example)
    as (_ & _ & [(Hk & _) | (_ & Hm & Hr & _)]).
  - reflexivity.
  - discriminate Hk.
  - auto.
Defined.

(** ** Enforcement, run *)

(** A client with one policy loaded and checks enabled. *)
Definition enforcing_example : World Mock.mockHandler :=
  {| client :=
       {| httpClient := bearerTransport "test-key"; config := defaultConfig;
          agentID := "agent-1"; tenantID := ""; cancel := None; stopped := None;
          policyEngine := Policy.engine_v0; policySyncer := None;
          agentCtx := agentCtx client_example; pendingAuthEvents := [] |};
     backend := Mock.newMockHandler; trace := [] |}.

Lemma Check_request_witness :
  exists creq,
    Cedar.Action creq = {| Cedar.Type_ := "Dome::Action"; Cedar.ID := "mcp:call" |}
    /\ Cedar.Resource creq = {| Cedar.Type_ := "Dome::MCPTool"; Cedar.ID := "t/secret" |}
    /\ Cedar.Context creq = {[ "required_capability" := Cedar.VString "mcp:call" ]}.
Proof.
  destruct (Check_request Mock.mockHandler check_example enforcing_example)
    as (entities & creq & _ & _ & Ha & Hr & Hc).
  - reflexivity.
  - vm_compute. reflexivity.
  - exists creq. split; [exact Ha |]. split; [exact Hr |].
    rewrite Hc. cbn. rewrite lookup_empty. cbn. rewrite fmap_insert, fmap_empty.
    reflexivity.
Defined.

Lemma Middleware_fail_open_witness :
  Middleware Mock.mockHandler deny_all (fun s => s) "DELETE" "/users/7" disabled_example
  = (next_ServeHTTP, disabled_example).
Proof.
  apply (Middleware_fail_open Mock.mockHandler deny_all (fun s => s) "DELETE" "/users/7"
           disabled_example).
  left. reflexivity.
Defined.

Lemma Middleware_enforces_witness :
  (Middleware Mock.mockHandler deny_all (fun s => s) "DELETE" "/users/7" enforcing_example).1
  = http_Error "Forbidden: denied: no matching permit policy" 403.
Proof.
  destruct (Middleware_enforces Mock.mockHandler (fun s => s) "DELETE" "/users/7"
              enforcing_example) as (entities & creq & Hrun & _).
  - reflexivity.
  - vm_compute. reflexivity.
  - apply list_elem_of_In. cbn. auto 10.
  - rewrite (Hrun deny_all). reflexivity.
Defined.

(** A bundle of one file that holds comments only. *)
Lemma empty_bundle_fails_open_witness :
  exists e',
    Policy.LoadBundle (fun _ _ => inl []) Policy.engine_v0 [("empty.cedar", "// none")] "v2"
      = (e', None,
         [Policy.mu_Lock; Policy.store_policySet; Policy.store_policyVersion;
          Policy.mu_Unlock])
    /\ Policy.policyVersion e' = "v2"
    /\ Policy.PolicyCount e' = 0.
Proof.
  destruct (empty_bundle_fails_open Mock.mockHandler deny_all (fun _ _ => inl [])
              enforcing_example [("empty.cedar", "// none")] "v2" check_example)
    as (e' & Hload & Hv & Hn & _).
  - intros f c _. reflexivity.
  - exists e'. auto.
Defined.

(** ** The global client, run *)

(** A process in which [Init] has put the client of the example in
    place and [Register] has started its heartbeat. *)
Definition process_example : Global.Process Mock.mockHandler :=
  {| Global.globalClient := Some (client started_example);
     Global.control := backend started_example;
     Global.history := trace started_example |}.

Lemma Init_failure_uninitialises_witness :
  exists p',
    Global.Init Mock.mockHandler Mock.ReportEvent GoStd.TrimSpace GoStd.base64_DecodeString
      json_Unmarshal_creds (Getenv ∅) [] process_example
    = (Some (errors_New authRequired), p')
    /\ Global.globalClient p' = None.
Proof.
  destruct (Global.Init_failure_uninitialises Mock.mockHandler
              (Mock.RegisterAgent order_example) (Mock.ListAgents order_example)
              Mock.ReportEvent GoStd.TrimSpace GoStd.base64_DecodeString
              json_Unmarshal_creds (Getenv ∅) [] process_example
              (errors_New authRequired)) as (p' & Hinit & Hnone & _).
  - vm_compute. reflexivity.
  - exists p'. auto.
Defined.

End Dome.
